(** * mcp-playwright: the session-aware API server, embedded and verified

    A shallow embedding of [src/backend/api-server.js]: the [SessionManager]
    class, the line-oriented JSON-RPC exchange with the tool servers
    ([sendMCPRequest], [callTool]), the locator extractor
    ([extractLocatorInfo]) and the conversation loop
    ([processPromptWithMCP]) together with the [/api/...] route handlers.
    The discovery of the tools ([discoverAllTools]) and the handlers of the
    custom tool server ([MyMCPServer]) are embedded in modules of their
    own.

    Conventions.
    - JavaScript values that come from JSON are values of [Js.json];
      [undefined] is [None] in an [option json].  Numbers are the integers
      the program handles (counts, millisecond clocks, correlation ids).
    - [Date] values are kept as epoch milliseconds; [toISOString] is not
      rendered.
    - Strings are sequences of 8-bit code units.
    - Everything the program obtains from outside (the clock, the uuid
      generator, the model service, the tool servers, [JSON.parse],
      [JSON.stringify], the regular-expression match) is a field of the
      class [Env], indexed by the number of earlier calls where the answer
      may change from call to call. *)

From Stdlib Require Import ZArith Lia Ascii.
From stdpp Require Import gmap strings list fin_maps pretty.

Set Warnings "-register-all".

Local Open Scope Z_scope.

(* ===================================================================== *)
(** * JavaScript values and the string methods the server uses            *)
(* ===================================================================== *)

Module Js.

Inductive json : Type :=
| JNull
| JBool (b : bool)
| JNum (n : Z)
| JStr (s : string)
| JArr (items : list json)
| JObj (fields : list (string * json)).

(** An object literal: the list of its own properties. *)
Abbreviation object := (list (string * json)).

(** [!!v]: every object and array is truthy; [EmptyString], [0], [null], [false]
    and [undefined] are falsy. *)
Definition truthy (v : json) : bool :=
  match v with
  | JNull => false
  | JBool b => b
  | JNum n => negb (n =? 0)
  | JStr s => negb (String.eqb s EmptyString)
  | JArr _ | JObj _ => true
  end.

Definition truthy_opt (o : option json) : bool :=
  match o with Some v => truthy v | None => false end.

(** [o.k] on an object literal. *)
Fixpoint field (k : string) (o : object) : option json :=
  match o with
  | [] => None
  | (k', v) :: rest => if String.eqb k k' then Some v else field k rest
  end.

(** [v.k] for a key that is no built-in property of strings or arrays
    ([content], [type], [text], [message], [id], ...): only objects have
    it.  Reading a property of [null] throws and is handled by callers. *)
Definition prop (v : json) (k : string) : option json :=
  match v with
  | JObj o => field k o
  | _ => None
  end.

(** [ToString], as template literals and [new Error(v)] apply it. *)
Fixpoint to_string (v : json) : string :=
  match v with
  | JNull => "null"
  | JBool true => "true"
  | JBool false => "false"
  | JNum n => pretty n
  | JStr s => s
  | JArr items =>
      (fix join (l : list json) : string :=
         match l with
         | [] => EmptyString
         | x :: r =>
             let e := match x with JNull => EmptyString | _ => to_string x end in
             match r with
             | [] => e
             | _ :: _ => e +:+ "," +:+ join r
             end
         end) items
  | JObj _ => "[object Object]"
  end.

Definition to_string_opt (o : option json) : string :=
  match o with Some v => to_string v | None => "undefined" end.

(** [a === n] for a number [n]. *)
Definition strict_eq_num (a : option json) (n : Z) : bool :=
  match a with
  | Some (JNum m) => m =? n
  | _ => false
  end.

(** [a === s] for a string [s]. *)
Definition strict_eq_str (a : option json) (s : string) : bool :=
  match a with
  | Some (JStr t) => String.eqb t s
  | _ => false
  end.

(** ** Strings *)

Definition newline : ascii := "010"%char.

(** White space and line terminators among the 8-bit code units. *)
Definition is_space (c : ascii) : bool :=
  let n := nat_of_ascii c in
  ((9 <=? n)%nat && (n <=? 13)%nat) || (n =? 32)%nat || (n =? 160)%nat.

Fixpoint trim_start (s : string) : string :=
  match s with
  | EmptyString => EmptyString
  | String c r => if is_space c then trim_start r else s
  end.

Fixpoint trim_end (s : string) : string :=
  match s with
  | EmptyString => EmptyString
  | String c r =>
      match trim_end r with
      | EmptyString => if is_space c then EmptyString else String c EmptyString
      | r' => String c r'
      end
  end.

(** [s.trim()] *)
Definition trim (s : string) : string := trim_end (trim_start s).

(** [s.includes(needle)] *)
Fixpoint includes (needle s : string) : bool :=
  String.prefix needle s ||
  match s with
  | EmptyString => false
  | String _ r => includes needle r
  end.

Fixpoint drop_chars (n : nat) (s : string) : string :=
  match n, s with
  | O, _ => s
  | S _, EmptyString => EmptyString
  | S m, String _ r => drop_chars m r
  end.

(** [s.replace(pat, repl)] for a string pattern: the first occurrence. *)
Fixpoint replace_first (pat repl s : string) : string :=
  if String.prefix pat s then repl +:+ drop_chars (String.length pat) s
  else match s with
       | EmptyString => EmptyString
       | String c r => String c (replace_first pat repl r)
       end.

(** [s.split('\n')]: never empty; the last piece is what follows the last
    newline. *)
Fixpoint split_lines (s : string) : list string :=
  match s with
  | EmptyString => [EmptyString]
  | String c r =>
      if Ascii.eqb c newline then EmptyString :: split_lines r
      else match split_lines r with
           | [] => [String c EmptyString]
           | h :: t => String c h :: t
           end
  end.

(** [parts.join(sep)] *)
Fixpoint join (sep : string) (parts : list string) : string :=
  match parts with
  | [] => EmptyString
  | [p] => p
  | p :: rest => p +:+ sep +:+ join sep rest
  end.

(** An error object: its message and, for errors of the model SDK, the
    HTTP status. *)
Record error := Error { message : string; status : option Z }.

Definition TypeError (msg : string) : error := Error msg None.

(** The outcome of a call that may throw. *)
Inductive outcome (A : Type) : Type :=
| Ok (a : A)
| Throw (e : error).
Arguments Ok {A} a.
Arguments Throw {A} e.

End Js.

Import Js.

(* ===================================================================== *)
(** * Data model                                                          *)
(* ===================================================================== *)

(** A block of a model reply ([response.content[i]]), told apart by its
    [type]: ['text'], ['tool_use'], or anything else. *)
Inductive ContentBlock : Type :=
| TextBlock (text : string)
| ToolUseBlock (id : string) (name : string) (input : object)
| OtherBlock (type : string).

(** [{ type: 'tool_result', tool_use_id, content, is_error }] *)
Record ToolResult := {
  tool_use_id : string;
  tr_content : json;
  is_error : bool
}.

Inductive Role := user | assistant.

Inductive MessageContent : Type :=
| PromptText (text : string)
| ReplyBlocks (blocks : list ContentBlock)
| ToolResults (results : list ToolResult).

Record Message := { role : Role; content : MessageContent }.

(** What [extractLocatorInfo] returns. *)
Record LocatorInfo := {
  tool : string;
  timestamp : Z;
  locator : option json;
  action : option string;
  element : option string;
  success : bool
}.

(** [session.context] *)
Record Context := {
  currentUrl : option json;
  lastScreenshot : option Z;
  browserState : string;
  completedActions : list json
}.

(** [contextUpdates]: an object that starts empty and receives some of the
    keys of [Context]. *)
Record ContextUpdates := {
  cu_currentUrl : option json;
  cu_browserState : option string;
  cu_lastScreenshot : option Z
}.

Definition no_updates : ContextUpdates :=
  {| cu_currentUrl := None; cu_browserState := None; cu_lastScreenshot := None |}.

(** [{ ...ctx, ...upd }] *)
Definition spread_context (ctx : Context) (upd : ContextUpdates) : Context :=
  {| currentUrl := match cu_currentUrl upd with Some u => Some u | None => currentUrl ctx end;
     lastScreenshot := match cu_lastScreenshot upd with Some t => Some t | None => lastScreenshot ctx end;
     browserState := match cu_browserState upd with Some b => b | None => browserState ctx end;
     completedActions := completedActions ctx |}.

(** A session object. *)
Record Session := {
  session_id : string;
  createdAt : Z;
  lastActivity : Z;
  messages : list Message;
  context : Context;
  locatorHistory : list LocatorInfo;
  totalSteps : nat
}.

(** The [updates] argument of [updateSession]: the keys it carries. *)
Record Updates := {
  u_locatorHistory : option (list LocatorInfo);
  u_totalSteps : option nat;
  u_context : option Context
}.

(** [Object.assign(session, updates)] *)
Definition assign (s : Session) (u : Updates) : Session :=
  {| session_id := session_id s;
     createdAt := createdAt s;
     lastActivity := lastActivity s;
     messages := messages s;
     context := default (context s) (u_context u);
     locatorHistory := default (locatorHistory s) (u_locatorHistory u);
     totalSteps := default (totalSteps s) (u_totalSteps u) |}.

Definition set_lastActivity (t : Z) (s : Session) : Session :=
  {| session_id := session_id s; createdAt := createdAt s; lastActivity := t;
     messages := messages s; context := context s;
     locatorHistory := locatorHistory s; totalSteps := totalSteps s |}.

Definition set_messages (m : list Message) (s : Session) : Session :=
  {| session_id := session_id s; createdAt := createdAt s;
     lastActivity := lastActivity s; messages := m; context := context s;
     locatorHistory := locatorHistory s; totalSteps := totalSteps s |}.

(** An entry of [this.availableTools]. *)
Record Tool := {
  tool_name : string;
  description : string;
  inputSchema : json;
  server : string;
  originalName : string
}.

(** A request written to a tool server by [callTool]. *)
Record ToolCall := {
  call_server : string;
  call_id : Z;
  call_name : string;
  call_arguments : object
}.

(** What [processPromptWithMCP] returns. *)
Record PromptResult := {
  response : string;
  locators : list LocatorInfo;
  r_totalSteps : nat;
  r_context : ContextUpdates
}.

(* ===================================================================== *)
(** * The environment of the server                                       *)
(* ===================================================================== *)

(** Whatever the server receives from outside.  The answers that may change
    from call to call are indexed by the number of earlier calls. *)
Class Env := {
  (** the clock at its n-th reading ([new Date()], [Date.now()]) *)
  clock : nat -> Z;
  (** the n-th identifier drawn by [uuidv4()] *)
  uuidv4 : nat -> string;
  (** the n-th call of [anthropic.messages.create]: the [content] of the
      reply, or the error the SDK throws *)
  model_reply : nat -> outcome (list ContentBlock);
  (** the n-th [sendMCPRequest] of [callTool]: the record that resolves it,
      or nothing within 45 seconds *)
  rpc_reply : nat -> option object;
  JSON_parse : string -> option json;
  JSON_stringify : json -> string;
  (** group 1 of [text.match(/Found element[:\s]+(.+?)(?:\n|$)/i)] *)
  found_element : string -> option string;
  (** [this.availableTools], as [discoverAllTools] left it *)
  availableTools : list Tool;
  (** whether [this.mcpServers[name]] is a process *)
  mcpServers : string -> bool
}.

(** The mutable state: the session objects, the [sessions] map of the
    [SessionManager] from identifiers to objects, the sweeps that
    [setTimeout] holds, and how far each outside source has been read. *)
Record World := {
  heap : nat -> Session;
  next_ref : nat;
  sessions : gmap string nat;
  timers : list string;
  clock_reads : nat;
  uuid_calls : nat;
  model_calls : nat;
  rpc_calls : nat;
  sleeps : list Z;
  tool_calls : list ToolCall
}.

(** ** Computations that change the world and may throw *)

Definition M (A : Type) : Type := World -> outcome A * World.

Definition ret {A} (a : A) : M A := fun w => (Ok a, w).

Definition throw {A} (e : error) : M A := fun w => (Throw e, w).

Definition bind {A B} (m : M A) (k : A -> M B) : M B :=
  fun w => match m w with
           | (Ok a, w') => k a w'
           | (Throw e, w') => (Throw e, w')
           end.

(** [try { m } catch (error) { h error }] *)
Definition try_catch {A} (m : M A) (h : error -> M A) : M A :=
  fun w => match m w with
           | (Ok a, w') => (Ok a, w')
           | (Throw e, w') => h e w'
           end.

Notation "x <- m ;; k" := (bind m (fun x => k))
  (at level 100, m at next level, right associativity).
Notation "m ;;; k" := (bind m (fun _ => k))
  (at level 100, right associativity).

(** ** Field updates of the world *)

Definition with_heap (h : nat -> Session) (w : World) : World :=
  {| heap := h; next_ref := next_ref w; sessions := sessions w;
     timers := timers w; clock_reads := clock_reads w;
     uuid_calls := uuid_calls w; model_calls := model_calls w;
     rpc_calls := rpc_calls w; sleeps := sleeps w; tool_calls := tool_calls w |}.

Definition with_next_ref (n : nat) (w : World) : World :=
  {| heap := heap w; next_ref := n; sessions := sessions w;
     timers := timers w; clock_reads := clock_reads w;
     uuid_calls := uuid_calls w; model_calls := model_calls w;
     rpc_calls := rpc_calls w; sleeps := sleeps w; tool_calls := tool_calls w |}.

Definition with_sessions (m : gmap string nat) (w : World) : World :=
  {| heap := heap w; next_ref := next_ref w; sessions := m;
     timers := timers w; clock_reads := clock_reads w;
     uuid_calls := uuid_calls w; model_calls := model_calls w;
     rpc_calls := rpc_calls w; sleeps := sleeps w; tool_calls := tool_calls w |}.

Definition with_timers (t : list string) (w : World) : World :=
  {| heap := heap w; next_ref := next_ref w; sessions := sessions w;
     timers := t; clock_reads := clock_reads w;
     uuid_calls := uuid_calls w; model_calls := model_calls w;
     rpc_calls := rpc_calls w; sleeps := sleeps w; tool_calls := tool_calls w |}.

Definition with_clock_reads (n : nat) (w : World) : World :=
  {| heap := heap w; next_ref := next_ref w; sessions := sessions w;
     timers := timers w; clock_reads := n;
     uuid_calls := uuid_calls w; model_calls := model_calls w;
     rpc_calls := rpc_calls w; sleeps := sleeps w; tool_calls := tool_calls w |}.

Definition with_uuid_calls (n : nat) (w : World) : World :=
  {| heap := heap w; next_ref := next_ref w; sessions := sessions w;
     timers := timers w; clock_reads := clock_reads w;
     uuid_calls := n; model_calls := model_calls w;
     rpc_calls := rpc_calls w; sleeps := sleeps w; tool_calls := tool_calls w |}.

Definition with_model_calls (n : nat) (w : World) : World :=
  {| heap := heap w; next_ref := next_ref w; sessions := sessions w;
     timers := timers w; clock_reads := clock_reads w;
     uuid_calls := uuid_calls w; model_calls := n;
     rpc_calls := rpc_calls w; sleeps := sleeps w; tool_calls := tool_calls w |}.

Definition with_rpc (n : nat) (c : list ToolCall) (w : World) : World :=
  {| heap := heap w; next_ref := next_ref w; sessions := sessions w;
     timers := timers w; clock_reads := clock_reads w;
     uuid_calls := uuid_calls w; model_calls := model_calls w;
     rpc_calls := n; sleeps := sleeps w; tool_calls := c |}.

Definition with_sleeps (s : list Z) (w : World) : World :=
  {| heap := heap w; next_ref := next_ref w; sessions := sessions w;
     timers := timers w; clock_reads := clock_reads w;
     uuid_calls := uuid_calls w; model_calls := model_calls w;
     rpc_calls := rpc_calls w; sleeps := s; tool_calls := tool_calls w |}.

(** A session object nobody has created; it fills the unused references. *)
Definition blank_session : Session :=
  {| session_id := EmptyString; createdAt := 0; lastActivity := 0;
     messages := [];
     context := {| currentUrl := None; lastScreenshot := None;
                   browserState := EmptyString; completedActions := [] |};
     locatorHistory := []; totalSteps := 0 |}.

(** The server right after its constructor. *)
Definition initial_world : World :=
  {| heap := fun _ => blank_session; next_ref := 0; sessions := ∅;
     timers := []; clock_reads := 0; uuid_calls := 0; model_calls := 0;
     rpc_calls := 0; sleeps := []; tool_calls := [] |}.

Section Primitives.
Context {env : Env}.

(** [Date.now()], [new Date()] *)
Definition now : M Z :=
  fun w => (Ok (clock (clock_reads w)), with_clock_reads (S (clock_reads w)) w).

(** [uuidv4()] *)
Definition uuid : M string :=
  fun w => (Ok (uuidv4 (uuid_calls w)), with_uuid_calls (S (uuid_calls w)) w).

(** [await new Promise(resolve => setTimeout(resolve, ms))] *)
Definition sleep (ms : Z) : M unit :=
  fun w => (Ok tt, with_sleeps (sleeps w ++ [ms]) w).

(** A new object. *)
Definition alloc (s : Session) : M nat :=
  fun w => (Ok (next_ref w),
            with_next_ref (S (next_ref w))
              (with_heap (fun r => if Nat.eqb r (next_ref w) then s else heap w r) w)).

(** Reading the object behind a reference. *)
Definition deref (r : nat) : M Session := fun w => (Ok (heap w r), w).

(** Assigning to fields of the object behind a reference. *)
Definition modify (r : nat) (f : Session -> Session) : M unit :=
  fun w => (Ok tt,
            with_heap (fun r' => if Nat.eqb r' r then f (heap w r) else heap w r') w).

(** ** SessionManager *)

Definition sessionTimeout : Z := 30 * 60 * 1000.

(** [this.sessions.get(sessionId)] *)
Definition sessions_get (sessionId : string) : M (option nat) :=
  fun w => (Ok (sessions w !! sessionId), w).

(** [this.sessions.set(id, session)] *)
Definition sessions_set (sessionId : string) (r : nat) : M unit :=
  fun w => (Ok tt, with_sessions (<[sessionId := r]> (sessions w)) w).

(** [this.sessions.delete(sessionId)]: whether the key was there. *)
Definition deleteSession (sessionId : string) : M bool :=
  fun w => (Ok (bool_decide (is_Some (sessions w !! sessionId))),
            with_sessions (delete sessionId (sessions w)) w).

(** [scheduleCleanup]: hands one sweep of [sessionId] to [setTimeout], due
    after [sessionTimeout]. *)
Definition scheduleCleanup (sessionId : string) : M unit :=
  fun w => (Ok tt, with_timers (timers w ++ [sessionId]) w).

(** The sweep itself, run when its timer fires. *)
Definition sweep (sessionId : string) : M unit :=
  session <- sessions_get sessionId ;;
  match session with
  | Some r =>
      t <- now ;;
      s <- deref r ;;
      if decide (t - lastActivity s > sessionTimeout)
      then (_ <- deleteSession sessionId ;; ret tt)
      else ret tt
  | None => ret tt
  end.

(** The timer with index [n] among those pending fires. *)
Definition fire_timer (n : nat) : M unit :=
  fun w => match timers w !! n with
           | Some sessionId =>
               sweep sessionId (with_timers (take n (timers w) ++ drop (S n) (timers w)) w)
           | None => (Ok tt, w)
           end.

Definition createSession (sessionId : option string) : M nat :=
  id <- match sessionId with
        | Some s => if String.eqb s EmptyString then uuid else ret s
        | None => uuid
        end ;;
  created <- now ;;
  active <- now ;;
  session <- alloc {| session_id := id; createdAt := created;
                      lastActivity := active; messages := [];
                      context := {| currentUrl := None; lastScreenshot := None;
                                    browserState := "closed";
                                    completedActions := [] |};
                      locatorHistory := []; totalSteps := 0 |} ;;
  sessions_set id session ;;;
  scheduleCleanup id ;;;
  ret session.

Definition getSession (sessionId : string) : M (option nat) :=
  session <- sessions_get sessionId ;;
  match session with
  | Some r =>
      t <- now ;;
      modify r (set_lastActivity t) ;;;
      ret (Some r)
  | None => ret None
  end.

Definition updateSession (sessionId : string) (updates : Updates) : M (option nat) :=
  session <- sessions_get sessionId ;;
  match session with
  | Some r =>
      modify r (fun s => assign s updates) ;;;
      t <- now ;;
      modify r (set_lastActivity t) ;;;
      ret (Some r)
  | None => ret None
  end.

(** An element of what [getAllSessions] returns. *)
Record Summary := {
  sum_id : string;
  sum_createdAt : Z;
  sum_lastActivity : Z;
  messageCount : nat;
  sum_totalSteps : nat;
  sum_browserState : string;
  sum_currentUrl : option json
}.

Definition summary (s : Session) : Summary :=
  {| sum_id := session_id s; sum_createdAt := createdAt s;
     sum_lastActivity := lastActivity s;
     messageCount := length (messages s);
     sum_totalSteps := totalSteps s;
     sum_browserState := browserState (context s);
     sum_currentUrl := currentUrl (context s) |}.

(** [getAllSessions]: one summary per entry of the map.  (The order in
    which a JavaScript [Map] lists its entries is not kept.) *)
Definition getAllSessions : M (list Summary) :=
  fun w => (Ok (map (fun kr => summary (heap w kr.2)) (map_to_list (sessions w))), w).

End Primitives.

(* ===================================================================== *)
(** * APIServer: locator extraction and tool calls                        *)
(* ===================================================================== *)

Section APIServer.
Context {env : Env}.

Definition dquote : string := String "034"%char EmptyString.

(** [toolResult.content.find(c => c.type === 'text')]: reading [type] of a
    [null] element throws. *)
Fixpoint find_text (items : list json) : outcome (option json) :=
  match items with
  | [] => Ok None
  | JNull :: _ => Throw (TypeError "Cannot read properties of null (reading 'type')")
  | c :: rest =>
      if strict_eq_str (prop c "type") "text" then Ok (Some c) else find_text rest
  end.

(** [toolResult.content.find(c => c.type === 'text')?.text || ''] for a
    truthy [content]: only arrays have [find]. *)
Definition text_content (content : json) : outcome json :=
  match content with
  | JArr items =>
      match find_text items with
      | Ok (Some c) =>
          Ok (match prop c "text" with
              | Some t => if truthy t then t else JStr EmptyString
              | None => JStr EmptyString
              end)
      | Ok None => Ok (JStr EmptyString)
      | Throw e => Throw e
      end
  | _ => Throw (TypeError "toolResult.content.find is not a function")
  end.

(** The target of the call, by the priority selector, locator, text,
    role and name. *)
Definition derive_locator (toolArgs : object) : option json :=
  if truthy_opt (field "selector" toolArgs) then field "selector" toolArgs
  else if truthy_opt (field "locator" toolArgs) then field "locator" toolArgs
  else if truthy_opt (field "text" toolArgs) then
    Some (JStr ("text=" +:+ dquote +:+ to_string_opt (field "text" toolArgs) +:+ dquote))
  else if truthy_opt (field "role" toolArgs) && truthy_opt (field "name" toolArgs) then
    Some (JStr ("role=" +:+ to_string_opt (field "role" toolArgs) +:+ "[name=" +:+ dquote
                +:+ to_string_opt (field "name" toolArgs) +:+ dquote +:+ "]"))
  else None.

Definition extractLocatorInfo (toolName : string) (toolArgs : object)
    (toolResult : option json) : M LocatorInfo :=
  t <- now ;;
  if includes "playwright_" toolName then
    let action := replace_first "playwright_" EmptyString toolName in
    let locator := derive_locator toolArgs in
    match toolResult with
    | Some res =>
        if truthy res && truthy_opt (prop res "content") then
          match text_content (default JNull (prop res "content")) with
          | Ok (JStr textContent) =>
              ret {| tool := toolName; timestamp := t; locator := locator;
                     action := Some action;
                     element := trim <$> found_element textContent;
                     success := negb (includes "error" textContent
                                      || includes "failed" textContent
                                      || includes "not found" textContent) |}
          | Ok _ => throw (TypeError "textContent.match is not a function")
          | Throw e => throw e
          end
        else
          ret {| tool := toolName; timestamp := t; locator := locator;
                 action := Some action; element := None; success := true |}
    | None =>
        ret {| tool := toolName; timestamp := t; locator := locator;
               action := Some action; element := None; success := true |}
    end
  else
    ret {| tool := toolName; timestamp := t; locator := None; action := None;
           element := None; success := true |}.

(** [sendMCPRequest], as [callTool] sees it: the request is written to the
    server and either the record carrying its id comes back or the
    45-second timer rejects.  (How the listeners tell the records apart is
    the subject of [Bridge] below.) *)
Definition sendMCPRequest (call : ToolCall) : M object :=
  fun w =>
    let w' := with_rpc (S (rpc_calls w)) (tool_calls w ++ [call]) w in
    match rpc_reply (rpc_calls w) with
    | Some r => (Ok r, w')
    | None => (Throw (Error "Request timeout after 45 seconds" None), w')
    end.

Definition default_result : json :=
  JObj [("content",
         JArr [JObj [("type", JStr "text"); ("text", JStr "Tool executed successfully")]])].

(** [callTool]: its [catch] logs and throws the same error again. *)
Definition callTool (fullName : string) (args : object) : M json :=
  match List.find (fun t => String.eqb (tool_name t) fullName) availableTools with
  | None => throw (Error ("Unknown tool: " +:+ fullName) None)
  | Some tool =>
      if negb (mcpServers (server tool)) then
        throw (Error ("Unknown server: " +:+ server tool) None)
      else
        id <- now ;;
        response <- sendMCPRequest {| call_server := server tool; call_id := id;
                                      call_name := originalName tool;
                                      call_arguments := args |} ;;
        if truthy_opt (field "result" response) then
          ret (default JNull (field "result" response))
        else if truthy_opt (field "error" response) then
          let message := prop (default JNull (field "error" response)) "message" in
          throw (Error (if truthy_opt message then to_string_opt message
                        else "Tool execution failed") None)
        else ret default_result
  end.

(* ===================================================================== *)
(** * APIServer: the conversation loop                                    *)
(* ===================================================================== *)

Definition maxRetries : nat := 3.
Definition maxIterations : nat := 20.

(** [anthropic.messages.create(...)].  The system prompt, the tool list and
    the messages travel to the service; its answer is the next entry of
    [model_reply]. *)
Definition messages_create (messages : list Message) : M (list ContentBlock) :=
  fun w => (model_reply (model_calls w), with_model_calls (S (model_calls w)) w).

(** [content.filter(c => c.type === 'text').map(c => c.text)] *)
Fixpoint texts (content : list ContentBlock) : list string :=
  match content with
  | [] => []
  | TextBlock t :: rest => t :: texts rest
  | _ :: rest => texts rest
  end.

Definition is_tool_use (c : ContentBlock) : bool :=
  match c with ToolUseBlock _ _ _ => true | _ => false end.

(** [content.filter(c => c.type === 'tool_use')] *)
Definition tool_uses (content : list ContentBlock) : list ContentBlock :=
  List.filter is_tool_use content.

Definition is_empty (s : string) : bool := String.eqb s EmptyString.

(** [finalResult += (finalResult ? '\n\n' : '') + responseText], done only
    for a non-empty [responseText]. *)
Definition accumulate (finalResult responseText : string) : string :=
  if is_empty responseText then finalResult
  else finalResult
       +:+ (if is_empty finalResult then EmptyString
            else String newline (String newline EmptyString))
       +:+ responseText.

(** The variables the [for] loop over the tool calls works on. *)
Record ToolState := {
  toolResults : list ToolResult;
  ts_locatorHistory : list LocatorInfo;
  ts_contextUpdates : ContextUpdates
}.

Definition text_item (text : string) : json :=
  JObj [("type", JStr "text"); ("text", JStr text)].

Definition push_locator (info : LocatorInfo) (history : list LocatorInfo) : list LocatorInfo :=
  if truthy_opt (locator info) then history ++ [info] else history.

(** The [try] block of one tool call.  [callTool] and [extractLocatorInfo],
    the two steps that can throw, come before the first change to the
    variables of the loop, so that the [catch] block starts from them as
    they were. *)
Definition tool_try (id name : string) (input : object) (st : ToolState) : M ToolState :=
  result <- callTool name input ;;
  locatorInfo <- extractLocatorInfo name input (Some result) ;;
  let history := push_locator locatorInfo (ts_locatorHistory st) in
  let updates :=
    if String.eqb name "playwright_playwright_navigate" && truthy_opt (field "url" input)
    then {| cu_currentUrl := field "url" input; cu_browserState := Some "open";
            cu_lastScreenshot := cu_lastScreenshot (ts_contextUpdates st) |}
    else ts_contextUpdates st in
  updates <- (if String.eqb name "playwright_playwright_screenshot"
              then t <- now ;;
                   ret {| cu_currentUrl := cu_currentUrl updates;
                          cu_browserState := cu_browserState updates;
                          cu_lastScreenshot := Some t |}
              else ret updates) ;;
  let toolContent :=
    if truthy result && truthy_opt (prop result "content")
    then default JNull (prop result "content")
    else if truthy result then JArr [text_item (JSON_stringify result)]
    else JArr [text_item "Tool executed successfully"] in
  ret {| toolResults := toolResults st
                        ++ [{| tool_use_id := id; tr_content := toolContent;
                               is_error := false |}];
         ts_locatorHistory := history;
         ts_contextUpdates := updates |}.

Definition failed (info : LocatorInfo) : LocatorInfo :=
  {| tool := tool info; timestamp := timestamp info; locator := locator info;
     action := action info; element := element info; success := false |}.

(** The [catch] block of one tool call. *)
Definition tool_catch (id name : string) (input : object) (st : ToolState)
    (error : error) : M ToolState :=
  locatorInfo <- extractLocatorInfo name input None ;;
  let locatorInfo := failed locatorInfo in
  ret {| toolResults := toolResults st
                        ++ [{| tool_use_id := id;
                               tr_content :=
                                 JArr [text_item ("Error: " +:+ message error
                                   +:+ ". Please try alternative approaches or selectors.")];
                               is_error := true |}];
         ts_locatorHistory := push_locator locatorInfo (ts_locatorHistory st);
         ts_contextUpdates := ts_contextUpdates st |}.

(** [for (const toolUse of toolUses) { try { ... } catch (error) { ... } }] *)
Fixpoint run_tools (toolUses : list ContentBlock) (st : ToolState) : M ToolState :=
  match toolUses with
  | [] => ret st
  | ToolUseBlock id name input :: rest =>
      st' <- try_catch (tool_try id name input st) (tool_catch id name input st) ;;
      run_tools rest st'
  | _ :: rest => run_tools rest st
  end.

(** The variables of the [while] loop of one attempt. *)
Record Loop := {
  l_messages : list Message;
  conversationComplete : bool;
  iteration : nat;
  finalResult : string;
  l_locatorHistory : list LocatorInfo;
  contextUpdates : ContextUpdates
}.

(** One round of the [while] loop. *)
Definition round (l : Loop) : M Loop :=
  content <- messages_create (l_messages l) ;;
  let responseText := join (String newline EmptyString) (texts content) in
  let finalResult := accumulate (finalResult l) responseText in
  let messages := l_messages l ++ [{| role := assistant; content := ReplyBlocks content |}] in
  let toolUses := tool_uses content in
  match toolUses with
  | _ :: _ =>
      st <- run_tools toolUses {| toolResults := [];
                                  ts_locatorHistory := l_locatorHistory l;
                                  ts_contextUpdates := contextUpdates l |} ;;
      ret {| l_messages := messages ++ [{| role := user;
                                           content := ToolResults (toolResults st) |}];
             conversationComplete := false;
             iteration := S (iteration l);
             finalResult := finalResult;
             l_locatorHistory := ts_locatorHistory st;
             contextUpdates := ts_contextUpdates st |}
  | [] =>
      ret {| l_messages := messages;
             conversationComplete := true;
             iteration := S (iteration l);
             finalResult := finalResult;
             l_locatorHistory := l_locatorHistory l;
             contextUpdates := contextUpdates l |}
  end.

(** [while (!conversationComplete && iteration < maxIterations)], with
    [remaining] standing for [maxIterations - iteration]. *)
Fixpoint conversation (remaining : nat) (l : Loop) : M Loop :=
  match remaining with
  | O => ret l
  | S k => if conversationComplete l then ret l
           else l' <- round l ;; conversation k l'
  end.

(** The body of the [try] of [processPromptWithMCP]: one attempt at the
    whole conversation. *)
Definition attempt (message : string) (session : nat) : M PromptResult :=
  s <- deref session ;;
  let messages := messages s ++ [{| role := user; content := PromptText message |}] in
  l <- conversation maxIterations
         {| l_messages := messages; conversationComplete := false; iteration := 0;
            finalResult := EmptyString; l_locatorHistory := [];
            contextUpdates := no_updates |} ;;
  modify session (set_messages (l_messages l)) ;;;
  ret {| response := if is_empty (finalResult l) then "Task completed successfully"
                     else finalResult l;
         locators := l_locatorHistory l;
         r_totalSteps := iteration l;
         r_context := contextUpdates l |}.

(** [while (retryCount < maxRetries) { try { ... } catch (error) { ... } }],
    with [remaining] standing for [maxRetries - retryCount].  When the loop
    ends the function ends without a [return]: its value is [undefined],
    here [None]. *)
Fixpoint retrying (remaining : nat) (retryCount : nat) (message : string)
    (session : nat) : M (option PromptResult) :=
  match remaining with
  | O => ret None
  | S k =>
      try_catch (result <- attempt message session ;; ret (Some result))
        (fun error =>
           let retryCount := S retryCount in
           if decide (status error = Some 529) then
             sleep (Z.of_nat retryCount * 2000) ;;;
             retrying k retryCount message session
           else if decide (maxRetries <= retryCount)%nat then throw error
           else sleep 1000 ;;; retrying k retryCount message session)
  end.

Definition processPromptWithMCP (message : string) (session : nat) : M (option PromptResult) :=
  retrying maxRetries 0 message session.

End APIServer.

(* ===================================================================== *)
(** * APIServer: the routes                                               *)
(* ===================================================================== *)

(** The body of [POST /api/prompt]; a key that is absent is [None]. *)
Record PromptBody := {
  prompt : option json;
  sessionId : option json;
  continueSession : option json
}.

Inductive Request : Type :=
| GetHealth
| PostSessionCreate
| GetSession (sessionId : string)
| GetSessions
| DeleteSession (sessionId : string)
| PostPrompt (body : PromptBody)
| GetTools
| GetHistory (sessionId : string).

(** [GET /api/session/:sessionId] *)
Record SessionInfo := {
  si_sessionId : string;
  si_createdAt : Z;
  si_lastActivity : Z;
  si_messageCount : nat;
  si_totalSteps : nat;
  si_context : Context;
  recentLocators : list LocatorInfo
}.

(** [POST /api/prompt], when it succeeds. *)
Record PromptReply := {
  result : PromptResult;
  pr_sessionId : string;
  info_totalSteps : nat;
  info_totalLocators : nat;
  info_sessionAge : Z
}.

(** What a route sends: [res.status(code).json({ error })] or the JSON of a
    success. *)
Inductive Reply : Type :=
| Failure (code : Z) (error : string)
| Health (timestamp : Z)
| Created (sessionId : string)
| Info (info : SessionInfo)
| Sessions (all : list Summary)
| Deleted
| Prompted (reply : PromptReply)
| Tools (tools : list Tool)
| History (sessionId : string) (messages : list Message)
    (locatorHistory : list LocatorInfo) (context : Context).

Section Routes.
Context {env : Env}.

(** [l.slice(-n)] *)
Definition slice_last {A} (n : nat) (l : list A) : list A :=
  drop (length l - n) l.

Definition get_session_info (sessionId : string) : M Reply :=
  session <- getSession sessionId ;;
  match session with
  | None => ret (Failure 404 "Session not found")
  | Some r =>
      s <- deref r ;;
      ret (Info {| si_sessionId := session_id s; si_createdAt := createdAt s;
                   si_lastActivity := lastActivity s;
                   si_messageCount := length (messages s);
                   si_totalSteps := totalSteps s; si_context := context s;
                   recentLocators := slice_last 5 (locatorHistory s) |})
  end.

Definition get_history (sessionId : string) : M Reply :=
  session <- getSession sessionId ;;
  match session with
  | None => ret (Failure 404 "Session not found")
  | Some r =>
      s <- deref r ;;
      ret (History (session_id s) (messages s) (locatorHistory s) (context s))
  end.

Definition delete_session (sessionId : string) : M Reply :=
  deleted <- deleteSession sessionId ;;
  if deleted : bool then ret Deleted else ret (Failure 404 "Session not found").

(** The part of [POST /api/prompt] that runs once the session is known. *)
Definition prompt_in_session (message : string) (session : nat) : M Reply :=
  result <- processPromptWithMCP message session ;;
  match result with
  | None => throw (TypeError "Cannot read properties of undefined (reading 'locators')")
  | Some result =>
      s <- deref session ;;
      _ <- updateSession (session_id s)
             {| u_locatorHistory := Some (locatorHistory s ++ locators result);
                u_totalSteps := Some (totalSteps s + r_totalSteps result)%nat;
                u_context := Some (spread_context (context s) (r_context result)) |} ;;
      s <- deref session ;;
      t <- now ;;
      ret (Prompted {| result := result; pr_sessionId := session_id s;
                       info_totalSteps := (totalSteps s + r_totalSteps result)%nat;
                       info_totalLocators :=
                         (length (locatorHistory s) + length (locators result))%nat;
                       info_sessionAge := t - createdAt s |})
  end.

(** [sessionId && continueSession] chooses between continuing a session
    and starting one; a [sessionId] that is no string is a key the map
    does not hold. *)
Definition resolve_session (body : PromptBody) : M (option nat) :=
  if truthy_opt (sessionId body) && truthy_opt (continueSession body) then
    match sessionId body with
    | Some (JStr id) => getSession id
    | _ => ret None
    end
  else
    session <- createSession None ;; ret (Some session).

(** The statements of [POST /api/prompt] inside its [try]. *)
Definition prompt_try (body : PromptBody) : M Reply :=
  match prompt body with
  | Some (JStr text) =>
      if is_empty text || is_empty (trim text) then
        ret (Failure 400 "Prompt is required")
      else
        session <- resolve_session body ;;
        match session with
        | None => ret (Failure 404 "Session not found")
        | Some session => prompt_in_session text session
        end
  | Some v =>
      if truthy v then throw (TypeError "prompt.trim is not a function")
      else ret (Failure 400 "Prompt is required")
  | None => ret (Failure 400 "Prompt is required")
  end.

Definition post_prompt (body : PromptBody) : M Reply :=
  try_catch (prompt_try body)
    (fun error => ret (Failure 500 "Internal server error")).

Definition handle (request : Request) : M Reply :=
  match request with
  | GetHealth => t <- now ;; ret (Health t)
  | PostSessionCreate =>
      session <- createSession None ;;
      s <- deref session ;;
      ret (Created (session_id s))
  | GetSession sessionId => get_session_info sessionId
  | GetSessions => all <- getAllSessions ;; ret (Sessions all)
  | DeleteSession sessionId => delete_session sessionId
  | PostPrompt body => post_prompt body
  | GetTools => ret (Tools availableTools)
  | GetHistory sessionId => get_history sessionId
  end.

End Routes.

(** What happens to the server: a request arrives and is answered, or a
    pending timer fires.  A request is followed from its arrival to its
    reply before the next event is taken: two requests in flight at once,
    interleaved at their [await]s, are not part of these events (the
    [Bridge] below follows concurrent requests on one tool server). *)
Inductive Event : Type :=
| Http (request : Request)
| TimerFires (n : nat).

Definition step `{Env} (e : Event) (w : World) : World :=
  match e with
  | Http request => (handle request w).2
  | TimerFires n => (fire_timer n w).2
  end.

Definition run `{Env} (events : list Event) (w : World) : World :=
  foldl (fun w e => step e w) w events.

(** The worlds the server can be in. *)
Inductive reachable `{Env} : World -> Prop :=
| reachable_initial : reachable initial_world
| reachable_step e w : reachable w -> reachable (step e w).

(** The session stored under an identifier, if any. *)
Definition stored (w : World) (sessionId : string) : option Session :=
  heap w <$> sessions w !! sessionId.

(* ===================================================================== *)
(** * Bridge: how [sendMCPRequest] tells the records of a server apart    *)
(* ===================================================================== *)

Module Bridge.

(** What [sendMCPRequest] leaves registered on [server.stdout]: the
    [dataHandler] closure with the id of its request and its own
    [responseBuffer]; [promise] names the promise it settles. *)
Record Listener := {
  promise : nat;
  request_id : Z;
  responseBuffer : string
}.

Inductive Settled : Type :=
| Resolved (response : json)
| Rejected (e : error).

(** One tool server: what was written to its stdin, the listeners on its
    stdout, and the promises settled so far (a promise that is absent is
    pending). *)
Record Server := {
  stdin : list string;
  listeners : list Listener;
  promises : gmap nat Settled;
  next_promise : nat
}.

Definition spawned : Server :=
  {| stdin := []; listeners := []; promises := ∅; next_promise := 0 |}.

Section Bridge.
Context {env : Env}.

(** The [for] loop of [dataHandler] over [lines]: the first record whose
    [id] is that of the request, or else the new [responseBuffer].  A
    record that does not parse, or whose [id] cannot be read, is passed
    over. *)
Fixpoint scan (id : Z) (lines : list string) : json + string :=
  match lines with
  | [] => inr EmptyString
  | [last] => inr last
  | line :: rest =>
      let line := trim line in
      if is_empty line then scan id rest
      else match JSON_parse line with
           | Some response =>
               if strict_eq_num (prop response "id") id then inl response
               else scan id rest
           | None => scan id rest
           end
  end.

(** [dataHandler(data)] *)
Definition dataHandler (l : Listener) (data : string) : json + Listener :=
  match scan (request_id l) (split_lines (responseBuffer l +:+ data)) with
  | inl response => inl response
  | inr buffer => inr {| promise := promise l; request_id := request_id l;
                         responseBuffer := buffer |}
  end.

(** Settling a promise: only the first settlement counts. *)
Definition settle (p : nat) (s : Settled) (promises : gmap nat Settled) : gmap nat Settled :=
  match promises !! p with
  | Some _ => promises
  | None => <[p := s]> promises
  end.

(** [server.stdout] emits ['data']: every listener registered at that
    moment is called, in the order of registration; one that finds its
    record removes itself and resolves its promise. *)
Fixpoint emit (data : string) (ls : list Listener) (promises : gmap nat Settled)
    : list Listener * gmap nat Settled :=
  match ls with
  | [] => ([], promises)
  | l :: rest =>
      match dataHandler l data with
      | inl response => emit data rest (settle (promise l) (Resolved response) promises)
      | inr l' =>
          let '(rest', promises') := emit data rest promises in
          (l' :: rest', promises')
      end
  end.

Definition on_data (data : string) (s : Server) : Server :=
  let '(ls, ps) := emit data (listeners s) (promises s) in
  {| stdin := stdin s; listeners := ls; promises := ps;
     next_promise := next_promise s |}.

(** [sendMCPRequest(server, request)] up to its return: the request goes to
    stdin and the listener is registered with an empty buffer.  The result
    is the promise. *)
Definition sendMCPRequest (id : Z) (request : json) (s : Server) : nat * Server :=
  (next_promise s,
   {| stdin := stdin s ++ [JSON_stringify request +:+ String newline EmptyString];
      listeners := listeners s ++ [{| promise := next_promise s; request_id := id;
                                      responseBuffer := EmptyString |}];
      promises := promises s;
      next_promise := S (next_promise s) |}).

(** The 45-second timer of a promise that is still pending fires: the
    promise is rejected; the listener stays. *)
Definition on_timeout (p : nat) (s : Server) : Server :=
  {| stdin := stdin s; listeners := listeners s;
     promises := settle p (Rejected (Error "Request timeout after 45 seconds" None)) (promises s);
     next_promise := next_promise s |}.

(** The request of [callTool], issued when the clock reads [t]. *)
Definition tool_call_request (t : Z) (name : string) (args : object) : json :=
  JObj [("jsonrpc", JStr "2.0"); ("id", JNum t); ("method", JStr "tools/call");
        ("params", JObj [("name", JStr name); ("arguments", JObj args)])].

(** [callTool] up to its [await], on the bridge of its server. *)
Definition callTool_send (t : Z) (name : string) (args : object) (s : Server) : nat * Server :=
  sendMCPRequest t (tool_call_request t name args) s.

(** [no_newline s]: no newline occurs in [s]. *)
Fixpoint no_newline (s : string) : bool :=
  match s with
  | EmptyString => true
  | String c r => negb (Ascii.eqb c newline) && no_newline r
  end.

(** A record of the stream: a line that parses to a response with id [k]. *)
Definition is_record (line : string) (response : json) (k : Z) : Prop :=
  no_newline line = true /\ is_empty (trim line) = false /\
  JSON_parse (trim line) = Some response /\ prop response "id" = Some (JNum k).

(** The server writes the given lines, each as one chunk with its
    newline. *)
Definition deliver (lines : list string) (s : Server) : Server :=
  foldl (fun s line => on_data (line +:+ String newline EmptyString) s) s lines.

(** The ids of the requests whose promise is pending. *)
Definition pending_ids (s : Server) : list Z :=
  map request_id (List.filter (fun l => bool_decide (promises s !! promise l = None)) (listeners s)).

End Bridge.
End Bridge.

(* ===================================================================== *)
(** * Discovery: how [discoverAllTools] builds the catalogue              *)
(* ===================================================================== *)

Module Discovery.

(** A tool as a server lists it: [name], [description], [inputSchema]. *)
Record Descriptor := {
  d_name : string;
  d_description : string;
  d_inputSchema : json
}.

(** A response to [tools/list], by what [response.result.tools.map] finds:
    no [result], a [result] whose [tools] is no array, or the array. *)
Inductive Listing : Type :=
| NoResult
| NoTools
| Listed (tools : list Descriptor).

(** [response.result.tools], when [map] can be called on it; reading it
    throws a [TypeError] otherwise. *)
Definition tools_of (response : Listing) : option (list Descriptor) :=
  match response with
  | Listed tools => Some tools
  | NoTools | NoResult => None
  end.

(** [{ ...tool, name: `custom_${tool.name}`, server: 'custom',
       originalName: tool.name }], and the same for [playwright]. *)
Definition entry (server_name : string) (tool : Descriptor) : Tool :=
  {| tool_name := server_name +:+ "_" +:+ d_name tool;
     description := d_description tool;
     inputSchema := d_inputSchema tool;
     server := server_name;
     originalName := d_name tool |}.

(** [discoverAllTools]: [reply name] is how the request to the server
    [name] is settled.  The result is the value of [this.availableTools]
    afterwards, with the requests that were sent: the server and the id.
    The [catch] block only logs. *)
Definition discoverAllTools (reply : string -> outcome Listing)
    (availableTools : list Tool) : list Tool * list (string * Z) :=
  match reply "custom" with
  | Throw _ => (availableTools, [("custom", 2)])
  | Ok customTools =>
      match reply "playwright" with
      | Throw _ => (availableTools, [("custom", 2); ("playwright", 3)])
      | Ok playwrightTools =>
          (match tools_of customTools with
           | None => availableTools
           | Some custom =>
               match tools_of playwrightTools with
               | None => availableTools
               | Some playwright =>
                   map (entry "custom") custom ++ map (entry "playwright") playwright
               end
           end,
           [("custom", 2); ("playwright", 3)])
      end
  end.

(** Both servers answered with their lists. *)
Definition answered (reply : string -> outcome Listing)
    (custom playwright : list Descriptor) : Prop :=
  reply "custom" = Ok (Listed custom) /\ reply "playwright" = Ok (Listed playwright).

End Discovery.

(* ===================================================================== *)
(** * MyMCPServer: the custom tool server                                 *)
(* ===================================================================== *)

Module MyMCPServer.

Inductive ErrorCode := InvalidParams | MethodNotFound.

(** [new McpError(code, message)] *)
Record McpError := { code : ErrorCode; reason : string }.

(** What the handlers read of [process]; [uptime] is the number of
    seconds as the template literal renders it. *)
Record Process := { platform : string; version : string; uptime : string }.

(** The handler of [ListToolsRequestSchema]. *)
Definition listTools : list Discovery.Descriptor :=
  [ {| Discovery.d_name := "get_system_info";
       Discovery.d_description := "Get basic system information";
       Discovery.d_inputSchema :=
         JObj [("type", JStr "object"); ("properties", JObj []); ("required", JArr [])] |};
    {| Discovery.d_name := "echo";
       Discovery.d_description := "Echo back the provided message";
       Discovery.d_inputSchema :=
         JObj [("type", JStr "object");
               ("properties",
                JObj [("message",
                       JObj [("type", JStr "string");
                             ("description", JStr "Message to echo back")])]);
               ("required", JArr [JStr "message"])] |} ].

(** [{ content: [{ type: 'text', text }] }] *)
Definition text_result (text : string) : json :=
  JObj [("content", JArr [text_item text])].

(** [args?.message] *)
Definition message_of (args : option json) : option json :=
  match args with
  | Some a => prop a "message"
  | None => None
  end.

(** The handler of [CallToolRequestSchema], on
    [{ name, arguments: args } = request.params]. *)
Definition callTool (process : Process) (name : string) (args : option json)
    : McpError + json :=
  if String.eqb name "get_system_info" then
    inr (text_result ("System: " +:+ platform process +:+ String newline EmptyString
                      +:+ "Node.js: " +:+ version process +:+ String newline EmptyString
                      +:+ "Uptime: " +:+ uptime process +:+ " seconds"))
  else if String.eqb name "echo" then
    if negb (truthy_opt (message_of args)) then
      inl {| code := InvalidParams; reason := "Missing message parameter" |}
    else inr (text_result ("Echo: " +:+ to_string_opt (message_of args)))
  else inl {| code := MethodNotFound; reason := "Unknown tool: " +:+ name |}.

End MyMCPServer.

(* ===================================================================== *)
(** * Concrete environments, for examples                                 *)
(* ===================================================================== *)

Module Demo.

(** Decimal digits at the head of a string, and the rest. *)
Fixpoint read_digits (acc : Z) (s : string) : Z * string :=
  match s with
  | String c r =>
      let n := nat_of_ascii c in
      if ((48 <=? n)%nat && (n <=? 57)%nat)%bool
      then read_digits (10 * acc + Z.of_nat (n - 48)) r
      else (acc, s)
  | EmptyString => (acc, s)
  end.

Definition strip (prefix s : string) : option string :=
  if String.prefix prefix s then Some (drop_chars (String.length prefix) s) else None.

(** The line of a response: [{"id":7,"result":"..."}]. *)
Definition record_line (id : Z) (payload : string) : string :=
  "{" +:+ dquote +:+ "id" +:+ dquote +:+ ":" +:+ pretty id +:+ ","
  +:+ dquote +:+ "result" +:+ dquote +:+ ":" +:+ dquote +:+ payload +:+ dquote +:+ "}".

Fixpoint until_quote (s : string) : option (string * string) :=
  match s with
  | EmptyString => None
  | String c r =>
      if Ascii.eqb c "034"%char then Some (EmptyString, r)
      else match until_quote r with
           | Some (a, b) => Some (String c a, b)
           | None => None
           end
  end.

(** [JSON.parse] on the lines of the shape [record_line] writes; any other
    text is taken as not parsing. *)
Definition parse (s : string) : option json :=
  match strip ("{" +:+ dquote +:+ "id" +:+ dquote +:+ ":") s with
  | None => None
  | Some s =>
      let '(id, s) := read_digits 0 s in
      match strip ("," +:+ dquote +:+ "result" +:+ dquote +:+ ":" +:+ dquote) s with
      | None => None
      | Some s =>
          match until_quote s with
          | Some (payload, rest) =>
              if String.eqb rest "}"
              then Some (JObj [("id", JNum id); ("result", JStr payload)])
              else None
          | None => None
          end
      end
  end.

Definition tools : list Tool :=
  [ {| tool_name := "custom_echo"; description := "Echo back the provided message";
       inputSchema := JObj []; server := "custom"; originalName := "echo" |};
    {| tool_name := "playwright_playwright_navigate"; description := "Navigate to a URL";
       inputSchema := JObj []; server := "playwright";
       originalName := "playwright_navigate" |};
    {| tool_name := "playwright_playwright_click"; description := "Click an element";
       inputSchema := JObj []; server := "playwright";
       originalName := "playwright_click" |} ].

(** A clock that advances by one millisecond per reading, identifiers
    [s0], [s1], ..., a model service that answers with [model] and then
    with [later], and tool servers that answer with [rpc] and then report
    success. *)
Definition env (model : list (outcome (list ContentBlock)))
    (later : outcome (list ContentBlock)) (rpc : list (option object)) : Env :=
  {| clock := fun n => 1000 + Z.of_nat n;
     uuidv4 := fun n => "s" +:+ pretty n;
     model_reply := fun n => nth n model later;
     rpc_reply := fun n => nth n rpc (Some [("result", JObj [("content", JArr [])])]);
     JSON_parse := parse;
     JSON_stringify := to_string;
     found_element := fun _ => None;
     availableTools := tools;
     mcpServers := fun _ => true |}.

Definition overloaded : error := Error "Overloaded" (Some 529).
Definition unavailable : error := Error "Service unavailable" (Some 503).

Definition done : list ContentBlock := [TextBlock "Done."].

Definition navigate : list ContentBlock :=
  [ToolUseBlock "toolu_1" "playwright_playwright_navigate"
     [("url", JStr "https://example.com")]].

Definition body (text : string) : PromptBody :=
  {| prompt := Some (JStr text); sessionId := None; continueSession := None |}.

Definition continuing (id text : string) : PromptBody :=
  {| prompt := Some (JStr text); sessionId := Some (JStr id);
     continueSession := Some (JBool true) |}.

End Demo.

(** The inputs at which the claims are exercised below. *)
Module Cases.
Import Demo.

(** A model service that answers at once. *)
Definition helpful : Env := env [] (Ok done) [].

(** A model service that asks for one navigate call, then is done. *)
Definition navigating : Env := env [Ok navigate] (Ok done) [].

(** A model service that asks for a navigate call at every turn. *)
Definition restless : Env := env [] (Ok navigate) [].

(** A model service that is overloaded whenever it is called. *)
Definition swamped : Env := env [] (Throw overloaded) [].

(** A model service that is down. *)
Definition down : Env := env [] (Throw unavailable) [].

(** A reply that asks for two tool calls; the server of the first does not
    answer in time. *)
Definition two_calls : list ContentBlock :=
  [TextBlock "Filling the form.";
   ToolUseBlock "toolu_1" "playwright_playwright_click" [("selector", JStr "#submit")];
   ToolUseBlock "toolu_2" "custom_echo" [("selector", JStr "#submit")]].

Definition flaky : Env := env [Ok two_calls] (Ok done) [None].

Definition no_tools : ToolState :=
  {| toolResults := []; ts_locatorHistory := []; ts_contextUpdates := no_updates |}.

Definition first_round : Loop :=
  {| l_messages := [{| role := user; content := PromptText "submit the form" |}];
     conversationComplete := false; iteration := 0; finalResult := EmptyString;
     l_locatorHistory := []; contextUpdates := no_updates |}.

(** The same, with a clock that stands at 1000 for two readings and has
    moved on by 31 minutes at the third. *)
Definition late : Env :=
  {| clock := fun n => if (n <? 2)%nat then 1000 else 1000 + 31 * 60 * 1000;
     uuidv4 := @uuidv4 helpful; model_reply := @model_reply helpful;
     rpc_reply := @rpc_reply helpful; JSON_parse := parse;
     JSON_stringify := to_string; found_element := fun _ => None;
     availableTools := tools; mcpServers := fun _ => true |}.

(** The millisecond in which two calls are issued. *)
Definition instant : Z := 1700000000000.

Definition two_records : string :=
  record_line instant "clicked" +:+ String newline EmptyString
  +:+ record_line instant "navigated" +:+ String newline EmptyString.

End Cases.

(* ===================================================================== *)
(** * The vocabulary of the statements                                    *)
(* ===================================================================== *)

(** [tools_only w w']: from [w] to [w'] nothing changed but what a tool
    call changes: the clock was read and requests were sent. *)
Definition tools_only (w w' : World) : Prop :=
  heap w' = heap w /\ next_ref w' = next_ref w /\ sessions w' = sessions w /\
  timers w' = timers w /\ uuid_calls w' = uuid_calls w /\
  model_calls w' = model_calls w /\ sleeps w' = sleeps w.

(** [located name input]: the locator [extractLocatorInfo] derives. *)
Definition located (name : string) (input : object) : option json :=
  if includes "playwright_" name then derive_locator input else None.

(** [block_ids uses]: the ids of the tool calls among [uses]. *)
Fixpoint block_ids (uses : list ContentBlock) : list string :=
  match uses with
  | [] => []
  | ToolUseBlock id _ _ :: rest => id :: block_ids rest
  | _ :: rest => block_ids rest
  end.

(** [conv_only w w']: from [w] to [w'] only the clock, the tool servers
    and the model service were used. *)
Definition conv_only (w w' : World) : Prop :=
  heap w' = heap w /\ next_ref w' = next_ref w /\ sessions w' = sessions w /\
  timers w' = timers w /\ uuid_calls w' = uuid_calls w /\ sleeps w' = sleeps w.

(** The text of one reply: [responseText]. *)
Definition reply_text (content : list ContentBlock) : string :=
  join (String newline EmptyString) (texts content).

(** The text of the n-th reply of the model service. *)
Definition text_at `{Env} (n : nat) : string :=
  match model_reply n with
  | Ok content => reply_text content
  | Throw _ => EmptyString
  end.

(** What [finalResult] holds after the replies [from], ..., [from + n - 1]. *)
Definition accumulated `{Env} (start : string) (from n : nat) : string :=
  foldl accumulate start (map text_at (seq from n)).

Definition is_assistant (m : Message) : bool :=
  match role m with assistant => true | user => false end.

(** The number of assistant turns of a history. *)
Definition assistant_turns (ms : list Message) : nat :=
  length (List.filter is_assistant ms).

Definition replies `{Env} (n : nat) : Prop :=
  exists content, model_reply n = Ok content.

(** [shell w w']: the session map, the references in use, the timers and
    the identifiers drawn are the same in [w] and [w']. *)
Definition shell (w w' : World) : Prop :=
  next_ref w' = next_ref w /\ sessions w' = sessions w /\
  timers w' = timers w /\ uuid_calls w' = uuid_calls w.

(** [r_totalSteps] and the effect on the session object of a call of
    [processPromptWithMCP] that returned [res]: [n] rounds were run after
    [skipped] earlier calls of the model service, and the history [msgs],
    which has [n] more assistant turns, was assigned to the object. *)
Definition folded `{Env} (session : nat) (w w' : World) (res : PromptResult)
    (skipped n : nat) (msgs : list Message) : Prop :=
  (n <= maxIterations)%nat /\ r_totalSteps res = n /\
  model_calls w' = (model_calls w + skipped + n)%nat /\
  response res = (if is_empty (accumulated EmptyString (model_calls w + skipped) n)
                  then "Task completed successfully"
                  else accumulated EmptyString (model_calls w + skipped) n) /\
  assistant_turns msgs = (assistant_turns (messages (heap w session)) + n)%nat /\
  forall r, heap w' r = if Nat.eqb r session then set_messages msgs (heap w session)
                        else heap w r.

(** The session object once a result has been folded into it: what
    [processPromptWithMCP] and the [updateSession] of the route leave. *)
Definition fold_result (s : Session) (msgs : list Message) (res : PromptResult)
    (t : Z) : Session :=
  {| session_id := session_id s; createdAt := createdAt s; lastActivity := t;
     messages := msgs;
     context := spread_context (context s) (r_context res);
     locatorHistory := locatorHistory s ++ locators res;
     totalSteps := totalSteps s + r_totalSteps res |}.

(** The session a call of [createSession] makes. *)
Definition fresh_session (id : string) (created active : Z) : Session :=
  {| session_id := id; createdAt := created; lastActivity := active;
     messages := [];
     context := {| currentUrl := None; lastScreenshot := None;
                   browserState := "closed"; completedActions := [] |};
     locatorHistory := []; totalSteps := 0 |}.

(** [consistent w]: every entry of the session map points to an object in
    use whose [id] is the key of the entry and whose step count is the
    number of assistant turns of its history. *)
Definition consistent (w : World) : Prop :=
  forall k r, sessions w !! k = Some r ->
    (r < next_ref w)%nat /\ session_id (heap w r) = k /\
    totalSteps (heap w r) = assistant_turns (messages (heap w r)).

(** [touched s s']: [s'] is [s] up to its last-activity timestamp. *)
Definition touched (s s' : Session) : Prop :=
  s' = set_lastActivity (lastActivity s') s.

(** [continued w r w1]: [getSession] found the object [r] and refreshed
    its last-activity timestamp. *)
Definition continued `{Env} (w : World) (r : nat) (w1 : World) : Prop :=
  (r < next_ref w)%nat /\ shell w w1 /\
  forall r', heap w1 r' = if Nat.eqb r' r
                          then set_lastActivity (clock (clock_reads w)) (heap w r)
                          else heap w r'.

(** [created w r w1]: [createSession] made the object [r], stored it under
    a new identifier and scheduled its sweep. *)
Definition created `{Env} (w : World) (r : nat) (w1 : World) : Prop :=
  r = next_ref w /\ next_ref w1 = S r /\
  sessions w1 = <[uuidv4 (uuid_calls w) := r]> (sessions w) /\
  timers w1 = timers w ++ [uuidv4 (uuid_calls w)] /\
  forall r', heap w1 r' =
    if Nat.eqb r' r
    then fresh_session (uuidv4 (uuid_calls w)) (clock (clock_reads w))
           (clock (S (clock_reads w)))
    else heap w r'.

(** What [POST /api/prompt] does to the world, by its reply: nothing when
    it refuses the request; otherwise a session is continued or created,
    and then either the processing fails, leaving the objects as they are,
    or its result is folded into the session. *)
Definition prompt_effect `{Env} (w : World) (reply : Reply) (w' : World) : Prop :=
  (exists code msg, reply = Failure code msg /\ w' = w) \/
  exists r w1, (continued w r w1 \/ created w r w1) /\ shell w1 w' /\
    ((reply = Failure 500 "Internal server error" /\ heap w' = heap w1) \/
     exists p msgs t,
       reply = Prompted p /\ (r_totalSteps (result p) <= maxIterations)%nat /\
       assistant_turns msgs
         = (assistant_turns (messages (heap w1 r)) + r_totalSteps (result p))%nat /\
       forall r', heap w' r' = if Nat.eqb r' r
                               then fold_result (heap w1 r) msgs (result p) t
                               else heap w1 r').

(** An object with none of the fields a locator is derived from. *)
Definition no_selector_fields (input : object) : Prop :=
  field "selector" input = None /\ field "locator" input = None /\
  field "text" input = None /\
  (field "role" input = None \/ field "name" input = None).

(** [all_space s]: [s] consists of white space only; the empty string
    does. *)
Fixpoint all_space (s : string) : bool :=
  match s with
  | EmptyString => true
  | String c r => is_space c && all_space r
  end.

(** A prompt that is absent, empty, or only white space. *)
Definition blank (p : option json) : Prop :=
  p = None \/ exists s, p = Some (JStr s) /\ all_space s = true.

(* ===================================================================== *)
(** * The vocabulary of the further properties                            *)
(* ===================================================================== *)

(** The action [extractLocatorInfo] records for a tool. *)
Definition action_of (name : string) : option string :=
  if includes "playwright_" name
  then Some (replace_first "playwright_" EmptyString name)
  else None.

(** The entry the [catch] block of a tool call makes of an error. *)
Definition error_entry (id : string) (e : error) : ToolResult :=
  {| tool_use_id := id;
     tr_content := JArr [text_item ("Error: " +:+ message e
                     +:+ ". Please try alternative approaches or selectors.")];
     is_error := true |}.

(** What a tool call that succeeded does to [currentUrl] and
    [browserState]. *)
Definition navigated (name : string) (input : object) (u : ContextUpdates)
    : ContextUpdates :=
  if String.eqb name "playwright_playwright_navigate" && truthy_opt (field "url" input)
  then {| cu_currentUrl := field "url" input; cu_browserState := Some "open";
          cu_lastScreenshot := cu_lastScreenshot u |}
  else u.

(** The [content] of the entry of a tool call that returned [result]. *)
Definition tool_content `{Env} (result : json) : json :=
  if truthy result && truthy_opt (prop result "content")
  then default JNull (prop result "content")
  else if truthy result then JArr [text_item (JSON_stringify result)]
  else JArr [text_item "Tool executed successfully"].

(** What a record of the locator trail always has: a truthy locator, a
    tool whose name contains [playwright_], and that name without its
    first [playwright_] as action. *)
Definition trail_ok (info : LocatorInfo) : Prop :=
  truthy_opt (locator info) = true /\
  includes "playwright_" (tool info) = true /\
  action info = Some (replace_first "playwright_" EmptyString (tool info)).

(** The context updates of a run: none of the browser, or an open browser
    at a truthy url. *)
Definition updates_ok (u : ContextUpdates) : Prop :=
  (cu_browserState u = None /\ cu_currentUrl u = None) \/
  (cu_browserState u = Some "open" /\
   exists url, cu_currentUrl u = Some url /\ truthy url = true).

(** The context of a session: no completed actions, and a browser that is
    closed with no url or open at a truthy url. *)
Definition context_ok (c : Context) : Prop :=
  completedActions c = [] /\
  ((browserState c = "closed" /\ currentUrl c = None) \/
   (browserState c = "open" /\ exists url, currentUrl c = Some url /\ truthy url = true)).

(** [paired ms]: in the history [ms] every assistant turn that asks for
    tool calls is followed at once by a user turn that holds the results of
    exactly these calls, in their order; no other turn holds tool results;
    replies are assistant turns, and prompts and results are user turns. *)
Fixpoint paired (ms : list Message) : bool :=
  match ms with
  | [] => true
  | m :: rest =>
      match content m with
      | PromptText _ => negb (is_assistant m) && paired rest
      | ToolResults _ => false
      | ReplyBlocks blocks =>
          is_assistant m &&
          match tool_uses blocks with
          | [] => paired rest
          | _ :: _ =>
              match rest with
              | [] => false
              | m' :: rest' =>
                  match content m' with
                  | ToolResults results =>
                      negb (is_assistant m') &&
                      bool_decide (map tool_use_id results = block_ids (tool_uses blocks)) &&
                      paired rest'
                  | _ => false
                  end
              end
          end
      end
  end.

(** [dataHandler(data)] on a chunk as it arrives, a [Buffer]:
    [responseBuffer += data.toString()] decodes the bytes of the chunk, on
    their own, before the text is appended.  [toString] is that
    decoding. *)
Definition on_chunk `{Env} (toString : list Byte.byte -> string) (l : Bridge.Listener)
    (data : list Byte.byte) : json + Bridge.Listener :=
  Bridge.dataHandler l (toString data).

(** [all_stored P w]: every stored session satisfies [P]. *)
Definition all_stored (P : Session -> Prop) (w : World) : Prop :=
  forall k r, sessions w !! k = Some r -> P (heap w r).

(** The variables of the loop when an attempt starts. *)
Definition first_loop (history : list Message) (message : string) : Loop :=
  {| l_messages := history ++ [{| role := user; content := PromptText message |}];
     conversationComplete := false; iteration := 0; finalResult := EmptyString;
     l_locatorHistory := []; contextUpdates := no_updates |}.

(* ===================================================================== *)
(** * The vocabulary of the statements on whole runs                      *)
(* ===================================================================== *)

(** The content of the n-th reply of the model service; nothing when the
    call fails. *)
Definition reply_at `{Env} (n : nat) : list ContentBlock :=
  match model_reply n with
  | Ok content => content
  | Throw _ => []
  end.

(** The replies to the calls [from], ..., [from + n - 1]. *)
Definition replies_from `{Env} (from n : nat) : list (list ContentBlock) :=
  map reply_at (seq from n).

(** The text of a run, by the words of the specification: what a reply
    says is the text of its text blocks, one per line; the text of the run
    is what its replies say, those that say nothing left out, with an
    empty line between one reply and the next. *)
Definition block_text (b : ContentBlock) : option string :=
  match b with
  | TextBlock t => Some t
  | _ => None
  end.

Definition said (content : list ContentBlock) : string :=
  join (String newline EmptyString) (omap block_text content).

Definition transcript (replies : list (list ContentBlock)) : string :=
  join (String newline (String newline EmptyString))
    (List.filter (fun t => negb (String.eqb t EmptyString)) (map said replies)).

(** The text a run answers with: its transcript, or the completion marker
    when the transcript is empty. *)
Definition answer (replies : list (list ContentBlock)) : string :=
  if String.eqb (transcript replies) EmptyString then "Task completed successfully"
  else transcript replies.

(** The entry of a tool call that returned [result]. *)
Definition result_entry `{Env} (id : string) (result : json) : ToolResult :=
  {| tool_use_id := id; tr_content := tool_content result; is_error := false |}.

(** The entry of the tool call [id], made in the world [w]: the result
    [callTool] returns wrapped as a success, or the error it throws, or the
    error the reading of the result throws, wrapped as an error. *)
Definition call_entry `{Env} (id name : string) (input : object) (w : World) : ToolResult :=
  let out := callTool name input w in
  match out.1 with
  | Ok result =>
      match (extractLocatorInfo name input (Some result) out.2).1 with
      | Ok _ => result_entry id result
      | Throw e => error_entry id e
      end
  | Throw e => error_entry id e
  end.

(** [calls_answered uses w results w']: from the world [w] the calls
    [uses] were made one after the other, each by [callTool] with its own
    name and arguments, and [results] holds one entry per call, in the
    order of the calls: the entry of its outcome.  Between two calls only
    the clock is read. *)
Fixpoint calls_answered `{Env} (uses : list ContentBlock) (w : World)
    (results : list ToolResult) (w' : World) : Prop :=
  match uses with
  | [] => results = [] /\ w' = w
  | ToolUseBlock id name input :: rest =>
      exists more k,
        results = call_entry id name input w :: more /\
        (clock_reads (callTool name input w).2 < k)%nat /\
        calls_answered rest (with_clock_reads k (callTool name input w).2) more w'
  | _ :: rest => calls_answered rest w results w'
  end.

(** What one tool call adds to the locator trail, by the words of the
    claim: at most one record; none when the arguments have no field a
    locator is derived from; exactly one, with the selector as locator,
    when the tool is a browser tool and the selector is truthy. *)
Definition trail_of_call (use : ContentBlock) (recs : list LocatorInfo) : Prop :=
  match use with
  | ToolUseBlock _ name input =>
      (length recs <= 1)%nat /\
      (no_selector_fields input -> recs = []) /\
      (includes "playwright_" name = true -> truthy_opt (field "selector" input) = true ->
       exists info, recs = [info] /\ tool info = name /\
                    locator info = field "selector" input)
  | _ => recs = []
  end.

(** The tool calls the replies [from], ..., [from + n - 1] ask for. *)
Definition calls_from `{Env} (from n : nat) : list ContentBlock :=
  flat_map tool_uses (replies_from from n).

(** What the reply to an event tells of the rounds of a run: the session
    and the [totalSteps] of the result, for a prompt that succeeded. *)
Definition told `{Env} (e : Event) (w : World) : option (string * nat) :=
  match e with
  | Http (PostPrompt body) =>
      match (handle (PostPrompt body) w).1 with
      | Ok (Prompted p) => Some (pr_sessionId p, r_totalSteps (result p))
      | _ => None
      end
  | _ => None
  end.

(** The rounds folded into the session object [r] by the events [events]
    that the server takes from the world [w]: the sum of the [totalSteps]
    told by the prompts whose session is that object. *)
Fixpoint folded_rounds `{Env} (r : nat) (events : list Event) (w : World) : nat :=
  match events with
  | [] => 0
  | e :: rest =>
      (match told e w with
       | Some (id, n) => if bool_decide (sessions (step e w) !! id = Some r) then n else 0
       | None => 0
       end + folded_rounds r rest (step e w))%nat
  end.

(** The inputs at which the further properties are exercised below. *)
Module Samples.
Import Demo.

(** A tool server whose result carries a string as [content]. *)
Definition terse : Env :=
  env [] (Ok done) [Some [("result", JObj [("content", JStr "clicked")])]].

Definition submit : object := [("selector", JStr "#submit")].

(** The world after one prompt was answered with a navigate call. *)
Definition visited : World :=
  @step Cases.navigating (Http (PostPrompt (body "open example.com"))) initial_world.

(** The world after one prompt was answered with a click whose server did
    not answer in time. *)
Definition clicked : World :=
  @step Cases.flaky (Http (PostPrompt (body "submit the form"))) initial_world.

(** The world after one session was created. *)
Definition opened : World := @step Cases.helpful (Http PostSessionCreate) initial_world.

Definition echo : Discovery.Descriptor :=
  {| Discovery.d_name := "echo";
     Discovery.d_description := "Echo back the provided message";
     Discovery.d_inputSchema := JObj [] |}.

Definition goto : Discovery.Descriptor :=
  {| Discovery.d_name := "playwright_navigate";
     Discovery.d_description := "Navigate to a URL";
     Discovery.d_inputSchema := JObj [] |}.

Definition click : Discovery.Descriptor :=
  {| Discovery.d_name := "playwright_click";
     Discovery.d_description := "Click an element";
     Discovery.d_inputSchema := JObj [] |}.

(** Two servers that answer [tools/list]: the lists behind [Demo.tools]. *)
Definition listing (name : string) : outcome Discovery.Listing :=
  if String.eqb name "custom" then Ok (Discovery.Listed [echo])
  else Ok (Discovery.Listed [goto; click]).

(** The same, with [MyMCPServer] as the custom server. *)
Definition listing_of_server (name : string) : outcome Discovery.Listing :=
  if String.eqb name "custom" then Ok (Discovery.Listed MyMCPServer.listTools)
  else Ok (Discovery.Listed [goto; click]).

(** Two servers that do not answer in time, and the API server with the
    catalogue it is left with. *)
Definition silent (name : string) : outcome Discovery.Listing :=
  Throw (Error "Request timeout after 45 seconds" None).

Definition bare : Env :=
  {| clock := @clock Cases.helpful; uuidv4 := @uuidv4 Cases.helpful;
     model_reply := @model_reply Cases.helpful; rpc_reply := @rpc_reply Cases.helpful;
     JSON_parse := parse; JSON_stringify := to_string; found_element := fun _ => None;
     availableTools := []; mcpServers := fun _ => true |}.


Definition host : MyMCPServer.Process :=
  {| MyMCPServer.platform := "linux"; MyMCPServer.version := "v20.11.0";
     MyMCPServer.uptime := "12.5" |}.

(** A listener that waits for the record of request 7, and that record in
    two chunks. *)
Definition waiting : Bridge.Listener :=
  {| Bridge.promise := 0; Bridge.request_id := 7; Bridge.responseBuffer := EmptyString |}.

(** The decoding of a chunk of 7-bit characters: byte by byte. *)
Definition seven_bit (data : list Byte.byte) : string := String.string_of_list_byte data.

Definition first_chunk : string := "{" +:+ dquote +:+ "id" +:+ dquote +:+ ":7,".

Definition second_chunk : string :=
  dquote +:+ "result" +:+ dquote +:+ ":" +:+ dquote +:+ "ok" +:+ dquote +:+ "}"
  +:+ String newline EmptyString.

(** A server with two requests pending, and its two records, the later
    request answered first. *)
Definition two_pending : Bridge.Server :=
  (@Bridge.sendMCPRequest Cases.helpful 2 (JObj [("id", JNum 2)])
     (@Bridge.sendMCPRequest Cases.helpful 1 (JObj [("id", JNum 1)]) Bridge.spawned).2).2.

Definition answers : list (string * json * Z) :=
  [(record_line 2 "second", JObj [("id", JNum 2); ("result", JStr "second")], 2);
   (record_line 1 "first", JObj [("id", JNum 1); ("result", JStr "first")], 1)].

End Samples.

(* ===================================================================== *)
(** * The embedding at work                                               *)
(* ===================================================================== *)

Example trim_strips_both_ends :
  trim (String newline "  click me  ") = "click me".
Proof. reflexivity. Qed.

Example split_keeps_the_partial_line :
  split_lines ("a" +:+ String newline "b" +:+ String newline "c") = ["a"; "b"; "c"].
Proof. reflexivity. Qed.

Example action_is_the_name_without_prefix :
  replace_first "playwright_" EmptyString "playwright_playwright_click" = "playwright_click".
Proof. reflexivity. Qed.

Example selector_comes_first :
  derive_locator [("text", JStr "Submit"); ("locator", JStr "form >> button");
                  ("selector", JStr "#submit")]
  = Some (JStr "#submit").
Proof. reflexivity. Qed.

Example locator_comes_before_text :
  derive_locator [("text", JStr "Submit"); ("locator", JStr "form >> button")]
  = Some (JStr "form >> button").
Proof. reflexivity. Qed.

Example text_is_quoted :
  derive_locator [("text", JStr "Submit")]
  = Some (JStr ("text=" +:+ dquote +:+ "Submit" +:+ dquote)).
Proof. reflexivity. Qed.

Example role_needs_a_name :
  derive_locator [("role", JStr "button")] = None /\
  derive_locator [("role", JStr "button"); ("name", JStr "Submit")]
  = Some (JStr ("role=button[name=" +:+ dquote +:+ "Submit" +:+ dquote +:+ "]")).
Proof. split; reflexivity. Qed.

Example empty_selector_is_passed_over :
  derive_locator [("selector", JStr EmptyString); ("text", JStr "Submit")]
  = Some (JStr ("text=" +:+ dquote +:+ "Submit" +:+ dquote)).
Proof. reflexivity. Qed.

Example failure_words_clear_success :
  exists info,
    (@extractLocatorInfo Cases.helpful "playwright_playwright_click"
       [("selector", JStr "#submit")]
       (Some (JObj [("content", JArr [text_item "Element not found"])]))
       initial_world).1 = Ok info /\
    success info = false /\ locator info = Some (JStr "#submit") /\
    action info = Some "playwright_click".
Proof. eexists. split; [reflexivity|]. repeat split. Qed.

Example content_that_is_no_array_throws :
  (@extractLocatorInfo Cases.helpful "playwright_playwright_click"
     [("selector", JStr "#submit")] (Some (JObj [("content", JStr "done")]))
     initial_world).1
  = Throw (TypeError "toolResult.content.find is not a function").
Proof. reflexivity. Qed.

Example cap_ends_the_run_without_error :
  exists res,
    (@processPromptWithMCP Cases.restless "keep going" 0%nat initial_world).1
    = Ok (Some res) /\
    r_totalSteps res = 20%nat /\ response res = "Task completed successfully" /\
    model_calls (@processPromptWithMCP Cases.restless "keep going" 0%nat initial_world).2
    = 20%nat.
Proof. eexists. vm_compute. repeat split. Qed.

Example array_to_string : to_string (JArr [JNum 12; JNull; JStr "x"]) = "12,,x".
Proof. vm_compute. reflexivity. Qed.

Example demo_parse_reads_a_record :
  Demo.parse (Demo.record_line 17 "clicked")
  = Some (JObj [("id", JNum 17); ("result", JStr "clicked")]).
Proof. vm_compute. reflexivity. Qed.

(* ===================================================================== *)
(** * Reasoning about computations                                        *)
(* ===================================================================== *)

Lemma tools_only_refl w : tools_only w w.
Proof. repeat split. Qed.

Lemma tools_only_trans w1 w2 w3 :
  tools_only w1 w2 -> tools_only w2 w3 -> tools_only w1 w3.
Proof.
  unfold tools_only. intros (?&?&?&?&?&?&?) (?&?&?&?&?&?&?).
  repeat split; congruence.
Qed.

Lemma bind_ok {A B} (m : M A) (k : A -> M B) w a w' :
  m w = (Ok a, w') -> bind m k w = k a w'.
Proof. unfold bind. intros ->. reflexivity. Qed.

Lemma bind_throw {A B} (m : M A) (k : A -> M B) w e w' :
  m w = (Throw e, w') -> bind m k w = (Throw e, w').
Proof. unfold bind. intros ->. reflexivity. Qed.


Lemma try_throw {A} (m : M A) h w e w' :
  m w = (Throw e, w') -> try_catch m h w = h e w'.
Proof. unfold try_catch. intros ->. reflexivity. Qed.

Section ToolFacts.
Context {env : Env}.

Lemma tools_only_clock w : tools_only w (with_clock_reads (S (clock_reads w)) w).
Proof. repeat split. Qed.

Lemma now_run w : now w = (Ok (clock (clock_reads w)), with_clock_reads (S (clock_reads w)) w).
Proof. reflexivity. Qed.

(** [extractLocatorInfo] reads the clock once; if it returns, the record
    names the tool and carries the derived locator. *)
Lemma extract_spec name input res w :
  exists o, extractLocatorInfo name input res w
            = (o, with_clock_reads (S (clock_reads w)) w) /\
            forall info, o = Ok info -> tool info = name /\ locator info = located name input.
Proof.
  unfold extractLocatorInfo, located.
  rewrite (bind_ok _ _ _ _ _ (now_run w)).
  destruct (includes "playwright_" name).
  - destruct res as [res|].
    + destruct (truthy res && truthy_opt (prop res "content")).
      * destruct (text_content _) as [[ | | |textContent| | ]|e];
          (eexists; split; [reflexivity|]); intros info [= <-] || intros info [=]; auto.
      * eexists; split; [reflexivity|]. intros info [= <-]; auto.
    + eexists; split; [reflexivity|]. intros info [= <-]; auto.
  - eexists; split; [reflexivity|]. intros info [= <-]; auto.
Qed.

(** Without a result, [extractLocatorInfo] cannot throw. *)
Lemma extract_null name input w :
  exists info, extractLocatorInfo name input None w
               = (Ok info, with_clock_reads (S (clock_reads w)) w) /\
               tool info = name /\ locator info = located name input.
Proof.
  unfold extractLocatorInfo, located.
  rewrite (bind_ok _ _ _ _ _ (now_run w)).
  destruct (includes "playwright_" name); eexists; split; try reflexivity; auto.
Qed.

Lemma sendMCPRequest_frame call w : tools_only w (sendMCPRequest call w).2.
Proof. unfold sendMCPRequest. destruct (rpc_reply _); repeat split. Qed.

Lemma callTool_frame name args w : tools_only w (callTool name args w).2.
Proof.
  unfold callTool.
  destruct (List.find _ _) as [t|]; [|apply tools_only_refl].
  destruct (negb _); [apply tools_only_refl|].
  rewrite (bind_ok _ _ _ _ _ (now_run w)).
  unfold bind at 1.
  pose proof (sendMCPRequest_frame
    {| call_server := server t; call_id := clock (clock_reads w);
       call_name := originalName t; call_arguments := args |}
    (with_clock_reads (S (clock_reads w)) w)) as Hs.
  destruct (sendMCPRequest _ _) as [[response|e] w1]; simpl in Hs.
  - assert (tools_only w w1) by (eapply tools_only_trans; [apply tools_only_clock|exact Hs]).
    destruct (truthy_opt (field "result" response)); [exact H|].
    destruct (truthy_opt (field "error" response)); exact H.
  - simpl. eapply tools_only_trans; [apply tools_only_clock|exact Hs].
Qed.

End ToolFacts.

Section LoopFacts.
Context {env : Env}.

(** One tool call, [try] and [catch] together: it never throws, it adds
    one entry tagged with the id of the call, and it adds the locator record
    exactly when a locator was derived. *)
Lemma tool_step_spec id name input st w :
  exists st' w' entry info,
    try_catch (tool_try id name input st) (tool_catch id name input st) w = (Ok st', w') /\
    tools_only w w' /\
    toolResults st' = toolResults st ++ [entry] /\
    tool_use_id entry = id /\
    tool info = name /\ locator info = located name input /\
    ts_locatorHistory st' = push_locator info (ts_locatorHistory st).
Proof.
  assert (Hcatch : forall e w1, tools_only w w1 ->
    exists st' w' entry info,
      tool_catch id name input st e w1 = (Ok st', w') /\ tools_only w w' /\
      toolResults st' = toolResults st ++ [entry] /\ tool_use_id entry = id /\
      tool info = name /\ locator info = located name input /\
      ts_locatorHistory st' = push_locator info (ts_locatorHistory st)).
  { intros e w1 H1. unfold tool_catch.
    destruct (extract_null name input w1) as (info & Hex & Ht & Hl).
    rewrite (bind_ok _ _ _ _ _ Hex).
    eexists _, _, _, (failed info). split; [reflexivity|].
    split; [eapply tools_only_trans; [exact H1|apply tools_only_clock]|].
    simpl. auto. }
  unfold try_catch, tool_try.
  pose proof (callTool_frame name input w) as Hc.
  unfold bind at 1.
  destruct (callTool name input w) as [[result|e] w1]; simpl in Hc; [|apply Hcatch, Hc].
  unfold bind at 1.
  destruct (extract_spec name input (Some result) w1) as (o & -> & Ho).
  assert (H2 : tools_only w (with_clock_reads (S (clock_reads w1)) w1))
    by (eapply tools_only_trans; [exact Hc|apply tools_only_clock]).
  destruct o as [info|e]; [|apply Hcatch, H2].
  destruct (Ho info eq_refl) as [Ht Hl].
  destruct (String.eqb name "playwright_playwright_screenshot").
  - rewrite (bind_ok _ _ _ _ _ (bind_ok _ _ _ _ _ (now_run _))).
    eexists _, _, _, info. split; [reflexivity|].
    split; [eapply tools_only_trans; [exact H2|apply tools_only_clock]|].
    simpl. auto.
  - eexists _, _, _, info. split; [reflexivity|]. split; [exact H2|]. simpl. auto.
Qed.

(** The [for] loop over the tool calls never throws and yields one entry
    per call, in order, each tagged with the id of its call. *)
Lemma run_tools_spec uses : forall st w,
  exists st' w' entries,
    run_tools uses st w = (Ok st', w') /\ tools_only w w' /\
    toolResults st' = toolResults st ++ entries /\
    map tool_use_id entries = block_ids uses.
Proof.
  induction uses as [|[text|id name input|type] rest IH]; intros st w; simpl.
  - exists st, w, []. rewrite app_nil_r. repeat split.
  - apply IH.
  - destruct (tool_step_spec id name input st w)
      as (st1 & w1 & entry & info & Hrun & Hw & Hres & Hid & _).
    rewrite (bind_ok _ _ _ _ _ Hrun).
    destruct (IH st1 w1) as (st' & w' & entries & -> & Hw' & Hres' & Hids).
    exists st', w', (entry :: entries). split; [reflexivity|].
    split; [eapply tools_only_trans; eauto|].
    split; [rewrite Hres', Hres, <- app_assoc; reflexivity|].
    simpl. congruence.
  - apply IH.
Qed.

End LoopFacts.

Lemma conv_only_refl w : conv_only w w.
Proof. repeat split. Qed.

Lemma conv_only_trans w1 w2 w3 : conv_only w1 w2 -> conv_only w2 w3 -> conv_only w1 w3.
Proof.
  unfold conv_only. intros (?&?&?&?&?&?) (?&?&?&?&?&?). repeat split; congruence.
Qed.

Lemma tools_conv w w' : tools_only w w' -> conv_only w w'.
Proof. unfold tools_only, conv_only. intuition. Qed.

Lemma assistant_turns_app a b :
  assistant_turns (a ++ b) = (assistant_turns a + assistant_turns b)%nat.
Proof. unfold assistant_turns. rewrite List.filter_app, length_app. reflexivity. Qed.

Section ConversationFacts.
Context {env : Env}.

Lemma round_throw l w e :
  model_reply (model_calls w) = Throw e ->
  round l w = (Throw e, with_model_calls (S (model_calls w)) w).
Proof. intros H. unfold round, bind, messages_create. rewrite H. reflexivity. Qed.

(** A round whose model call succeeds never throws. *)
Lemma round_ok l w content :
  model_reply (model_calls w) = Ok content ->
  exists l' w' results,
    round l w = (Ok l', w') /\ conv_only w w' /\
    model_calls w' = S (model_calls w) /\
    iteration l' = S (iteration l) /\
    finalResult l' = accumulate (finalResult l) (reply_text content) /\
    map tool_use_id results = block_ids (tool_uses content) /\
    match tool_uses content with
    | [] => conversationComplete l' = true /\
            l_messages l' = l_messages l ++ [{| role := assistant; content := ReplyBlocks content |}]
    | _ :: _ => conversationComplete l' = false /\
                l_messages l' = l_messages l
                  ++ [{| role := assistant; content := ReplyBlocks content |};
                      {| role := user; content := ToolResults results |}]
    end.
Proof.
  intros H. unfold round.
  assert (Hm : messages_create (l_messages l) w
               = (Ok content, with_model_calls (S (model_calls w)) w))
    by (unfold messages_create; rewrite H; reflexivity).
  rewrite (bind_ok _ _ _ _ _ Hm).
  destruct (tool_uses content) as [|u us] eqn:Hu.
  - eexists _, _, []. split; [reflexivity|]. simpl. repeat split.
  - destruct (run_tools_spec (u :: us)
                {| toolResults := []; ts_locatorHistory := l_locatorHistory l;
                   ts_contextUpdates := contextUpdates l |}
                (with_model_calls (S (model_calls w)) w))
      as (st' & w' & entries & Hrun & Hw & Hres & Hids).
    rewrite (bind_ok _ _ _ _ _ Hrun).
    exists {| l_messages := (l_messages l ++ [{| role := assistant; content := ReplyBlocks content |}])
                            ++ [{| role := user; content := ToolResults (toolResults st') |}];
              conversationComplete := false; iteration := S (iteration l);
              finalResult := accumulate (finalResult l) (reply_text content);
              l_locatorHistory := ts_locatorHistory st';
              contextUpdates := ts_contextUpdates st' |}, w', (toolResults st').
    split; [reflexivity|].
    destruct Hw as (?&?&?&?&?&Hmc&?). simpl in *.
    split; [repeat split; assumption|].
    split; [exact Hmc|]. split; [reflexivity|]. split; [reflexivity|].
    split; [rewrite Hres; exact Hids|].
    split; [reflexivity|]. rewrite <- app_assoc. reflexivity.
Qed.

Lemma accumulated_step start from n :
  accumulated (accumulate start (text_at from)) (S from) n = accumulated start from (S n).
Proof. reflexivity. Qed.

(** The [while] loop: either it ends after [n <= remaining] rounds, all
    answered by the model service, because the conversation is complete or
    no round remains, or the model service fails in round [n < remaining]. *)
Lemma conversation_spec remaining : forall l w,
  exists o w', conversation remaining l w = (o, w') /\ conv_only w w' /\
    match o with
    | Ok l' =>
        exists n, (n <= remaining)%nat /\
          (conversationComplete l' = true \/ n = remaining) /\
          iteration l' = (iteration l + n)%nat /\
          model_calls w' = (model_calls w + n)%nat /\
          finalResult l' = accumulated (finalResult l) (model_calls w) n /\
          assistant_turns (l_messages l') = (assistant_turns (l_messages l) + n)%nat
    | Throw e =>
        exists n, (n < remaining)%nat /\
          model_calls w' = (model_calls w + S n)%nat /\
          model_reply (model_calls w + n) = Throw e /\
          forall i, (i < n)%nat -> replies (model_calls w + i)
    end.
Proof.
  induction remaining as [|k IH]; intros l w; simpl.
  - exists (Ok l), w. split; [reflexivity|]. split; [apply conv_only_refl|].
    exists 0%nat. rewrite !Nat.add_0_r. repeat split; auto.
  - destruct (conversationComplete l) eqn:Hcomplete.
    + exists (Ok l), w. split; [reflexivity|]. split; [apply conv_only_refl|].
      exists 0%nat. rewrite !Nat.add_0_r. repeat split; auto. lia.
    + destruct (model_reply (model_calls w)) as [content|e] eqn:Hreply.
      * destruct (round_ok l w content Hreply)
          as (l1 & w1 & results & Hrun & Hw1 & Hmc & Hit & Hfin & _ & Hmsg).
        rewrite (bind_ok _ _ _ _ _ Hrun).
        destruct (IH l1 w1) as (o & w' & -> & Hw' & Hpost).
        exists o, w'. split; [reflexivity|].
        split; [eapply conv_only_trans; eauto|].
        destruct o as [l'|e].
        -- destruct Hpost as (n & Hn & Hend & Hit' & Hmc' & Hfin' & Hturns).
           exists (S n). split; [lia|].
           split; [destruct Hend; [left; assumption|right; lia]|].
           split; [lia|]. split; [lia|].
           split.
           { rewrite Hfin', Hfin, Hmc, <- accumulated_step.
             unfold text_at. rewrite Hreply. reflexivity. }
           rewrite Hturns.
           destruct (tool_uses content); destruct Hmsg as [_ ->];
             rewrite assistant_turns_app; unfold assistant_turns; simpl; lia.
        -- destruct Hpost as (n & Hn & Hmc' & Hthrow & Hprev).
           exists (S n). split; [lia|]. split; [lia|].
           split; [rewrite <- Hthrow; f_equal; lia|].
           intros [|i] Hi.
           ++ rewrite Nat.add_0_r. exists content. exact Hreply.
           ++ replace (model_calls w + S i)%nat with (model_calls w1 + i)%nat by lia.
              apply Hprev. lia.
      * rewrite (bind_throw _ _ _ _ _ (round_throw l w e Hreply)).
        eexists _, _. split; [reflexivity|]. split; [repeat split|].
        exists 0%nat. simpl. rewrite Nat.add_0_r. repeat split; try lia. exact Hreply.
Qed.

End ConversationFacts.

Lemma shell_refl w : shell w w.
Proof. repeat split. Qed.

Lemma shell_trans w1 w2 w3 : shell w1 w2 -> shell w2 w3 -> shell w1 w3.
Proof. unfold shell. intros (?&?&?&?) (?&?&?&?). repeat split; congruence. Qed.

Lemma conv_shell w w' : conv_only w w' -> shell w w'.
Proof. unfold conv_only, shell. intuition. Qed.

Section AttemptFacts.
Context {env : Env}.

Lemma deref_run r w : deref r w = (Ok (heap w r), w).
Proof. reflexivity. Qed.

Lemma attempt_spec message session w :
  exists o w', attempt message session w = (o, w') /\ shell w w' /\
    sleeps w' = sleeps w /\
    match o with
    | Ok res => exists msgs, folded session w w' res 0 (r_totalSteps res) msgs
    | Throw e =>
        heap w' = heap w /\
        exists n, (n < maxIterations)%nat /\
          model_calls w' = (model_calls w + S n)%nat /\
          model_reply (model_calls w + n) = Throw e
    end.
Proof.
  unfold attempt. rewrite (bind_ok _ _ _ _ _ (deref_run session w)).
  set (l0 := {| l_messages := _ |}).
  destruct (conversation_spec maxIterations l0 w) as (o & w1 & Hrun & Hw & Hpost).
  destruct o as [l|e].
  - rewrite (bind_ok _ _ _ _ _ Hrun).
    destruct Hpost as (n & Hn & _ & Hit & Hmc & Hfin & Hturns).
    eexists _, _. split; [reflexivity|].
    destruct Hw as (Hheap & ? & ? & ? & ? & ?).
    split; [repeat split; assumption|]. split; [assumption|].
    exists (l_messages l). unfold folded. simpl in Hit, Hfin, Hturns |- *. rewrite Hit.
    split; [exact Hn|]. split; [reflexivity|].
    split; [lia|].
    split; [rewrite Hfin, Nat.add_0_r; reflexivity|].
    split.
    { rewrite Hturns. unfold l0; simpl. rewrite assistant_turns_app.
      unfold assistant_turns at 2. simpl. lia. }
    intros r. rewrite Hheap. reflexivity.
  - rewrite (bind_throw _ _ _ _ _ Hrun).
    destruct Hpost as (n & Hn & Hmc & Hthrow & _).
    eexists _, _. split; [reflexivity|].
    destruct Hw as (Hheap & ? & ? & ? & ? & ?).
    split; [repeat split; assumption|]. split; [assumption|].
    split; [assumption|]. exists n. auto.
Qed.

(** An attempt whose first model call fails ends there. *)
Lemma attempt_fails_at_once message session w e :
  model_reply (model_calls w) = Throw e ->
  attempt message session w = (Throw e, with_model_calls (S (model_calls w)) w).
Proof.
  intros H. unfold attempt. rewrite (bind_ok _ _ _ _ _ (deref_run session w)).
  apply bind_throw. simpl. apply bind_throw. apply round_throw. exact H.
Qed.

(** The retry loop: it leaves the session map alone; it changes the session
    object only when it returns a result, and then as one attempt does. *)
Lemma retrying_spec remaining : forall retryCount message session w,
  exists o w', retrying remaining retryCount message session w = (o, w') /\ shell w w' /\
    match o with
    | Ok (Some res) =>
        exists skipped msgs, folded session w w' res skipped (r_totalSteps res) msgs
    | Ok None | Throw _ => heap w' = heap w
    end.
Proof.
  induction remaining as [|k IH]; intros retryCount message session w; simpl.
  - exists (Ok None), w. split; [reflexivity|]. split; [apply shell_refl|reflexivity].
  - destruct (attempt_spec message session w) as (o & w1 & Hrun & Hw & Hsl & Hpost).
    unfold try_catch at 1, bind at 1. rewrite Hrun.
    destruct o as [res|e]; cbn [ret].
    + eexists _, _. split; [reflexivity|]. split; [exact Hw|].
      destruct Hpost as (msgs & H). exists 0%nat, msgs. exact H.
    +
      destruct Hpost as (Hheap & n & Hn & Hmc & _).
      assert (Hnext : forall d,
        exists o w', bind (sleep d) (fun _ => retrying k (S retryCount) message session) w1 = (o, w')
          /\ shell w w' /\
          match o with
          | Ok (Some res) =>
              exists skipped msgs, folded session w w' res skipped (r_totalSteps res) msgs
          | Ok None | Throw _ => heap w' = heap w
          end).
      { intros d. unfold bind at 1. simpl.
        destruct (IH (S retryCount) message session (with_sleeps (sleeps w1 ++ [d]) w1))
          as (o & w' & -> & Hw' & Hpost).
        exists o, w'. split; [reflexivity|].
        split; [eapply shell_trans; [exact Hw|exact Hw']|].
        destruct o as [[res|]|e']; simpl in *; try congruence.
        destruct Hpost as (skipped & msgs & H1 & H2 & H3 & H4 & H5 & H6).
        exists (S n + skipped)%nat, msgs. unfold folded.
        cbn [model_calls heap with_sleeps] in H3, H4, H5, H6.
        rewrite Hheap in H5, H6.
        replace (model_calls w + (S n + skipped))%nat
          with (model_calls w1 + skipped)%nat by lia.
        repeat split; assumption. }
      destruct (decide (status e = Some 529)); [apply Hnext|].
      destruct (decide (maxRetries <= S retryCount)%nat); [|apply Hnext].
      exists (Throw e), w1. split; [reflexivity|]. split; [exact Hw|exact Hheap].
Qed.

End AttemptFacts.

Section StoreFacts.
Context {env : Env}.

Lemma createSession_run w :
  exists w',
    createSession None w = (Ok (next_ref w), w') /\
    next_ref w' = S (next_ref w) /\
    sessions w' = <[uuidv4 (uuid_calls w) := next_ref w]> (sessions w) /\
    timers w' = timers w ++ [uuidv4 (uuid_calls w)] /\
    (forall r, heap w' r =
       if Nat.eqb r (next_ref w)
       then fresh_session (uuidv4 (uuid_calls w)) (clock (clock_reads w))
              (clock (S (clock_reads w)))
       else heap w r).
Proof. eexists. split; [reflexivity|]. simpl. repeat split. Qed.

Lemma getSession_found id r w :
  sessions w !! id = Some r ->
  exists w',
    getSession id w = (Ok (Some r), w') /\ shell w w' /\
    (forall r', heap w' r' = if Nat.eqb r' r then set_lastActivity (clock (clock_reads w)) (heap w r)
                             else heap w r').
Proof.
  intros H. unfold getSession, bind at 1, sessions_get. rewrite H.
  eexists. split; [reflexivity|]. simpl. split; [repeat split|]. reflexivity.
Qed.

Lemma getSession_missing id w :
  sessions w !! id = None -> getSession id w = (Ok None, w).
Proof. intros H. unfold getSession, bind at 1, sessions_get. rewrite H. reflexivity. Qed.

Lemma updateSession_found id u r w :
  sessions w !! id = Some r ->
  exists w',
    updateSession id u w = (Ok (Some r), w') /\ shell w w' /\
    (forall r', heap w' r' =
       if Nat.eqb r' r then set_lastActivity (clock (clock_reads w)) (assign (heap w r) u)
       else heap w r').
Proof.
  intros H. unfold updateSession, bind at 1, sessions_get. rewrite H.
  eexists. split; [reflexivity|]. simpl. split; [repeat split|].
  intros r'. destruct (Nat.eqb r' r) eqn:E; [|reflexivity].
  rewrite Nat.eqb_refl. reflexivity.
Qed.

(** [POST /api/prompt] once the session object is known to be the one
    the map holds under its id. *)
Lemma prompt_in_session_spec message r w :
  sessions w !! session_id (heap w r) = Some r ->
  exists o w', prompt_in_session message r w = (o, w') /\ shell w w' /\
    match o with
    | Ok reply =>
        exists p msgs t,
          reply = Prompted p /\
          (r_totalSteps (result p) <= maxIterations)%nat /\
          assistant_turns msgs
            = (assistant_turns (messages (heap w r)) + r_totalSteps (result p))%nat /\
          forall r', heap w' r' = if Nat.eqb r' r
                                  then fold_result (heap w r) msgs (result p) t
                                  else heap w r'
    | Throw e => heap w' = heap w
    end.
Proof.
  intros Hin. unfold prompt_in_session, processPromptWithMCP.
  destruct (retrying_spec maxRetries 0 message r w) as (o & w1 & Hrun & Hw1 & Hpost).
  unfold bind at 1. rewrite Hrun.
  destruct o as [[res|]|e].
  - destruct Hpost as (skipped & msgs & Hn & _ & _ & _ & Hturns & Hheap).
    rewrite (bind_ok _ _ _ _ _ (deref_run r w1)).
    assert (Hr : heap w1 r = set_messages msgs (heap w r))
      by (rewrite Hheap, Nat.eqb_refl; reflexivity).
    assert (Hin1 : sessions w1 !! session_id (heap w1 r) = Some r).
    { rewrite Hr. destruct Hw1 as (_ & -> & _). exact Hin. }
    destruct (updateSession_found _
      {| u_locatorHistory := Some (locatorHistory (heap w1 r) ++ locators res);
         u_totalSteps := Some (totalSteps (heap w1 r) + r_totalSteps res)%nat;
         u_context := Some (spread_context (context (heap w1 r)) (r_context res)) |}
      r w1 Hin1) as (w2 & Hup & Hw2 & Hheap2).
    rewrite (bind_ok _ _ _ _ _ Hup).
    rewrite (bind_ok _ _ _ _ _ (deref_run r w2)).
    rewrite (bind_ok _ _ _ _ _ (now_run w2)).
    eexists _, _. split; [reflexivity|].
    split; [eapply shell_trans; [exact Hw1|]; eapply shell_trans; [exact Hw2|repeat split]|].
    eexists _, msgs, (clock (clock_reads w1)).
    split; [reflexivity|]. cbn [result].
    split; [exact Hn|]. split; [exact Hturns|].
    intros r'. cbn [heap with_clock_reads]. rewrite Hheap2.
    destruct (Nat.eqb r' r) eqn:E.
    + rewrite Hr. reflexivity.
    + rewrite Hheap, E. reflexivity.
  - eexists _, _. split; [reflexivity|]. split; [exact Hw1|exact Hpost].
  - eexists _, _. split; [reflexivity|]. split; [exact Hw1|exact Hpost].
Qed.

End StoreFacts.

Lemma touched_refl s : touched s s.
Proof. destruct s; reflexivity. Qed.

Lemma touched_set t s : touched s (set_lastActivity t s).
Proof. reflexivity. Qed.

Lemma touched_fields s s' :
  touched s s' <->
  session_id s' = session_id s /\ createdAt s' = createdAt s /\
  messages s' = messages s /\ context s' = context s /\
  locatorHistory s' = locatorHistory s /\ totalSteps s' = totalSteps s.
Proof.
  unfold touched. split.
  - intros ->. simpl. repeat split.
  - destruct s, s'; simpl. intros (-> & -> & -> & -> & -> & ->). reflexivity.
Qed.

Section Invariant.
Context {env : Env}.

Lemma consistent_initial : consistent initial_world.
Proof. intros k r H. simpl in H. rewrite lookup_empty in H. discriminate. Qed.

(** A change of the objects that keeps ids, and step counts in line with
    histories, keeps the world consistent. *)
Lemma consistent_objects w w' :
  consistent w -> next_ref w' = next_ref w -> sessions w' = sessions w ->
  (forall k r, sessions w !! k = Some r ->
     session_id (heap w' r) = session_id (heap w r) /\
     totalSteps (heap w' r) = assistant_turns (messages (heap w' r))) ->
  consistent w'.
Proof.
  intros Hc Hn Hs Hobj k r Hk. rewrite Hs in Hk.
  destruct (Hc k r Hk) as (Hlt & Hid & _). destruct (Hobj k r Hk) as [Hid' Hst].
  rewrite Hn. repeat split; [exact Hlt|congruence|exact Hst].
Qed.

Lemma consistent_touched w w' :
  consistent w -> next_ref w' = next_ref w -> sessions w' = sessions w ->
  (forall r, touched (heap w r) (heap w' r)) -> consistent w'.
Proof.
  intros Hc Hn Hs Ht. apply (consistent_objects w w' Hc Hn Hs).
  intros k r Hk. destruct (Hc k r Hk) as (_ & _ & Hst).
  destruct (proj1 (touched_fields _ _) (Ht r)) as (-> & _ & -> & _ & _ & ->). auto.
Qed.

Lemma consistent_delete id w w' :
  consistent w -> next_ref w' = next_ref w -> heap w' = heap w ->
  sessions w' = delete id (sessions w) -> consistent w'.
Proof.
  intros Hc Hn Hh Hs k r Hk. rewrite Hs in Hk.
  apply lookup_delete_Some in Hk as [_ Hk]. rewrite Hn, Hh. exact (Hc k r Hk).
Qed.

Lemma consistent_create w :
  consistent w -> consistent (createSession None w).2.
Proof.
  intros Hc. destruct (createSession_run w) as (w' & Hrun & Hn & Hs & _ & Hh).
  rewrite Hrun. simpl. intros k r Hk. rewrite Hs in Hk. rewrite Hn, Hh.
  destruct (decide (uuidv4 (uuid_calls w) = k)) as [<-|Hne].
  - rewrite lookup_insert_eq in Hk. injection Hk as <-.
    rewrite Nat.eqb_refl. simpl. repeat split. lia.
  - rewrite lookup_insert_ne in Hk by exact Hne.
    destruct (Hc k r Hk) as (Hlt & Hid & Hst).
    replace (Nat.eqb r (next_ref w)) with false by (symmetry; apply Nat.eqb_neq; lia).
    repeat split; [lia|exact Hid|exact Hst].
Qed.

Lemma getSession_touches id w :
  exists o w', getSession id w = (Ok o, w') /\ shell w w' /\
    (forall r, touched (heap w r) (heap w' r)) /\
    o = sessions w !! id.
Proof.
  destruct (sessions w !! id) as [r|] eqn:H.
  - destruct (getSession_found id r w H) as (w' & Hrun & Hw & Hh).
    exists (Some r), w'. repeat split; try apply Hw; [exact Hrun|].
    intros r'. rewrite Hh. destruct (Nat.eqb r' r) eqn:E.
    + apply Nat.eqb_eq in E as ->. apply touched_set.
    + apply touched_refl.
  - exists None, w. rewrite (getSession_missing id w H).
    repeat split. intros r. apply touched_refl.
Qed.

Lemma consistent_getSession id w :
  consistent w -> consistent (getSession id w).2.
Proof.
  intros Hc. destruct (getSession_touches id w) as (o & w' & Hrun & Hw & Ht & _).
  rewrite Hrun. simpl. destruct Hw as (Hn & Hs & _).
  exact (consistent_touched w w' Hc Hn Hs Ht).
Qed.

Lemma sweep_run id w :
  sweep id w =
  match sessions w !! id with
  | Some r =>
      if decide (clock (clock_reads w) - lastActivity (heap w r) > sessionTimeout)
      then (Ok tt, with_sessions (delete id (sessions w))
                     (with_clock_reads (S (clock_reads w)) w))
      else (Ok tt, with_clock_reads (S (clock_reads w)) w)
  | None => (Ok tt, w)
  end.
Proof.
  unfold sweep, bind at 1, sessions_get.
  destruct (sessions w !! id) as [r|]; [|reflexivity].
  rewrite (bind_ok _ _ _ _ _ (now_run w)).
  rewrite (bind_ok _ _ _ _ _ (deref_run r _)). cbn [heap with_clock_reads].
  destruct (decide _); reflexivity.
Qed.

Lemma consistent_sweep id w : consistent w -> consistent (sweep id w).2.
Proof.
  intros Hc. rewrite sweep_run. destruct (sessions w !! id) as [r|]; [|exact Hc].
  destruct (decide _); simpl.
  - eapply (consistent_delete id w); [exact Hc|reflexivity..].
  - exact Hc.
Qed.

End Invariant.

Section PromptFacts.
Context {env : Env}.

Lemma continued_consistent w r w1 :
  consistent w -> continued w r w1 -> consistent w1.
Proof.
  intros Hc (_ & (Hn & Hs & _) & Hh).
  apply (consistent_touched w w1 Hc Hn Hs).
  intros r'. rewrite Hh. destruct (Nat.eqb r' r) eqn:E.
  - apply Nat.eqb_eq in E as ->. apply touched_set.
  - apply touched_refl.
Qed.

Lemma created_consistent w r w1 :
  consistent w -> created w r w1 -> consistent w1.
Proof.
  intros Hc (-> & Hn & Hs & _ & Hh) k r' Hk. rewrite Hs in Hk. rewrite Hn, Hh.
  destruct (decide (uuidv4 (uuid_calls w) = k)) as [<-|Hne].
  - rewrite lookup_insert_eq in Hk. injection Hk as <-.
    rewrite Nat.eqb_refl. simpl. repeat split. lia.
  - rewrite lookup_insert_ne in Hk by exact Hne.
    destruct (Hc k r' Hk) as (Hlt & Hid & Hst).
    replace (Nat.eqb r' (next_ref w)) with false by (symmetry; apply Nat.eqb_neq; lia).
    repeat split; [lia|exact Hid|exact Hst].
Qed.

(** Whichever way the session was obtained, the map holds it under its
    own id. *)
Lemma resolve_session_spec body w :
  consistent w ->
  exists o w1, resolve_session body w = (Ok o, w1) /\
    match o with
    | None => w1 = w
    | Some r => (continued w r w1 \/ created w r w1) /\
                sessions w1 !! session_id (heap w1 r) = Some r
    end.
Proof.
  intros Hc. unfold resolve_session.
  destruct (truthy_opt (sessionId body) && truthy_opt (continueSession body)).
  - destruct (sessionId body) as [[ | | |id| | ]|];
      try (exists None, w; split; reflexivity).
    destruct (sessions w !! id) as [r|] eqn:Hid.
    + destruct (getSession_found id r w Hid) as (w1 & Hrun & Hw & Hh).
      exists (Some r), w1. split; [exact Hrun|].
      destruct (Hc id r Hid) as (Hlt & Hsid & _).
      split; [left; repeat split; try apply Hw; assumption|].
      rewrite Hh, Nat.eqb_refl. simpl. rewrite Hsid.
      destruct Hw as (_ & -> & _). exact Hid.
    + exists None, w. split; [apply getSession_missing, Hid|reflexivity].
  - destruct (createSession_run w) as (w1 & Hrun & Hn & Hs & Ht & Hh).
    rewrite (bind_ok _ _ _ _ _ Hrun).
    exists (Some (next_ref w)), w1. split; [reflexivity|].
    split; [right; repeat split; assumption|].
    rewrite Hh, Nat.eqb_refl. simpl. rewrite Hs. apply lookup_insert_eq.
Qed.

Lemma post_prompt_spec body w :
  consistent w ->
  exists reply w', post_prompt body w = (Ok reply, w') /\ prompt_effect w reply w'.
Proof.
  intros Hc. unfold post_prompt, try_catch, prompt_try.
  assert (Hrefuse : forall code msg,
    exists reply w', (Ok (Failure code msg), w) = (Ok reply, w') /\ prompt_effect w reply w')
    by (intros code msg; eexists _, _; split; [reflexivity|]; left; eauto).
  destruct (prompt body) as [[ |[]|n|text| | ]|]; simpl; try apply Hrefuse.
  - destruct (negb (n =? 0)); simpl; apply Hrefuse.
  - destruct (is_empty text || is_empty (trim text)); [apply Hrefuse|].
    destruct (resolve_session_spec body w Hc) as (o & w1 & Hres & Ho).
    rewrite (bind_ok _ _ _ _ _ Hres).
    destruct o as [r|]; [|subst w1; apply Hrefuse].
    destruct Ho as [Hhow Hin].
    destruct (prompt_in_session_spec text r w1 Hin) as (o & w' & Hrun & Hw & Hpost).
    rewrite Hrun.
    destruct o as [reply|e].
    + eexists _, _. split; [reflexivity|]. right. exists r, w1.
      split; [exact Hhow|]. split; [exact Hw|]. right. exact Hpost.
    + eexists _, _. split; [reflexivity|]. right. exists r, w1.
      split; [exact Hhow|]. split; [exact Hw|]. left. split; [reflexivity|exact Hpost].
Qed.

End PromptFacts.

Section EventFacts.
Context {env : Env}.

Lemma prompt_effect_consistent w reply w' :
  consistent w -> prompt_effect w reply w' -> consistent w'.
Proof.
  intros Hc [(code & msg & _ & ->)|(r & w1 & Hhow & (Hn & Hs & _) & Hpost)]; [exact Hc|].
  assert (Hc1 : consistent w1)
    by (destruct Hhow; [eapply continued_consistent|eapply created_consistent]; eauto).
  destruct Hpost as [[_ Hh]|(p & msgs & t & _ & _ & Hturns & Hh)].
  - apply (consistent_touched w1 w' Hc1 Hn Hs). intros r'. rewrite Hh. apply touched_refl.
  - apply (consistent_objects w1 w' Hc1 Hn Hs). intros k r' Hk. rewrite Hh.
    destruct (Nat.eqb r' r) eqn:E; [|split; [reflexivity|apply (Hc1 k r' Hk)]].
    apply Nat.eqb_eq in E as ->. simpl. split; [reflexivity|].
    destruct (Hc1 k r Hk) as (_ & _ & ->). lia.
Qed.

Lemma handle_session_world id w :
  (handle (GetSession id) w).2 = (getSession id w).2 /\
  (handle (GetHistory id) w).2 = (getSession id w).2.
Proof.
  unfold handle, get_session_info, get_history, bind at 1 3.
  destruct (getSession id w) as [[[r|]|e] w']; split; reflexivity.
Qed.

Lemma handle_create_world w :
  (handle PostSessionCreate w).2 = (createSession None w).2.
Proof.
  unfold handle. destruct (createSession_run w) as (w' & Hrun & _).
  rewrite (bind_ok _ _ _ _ _ Hrun), Hrun. reflexivity.
Qed.

Lemma handle_delete_world id w :
  (handle (DeleteSession id) w).2 = with_sessions (delete id (sessions w)) w.
Proof.
  unfold handle, delete_session, bind, deleteSession.
  destruct (bool_decide _); reflexivity.
Qed.

Lemma fire_timer_world n w :
  (fire_timer n w).2 =
  match timers w !! n with
  | Some id => (sweep id (with_timers (take n (timers w) ++ drop (S n) (timers w)) w)).2
  | None => w
  end.
Proof. unfold fire_timer. destruct (timers w !! n); reflexivity. Qed.

Lemma step_consistent e w : consistent w -> consistent (step e w).
Proof.
  intros Hc. destruct e as [[ | |id| |id|body| |id]|n]; unfold step.
  - exact Hc.
  - rewrite handle_create_world. apply consistent_create, Hc.
  - rewrite (proj1 (handle_session_world id w)). apply consistent_getSession, Hc.
  - exact Hc.
  - rewrite handle_delete_world.
    apply (consistent_delete id w); [exact Hc|reflexivity..].
  - destruct (post_prompt_spec body w Hc) as (reply & w' & Hrun & Heff).
    change (handle (PostPrompt body) w) with (post_prompt body w). rewrite Hrun.
    exact (prompt_effect_consistent w reply w' Hc Heff).
  - exact Hc.
  - rewrite (proj2 (handle_session_world id w)). apply consistent_getSession, Hc.
  - rewrite fire_timer_world. destruct (timers w !! n) as [id|]; [|exact Hc].
    apply consistent_sweep. exact Hc.
Qed.

Lemma reachable_consistent w : reachable w -> consistent w.
Proof.
  induction 1 as [|e w _ IH]; [apply consistent_initial|apply step_consistent, IH].
Qed.

End EventFacts.

Lemma trim_all_space s : all_space s = true -> trim s = EmptyString.
Proof.
  unfold trim. induction s as [|c r IH]; simpl; [reflexivity|].
  intros [Hc Hr]%andb_prop. rewrite Hc. apply IH, Hr.
Qed.

Section Claims.
Context {env : Env}.

(** C10.  A request to [POST /api/prompt] whose prompt is absent, empty or
    only white space is answered with status 400 and the error
    'Prompt is required', and the world, the session store included, is
    exactly as before: no session was looked up or created. *)
Theorem blank_prompt_rejected body w :
  blank (prompt body) ->
  handle (PostPrompt body) w = (Ok (Failure 400 "Prompt is required"), w).
Proof.
  intros [Hp|(s & Hp & Hs)]; unfold handle, post_prompt, try_catch, prompt_try; rewrite Hp.
  - reflexivity.
  - rewrite (trim_all_space s Hs). cbn [is_empty String.eqb].
    rewrite orb_true_r. reflexivity.
Qed.

Lemma listed_ids w all w' :
  consistent w -> getAllSessions w = (Ok all, w') ->
  forall s, In s all -> is_Some (sessions w !! sum_id s).
Proof.
  intros Hc [= <- _] s Hs. apply in_map_iff in Hs as ([k r] & <- & Hin).
  apply list_elem_of_In, elem_of_map_to_list in Hin. simpl.
  destruct (Hc k r Hin) as (_ & -> & _). eauto.
Qed.

Lemma prompt_effect_objects w reply w' r :
  prompt_effect w reply w' -> (r < next_ref w)%nat ->
  touched (heap w r) (heap w' r) \/
  exists p msgs t, reply = Prompted p /\
    assistant_turns msgs
      = (assistant_turns (messages (heap w r)) + r_totalSteps (result p))%nat /\
    heap w' r = fold_result (heap w r) msgs (result p) t.
Proof.
  intros [(code & msg & _ & ->)|(r0 & w1 & Hhow & _ & Hpost)] Hr;
    [left; apply touched_refl|].
  assert (H1 : touched (heap w r) (heap w1 r)).
  { destruct Hhow as [(_ & _ & Hh)|(-> & _ & _ & _ & Hh)]; rewrite Hh.
    - destruct (Nat.eqb r r0) eqn:E; [|apply touched_refl].
      apply Nat.eqb_eq in E as ->. apply touched_set.
    - replace (Nat.eqb r (next_ref w)) with false by (symmetry; apply Nat.eqb_neq; lia).
      apply touched_refl. }
  destruct Hpost as [[_ Hh]|(p & msgs & t & -> & _ & Hturns & Hh)].
  - left. rewrite Hh. exact H1.
  - rewrite Hh. destruct (Nat.eqb r r0) eqn:E; [|left; exact H1].
    apply Nat.eqb_eq in E as ->. right. exists p, msgs, t.
    apply touched_fields in H1 as (Hid & Hcr & Hm & Hctx & Hl & Hst).
    split; [reflexivity|]. split; [rewrite <- Hm; exact Hturns|].
    unfold fold_result. rewrite Hid, Hcr, Hctx, Hl, Hst. reflexivity.
Qed.

Lemma prompt_effect_sessions w reply w' :
  prompt_effect w reply w' ->
  sessions w' = sessions w /\ timers w' = timers w /\ next_ref w' = next_ref w \/
  sessions w' = <[uuidv4 (uuid_calls w) := next_ref w]> (sessions w) /\
  timers w' = timers w ++ [uuidv4 (uuid_calls w)] /\ next_ref w' = S (next_ref w).
Proof.
  intros [(code & msg & _ & ->)|(r0 & w1 & Hhow & (Hn & Hs & Ht & _) & _)];
    [left; repeat split|].
  destruct Hhow as [(_ & (Hn1 & Hs1 & Ht1 & _) & _)|(-> & Hn1 & Hs1 & Ht1 & _)].
  - left. repeat split; congruence.
  - right. repeat split; congruence.
Qed.

(** Sweeps are scheduled at the creation of a session and nowhere else:
    an event leaves the pending sweeps as they are, or is the firing of
    one, which removes it, or creates one session and appends its sweep. *)
Lemma step_timers e w :
  consistent w ->
  timers (step e w) = timers w /\ next_ref (step e w) = next_ref w \/
  (exists n, e = TimerFires n /\
             timers (step e w) = take n (timers w) ++ drop (S n) (timers w)) \/
  (exists id, timers (step e w) = timers w ++ [id] /\
              sessions (step e w) !! id = Some (next_ref w) /\
              next_ref (step e w) = S (next_ref w)).
Proof.
  intros Hc. destruct e as [[ | |id| |id|body| |id]|n]; unfold step.
  - left. split; reflexivity.
  - right. right. rewrite handle_create_world.
    destruct (createSession_run w) as (w' & -> & Hn & Hs & Ht & _).
    exists (uuidv4 (uuid_calls w)). cbn [snd]. rewrite Hs, lookup_insert_eq. auto.
  - left. rewrite (proj1 (handle_session_world id w)).
    destruct (getSession_touches id w) as (o & w' & -> & (Hn & _ & Ht & _) & _). auto.
  - left. split; reflexivity.
  - left. rewrite handle_delete_world. split; reflexivity.
  - destruct (post_prompt_spec body w Hc) as (reply & w' & Hrun & Heff).
    change (handle (PostPrompt body) w) with (post_prompt body w). rewrite Hrun.
    destruct (prompt_effect_sessions w reply w' Heff)
      as [(_ & Ht & Hn)|(Hs & Ht & Hn)]; [left; auto|].
    right. right. exists (uuidv4 (uuid_calls w)). cbn [snd].
    rewrite Hs, lookup_insert_eq. auto.
  - left. split; reflexivity.
  - left. rewrite (proj2 (handle_session_world id w)).
    destruct (getSession_touches id w) as (o & w' & -> & (Hn & _ & Ht & _) & _). auto.
  - rewrite fire_timer_world. destruct (timers w !! n) as [id|] eqn:Hn;
      [|left; split; reflexivity].
    right. left. exists n. split; [reflexivity|].
    rewrite sweep_run. cbn [sessions with_timers].
    destruct (sessions w !! id); [|reflexivity]. destruct (decide _); reflexivity.
Qed.

(** C8.  Creating a session hands exactly one sweep of that session to the
    timer, and no other event schedules a sweep.  When the sweep of a
    stored session fires, the session is removed if its idle time, the
    clock minus its last activity, exceeds the timeout of 30 minutes, and
    is left in place, untouched, otherwise.
    So a session idle for longer than the timeout is not listed after its
    sweep, and one fetched just before its sweep survives it. *)
Theorem sweep_removes_only_idle w :
  consistent w ->
  (exists id, timers (step (Http PostSessionCreate) w) = timers w ++ [id] /\
              sessions (step (Http PostSessionCreate) w) !! id = Some (next_ref w)) /\
  (forall e,
     timers (step e w) = timers w /\ next_ref (step e w) = next_ref w \/
     (exists n, e = TimerFires n /\
                timers (step e w) = take n (timers w) ++ drop (S n) (timers w)) \/
     (exists id, timers (step e w) = timers w ++ [id] /\
                 sessions (step e w) !! id = Some (next_ref w) /\
                 next_ref (step e w) = S (next_ref w))) /\
  (forall n id r, timers w !! n = Some id -> sessions w !! id = Some r ->
     let w' := step (TimerFires n) w in
     let idle := clock (clock_reads w) - lastActivity (heap w r) in
     heap w' = heap w /\
     timers w' = take n (timers w) ++ drop (S n) (timers w) /\
     (forall k, k <> id -> sessions w' !! k = sessions w !! k) /\
     (idle > sessionTimeout ->
        sessions w' !! id = None /\
        forall all w'', getAllSessions w' = (Ok all, w'') ->
                        forall s, In s all -> sum_id s <> id) /\
     (idle <= sessionTimeout -> sessions w' !! id = Some r)) /\
  (forall n id r, timers w !! n = Some id -> sessions w !! id = Some r ->
     clock (S (clock_reads w)) - clock (clock_reads w) <= sessionTimeout ->
     sessions (run [Http (GetSession id); TimerFires n] w) !! id = Some r).
Proof.
  intros Hc. split; [|split; [|split]].
  - unfold step. rewrite handle_create_world.
    destruct (createSession_run w) as (w' & Hrun & _ & Hs & Ht & _). rewrite Hrun.
    exists (uuidv4 (uuid_calls w)). simpl. split; [exact Ht|].
    rewrite Hs. apply lookup_insert_eq.
  - intros e. apply step_timers, Hc.
  - intros n id r Hn Hid w' idle. subst w' idle. unfold step.
    rewrite fire_timer_world, Hn, sweep_run. cbn [sessions with_timers heap clock_reads].
    rewrite Hid. destruct (decide _) as [Hidle|Hidle]; cbn.
    + split; [reflexivity|]. split; [reflexivity|].
      split; [intros k Hk; apply lookup_delete_ne; congruence|].
      split; [|lia]. intros _. split; [apply lookup_delete_eq|].
      intros all w'' Hall s Hs Heq.
      eapply (listed_ids _ all w'') in Hs as [r' Hr']; [| |exact Hall].
      * cbn in Hr'. rewrite Heq, lookup_delete_eq in Hr'. discriminate.
      * apply (consistent_delete id w); [exact Hc|reflexivity..].
    + split; [reflexivity|]. split; [reflexivity|]. split; [reflexivity|].
      split; [lia|]. intros _. exact Hid.
  - intros n id r Hn Hid Hclock. unfold run. cbn [foldl]. unfold step at 2.
    rewrite (proj1 (handle_session_world id w)).
    destruct (getSession_found id r w Hid) as (w1 & Hrun & (_ & Hs & Ht & _) & Hh).
    rewrite Hrun. cbn [snd]. unfold step.
    rewrite fire_timer_world, Ht, Hn, sweep_run. cbn [sessions with_timers heap clock_reads].
    rewrite Hs, Hid, Hh, Nat.eqb_refl. cbn [lastActivity set_lastActivity].
    assert (Hcr : clock_reads w1 = S (clock_reads w)).
    { unfold getSession, bind at 1, sessions_get in Hrun. rewrite Hid in Hrun.
      injection Hrun as <-. reflexivity. }
    rewrite Hcr. destruct (decide _) as [Hidle|_]; [lia|].
    cbn. rewrite Hs. exact Hid.
Qed.

(** C9, as the code has it.  A session object is changed in three ways
    only.  [updateSession] assigns the fields it is given and refreshes the
    last-activity timestamp.  [getSession], the read operation, refreshes
    the last-activity timestamp too and leaves every other field as it was.
    A run of [processPromptWithMCP] that returns a result assigns the
    history of the session directly, without [updateSession].  Accordingly
    a request for a session or for its history changes at most the
    timestamps of the objects, a prompt request changes at most the
    timestamp or folds one result into the object, and every other event
    leaves every object exactly as it was. *)
Theorem session_objects_change_in_three_ways w :
  consistent w ->
  (forall id u r, sessions w !! id = Some r ->
     heap (updateSession id u w).2 r
       = set_lastActivity (clock (clock_reads w)) (assign (heap w r) u)) /\
  (forall id r, sessions w !! id = Some r ->
     heap (getSession id w).2 r = set_lastActivity (clock (clock_reads w)) (heap w r)) /\
  (forall message r res w', processPromptWithMCP message r w = (Ok (Some res), w') ->
     exists msgs, forall r', heap w' r' = if Nat.eqb r' r then set_messages msgs (heap w r)
                                          else heap w r') /\
  (forall e r, (r < next_ref w)%nat ->
     match e with
     | Http (GetSession _) | Http (GetHistory _) => touched (heap w r) (heap (step e w) r)
     | Http (PostPrompt _) =>
         touched (heap w r) (heap (step e w) r) \/
         exists msgs res t, heap (step e w) r = fold_result (heap w r) msgs res t
     | _ => heap (step e w) r = heap w r
     end).
Proof.
  intros Hc. split; [|split; [|split]].
  - intros id u r Hid.
    destruct (updateSession_found id u r w Hid) as (w' & -> & _ & Hh).
    simpl. rewrite Hh, Nat.eqb_refl. reflexivity.
  - intros id r Hid.
    destruct (getSession_found id r w Hid) as (w' & -> & _ & Hh).
    simpl. rewrite Hh, Nat.eqb_refl. reflexivity.
  - intros message r res w' Hrun. unfold processPromptWithMCP in Hrun.
    destruct (retrying_spec maxRetries 0 message r w) as (o & w1 & Hrun1 & _ & Hpost).
    rewrite Hrun in Hrun1. injection Hrun1 as <- <-.
    destruct Hpost as (skipped & msgs & _ & _ & _ & _ & _ & Hh). exists msgs. exact Hh.
  - intros e r Hr. destruct e as [[ | |id| |id|body| |id]|n]; unfold step.
    + reflexivity.
    + rewrite handle_create_world.
      destruct (createSession_run w) as (w' & -> & _ & _ & _ & Hh). simpl.
      rewrite Hh.
      replace (Nat.eqb r (next_ref w)) with false by (symmetry; apply Nat.eqb_neq; lia).
      reflexivity.
    + rewrite (proj1 (handle_session_world id w)).
      destruct (getSession_touches id w) as (o & w' & -> & _ & Ht & _). apply Ht.
    + reflexivity.
    + rewrite handle_delete_world. reflexivity.
    + destruct (post_prompt_spec body w Hc) as (reply & w' & Hrun & Heff).
      change (handle (PostPrompt body) w) with (post_prompt body w). rewrite Hrun.
      destruct (prompt_effect_objects w reply w' r Heff Hr)
        as [Ht|(p & msgs & t & _ & _ & Hh)]; [left; exact Ht|right; eauto].
    + reflexivity.
    + rewrite (proj2 (handle_session_world id w)).
      destruct (getSession_touches id w) as (o & w' & -> & _ & Ht & _). apply Ht.
    + rewrite fire_timer_world. destruct (timers w !! n) as [id|]; [|reflexivity].
      rewrite sweep_run. cbn [sessions with_timers].
      destruct (sessions w !! id); [|reflexivity]. destruct (decide _); reflexivity.
Qed.

Lemma stored_consistent w id s :
  consistent w -> stored w id = Some s ->
  totalSteps s = assistant_turns (messages s).
Proof.
  unfold stored. intros Hc Hs. destruct (sessions w !! id) as [r|] eqn:Hr; [|discriminate].
  injection Hs as <-. apply (Hc id r Hr).
Qed.

(** With a first reply that asks for one tool call and a second that asks
    for none, the run takes two rounds. *)
Lemma one_tool_call_two_rounds message session w id name input content :
  model_reply (model_calls w) = Ok [ToolUseBlock id name input] ->
  (forall w1, model_calls w1 = S (model_calls w) -> model_reply (model_calls w1) = Ok content) ->
  tool_uses content = [] ->
  exists res w', processPromptWithMCP message session w = (Ok (Some res), w') /\
                 r_totalSteps res = 2%nat.
Proof.
  intros H1 H2 Hnone.
  unfold processPromptWithMCP, maxRetries. cbn [retrying].
  unfold try_catch, bind at 1, attempt.
  rewrite (bind_ok _ _ _ _ _ (deref_run session w)).
  set (l0 := {| l_messages := _ |}).
  destruct (round_ok l0 w _ H1) as (l1 & w1 & results & Hr1 & _ & Hmc1 & Hit1 & _ & _ & Hmsg1).
  cbn in Hmsg1. destruct Hmsg1 as [Hcc1 _].
  destruct (round_ok l1 w1 content (H2 w1 Hmc1))
    as (l2 & w2 & results2 & Hr2 & _ & _ & Hit2 & _ & _ & Hmsg2).
  rewrite Hnone in Hmsg2. destruct Hmsg2 as [Hcc2 _].
  assert (Hconv : conversation maxIterations l0 w = (Ok l2, w2)).
  { unfold maxIterations. cbn [conversation]. cbn [conversationComplete l0].
    rewrite (bind_ok _ _ _ _ _ Hr1), Hcc1, (bind_ok _ _ _ _ _ Hr2), Hcc2. reflexivity. }
  rewrite (bind_ok _ _ _ _ _ Hconv).
  eexists _, _. split; [reflexivity|]. cbn [r_totalSteps]. rewrite Hit2, Hit1. reflexivity.
Qed.

(** What [accumulated] is empty means: no reply carried text. *)
Lemma accumulate_empty a b :
  accumulate a b = EmptyString <-> a = EmptyString /\ b = EmptyString.
Proof.
  unfold accumulate, is_empty. split.
  - destruct b as [|c b]; cbn [String.eqb]; [auto|].
    destruct a as [|c' a]; cbn; discriminate.
  - intros [-> ->]. reflexivity.
Qed.

Lemma accumulated_empty n : forall start from,
  accumulated start from n = EmptyString <->
  start = EmptyString /\ forall i, (i < n)%nat -> text_at (from + i) = EmptyString.
Proof.
  induction n as [|n IH]; intros start from.
  - cbn. split; [intros ->; split; [reflexivity|lia]|tauto].
  - rewrite <- accumulated_step, IH, accumulate_empty. split.
    + intros [[-> H0] H]. split; [reflexivity|]. intros [|i] Hi.
      * rewrite Nat.add_0_r. exact H0.
      * replace (from + S i)%nat with (S from + i)%nat by lia. apply H. lia.
    + intros [-> H]. split; [split; [reflexivity|]|].
      * rewrite <- (Nat.add_0_r from). apply H. lia.
      * intros i Hi. replace (S from + i)%nat with (from + S i)%nat by lia. apply H. lia.
Qed.

(** Whatever the model service does, failures included, a call of
    [processPromptWithMCP] queries it at most 20 times per attempt, 60
    times in all. *)
Lemma retrying_calls_bound remaining : forall retryCount message session w,
  (model_calls (retrying remaining retryCount message session w).2
   <= model_calls w + remaining * maxIterations)%nat.
Proof.
  induction remaining as [|k IH]; intros retryCount message session w; [cbn; lia|].
  cbn [retrying].
  destruct (attempt_spec message session w) as (o & w1 & Hrun & _ & _ & Hpost).
  unfold try_catch, bind at 1. rewrite Hrun.
  destruct o as [res|e]; cbn [ret snd].
  - destruct Hpost as (msgs & Hn & _ & Hmc & _). lia.
  - destruct Hpost as (_ & n & Hn & Hmc & _).
    assert (Hnext : forall d,
      (model_calls (bind (sleep d) (fun _ => retrying k (S retryCount) message session) w1).2
       <= model_calls w + S k * maxIterations)%nat).
    { intros d. unfold bind at 1. cbn [sleep].
      pose proof (IH (S retryCount) message session (with_sleeps (sleeps w1 ++ [d]) w1)) as H.
      cbn [model_calls with_sleeps] in H. lia. }
    destruct (decide (status e = Some 529)); [apply Hnext|].
    destruct (decide _); [unfold throw; cbn [snd]; lia|apply Hnext].
Qed.

(** ** The retry budget *)

Lemma retrying_overloaded k retryCount message session w e :
  model_reply (model_calls w) = Throw e -> status e = Some 529 ->
  retrying (S k) retryCount message session w
  = retrying k (S retryCount) message session
      (with_sleeps (sleeps w ++ [Z.of_nat (S retryCount) * 2000])
         (with_model_calls (S (model_calls w)) w)).
Proof.
  intros Hreply Hst. cbn [retrying].
  rewrite (try_throw _ _ _ _ _
             (bind_throw _ _ _ _ _ (attempt_fails_at_once message session w e Hreply))).
  destruct (decide (status e = Some 529)); [reflexivity|contradiction].
Qed.

Lemma retrying_failed k retryCount message session w e :
  model_reply (model_calls w) = Throw e -> status e <> Some 529 ->
  retrying (S k) retryCount message session w
  = if decide (maxRetries <= S retryCount)%nat
    then (Throw e, with_model_calls (S (model_calls w)) w)
    else retrying k (S retryCount) message session
           (with_sleeps (sleeps w ++ [1000]) (with_model_calls (S (model_calls w)) w)).
Proof.
  intros Hreply Hst. cbn [retrying].
  rewrite (try_throw _ _ _ _ _
             (bind_throw _ _ _ _ _ (attempt_fails_at_once message session w e Hreply))).
  destruct (decide (status e = Some 529)); [contradiction|].
  destruct (decide _); reflexivity.
Qed.

(** The delays of a call: at most [remaining] of them, the i-th being one
    second or twice its rank in seconds. *)
Lemma retrying_delays remaining : forall retryCount message session w,
  exists delays,
    sleeps (retrying remaining retryCount message session w).2 = sleeps w ++ delays /\
    (length delays <= remaining)%nat /\
    forall i d, delays !! i = Some d ->
                d = 1000 \/ d = Z.of_nat (retryCount + i + 1) * 2000.
Proof.
  induction remaining as [|k IH]; intros retryCount message session w.
  - exists []. cbn. rewrite app_nil_r. split; [reflexivity|]. split; [lia|].
    intros i d H. rewrite lookup_nil in H. discriminate.
  - cbn [retrying].
    destruct (attempt_spec message session w) as (o & w1 & Hrun & _ & Hsl & _).
    unfold try_catch, bind at 1. rewrite Hrun.
    assert (Hnext : forall d0, d0 = 1000 \/ d0 = Z.of_nat (retryCount + 0 + 1) * 2000 ->
      exists delays,
        sleeps (bind (sleep d0) (fun _ => retrying k (S retryCount) message session) w1).2
          = sleeps w ++ delays /\
        (length delays <= S k)%nat /\
        forall i d, delays !! i = Some d ->
                    d = 1000 \/ d = Z.of_nat (retryCount + i + 1) * 2000).
    { intros d0 Hd0. unfold bind at 1. cbn [sleep].
      destruct (IH (S retryCount) message session (with_sleeps (sleeps w1 ++ [d0]) w1))
        as (delays & Heq & Hlen & Hd).
      exists (d0 :: delays). rewrite Heq. cbn [sleeps with_sleeps]. rewrite Hsl, <- app_assoc.
      split; [reflexivity|]. split; [simpl; lia|].
      intros [|i] d H; cbn in H.
      - injection H as <-. exact Hd0.
      - destruct (Hd i d H) as [-> | ->]; [left; reflexivity|right; f_equal; lia]. }
    destruct o as [res|e]; cbn.
    + exists []. rewrite app_nil_r. split; [congruence|]. split; [simpl; lia|].
      intros i d H. rewrite lookup_nil in H. discriminate.
    + destruct (decide (status e = Some 529)).
      * apply Hnext. right. f_equal. lia.
      * destruct (decide _); [|apply Hnext; left; reflexivity].
        exists []. cbn. rewrite app_nil_r. split; [congruence|]. split; [lia|].
        intros i d H. rewrite lookup_nil in H. discriminate.
Qed.

(** A service that is overloaded twice and then replies is within the
    budget: the call returns a result after delays of 2 and 4 seconds. *)
Lemma overloaded_twice_then_answers message session w e1 e2 :
  model_reply (model_calls w) = Throw e1 -> status e1 = Some 529 ->
  model_reply (S (model_calls w)) = Throw e2 -> status e2 = Some 529 ->
  (forall n, (2 <= n)%nat -> replies (model_calls w + n)) ->
  exists res w',
    processPromptWithMCP message session w = (Ok (Some res), w') /\
    sleeps w' = sleeps w ++ [2000; 4000].
Proof.
  intros H1 S1 H2 S2 Hlater. unfold processPromptWithMCP, maxRetries.
  erewrite retrying_overloaded; [|exact H1|exact S1].
  erewrite retrying_overloaded; [|exact H2|exact S2].
  cbn [model_calls with_sleeps with_model_calls sleeps retrying].
  set (w2 := with_sleeps _ _).
  destruct (attempt_spec message session w2) as (o & w' & Hrun & _ & Hsl & Hpost).
  unfold try_catch, bind at 1. rewrite Hrun. destruct o as [res|e].
  - exists res, w'. split; [reflexivity|]. rewrite Hsl. subst w2. cbn.
    rewrite <- app_assoc. reflexivity.
  - destruct Hpost as (_ & n & _ & _ & Hthrow). subst w2. cbn in Hthrow.
    destruct (Hlater (2 + n)%nat ltac:(lia)) as [content Hc].
    replace (model_calls w + (2 + n))%nat with (S (S (model_calls w + n))) in Hc by lia.
    congruence.
Qed.

(** A service that keeps failing otherwise has its third error thrown to
    the caller, after two delays of one second. *)
Lemma failing_service_throws message session w :
  (forall n, exists e, model_reply n = Throw e /\ status e <> Some 529) ->
  exists e w',
    processPromptWithMCP message session w = (Throw e, w') /\
    model_reply (model_calls w + 2) = Throw e /\
    sleeps w' = sleeps w ++ [1000; 1000].
Proof.
  intros Hfail. unfold processPromptWithMCP, maxRetries.
  destruct (Hfail (model_calls w)) as (e1 & H1 & S1).
  erewrite retrying_failed; [|exact H1|exact S1]. destruct (decide _) as [Hle|_]; [unfold maxRetries in Hle; lia|].
  destruct (Hfail (S (model_calls w))) as (e2 & H2 & S2).
  erewrite retrying_failed; [|exact H2|exact S2]. destruct (decide _) as [Hle|_]; [unfold maxRetries in Hle; lia|].
  destruct (Hfail (S (S (model_calls w)))) as (e3 & H3 & S3).
  erewrite retrying_failed; [|exact H3|exact S3]. destruct (decide _) as [_|Hgt]; [|unfold maxRetries in Hgt; lia].
  exists e3. eexists. split; [reflexivity|].
  split; [rewrite <- H3; f_equal; cbn; lia|]. cbn. rewrite <- app_assoc. reflexivity.
Qed.

(** C3, at the failing input.  Against a model service that is overloaded
    at every call, [processPromptWithMCP] makes three calls, waits 2, 4 and
    6 seconds, and then leaves its loop and returns [undefined]: it
    throws nothing.  The route then fails on reading [result.locators]. *)
Theorem always_overloaded_returns_undefined message session w :
  (forall n, exists e, model_reply n = Throw e /\ status e = Some 529) ->
  exists w',
    processPromptWithMCP message session w = (Ok None, w') /\
    model_calls w' = (model_calls w + 3)%nat /\
    sleeps w' = sleeps w ++ [2000; 4000; 6000] /\
    prompt_in_session message session w
    = (Throw (TypeError "Cannot read properties of undefined (reading 'locators')"), w').
Proof.
  intros Hover.
  assert (Hrun : exists w', processPromptWithMCP message session w = (Ok None, w') /\
            model_calls w' = (model_calls w + 3)%nat /\
            sleeps w' = sleeps w ++ [2000; 4000; 6000]).
  { unfold processPromptWithMCP, maxRetries.
    destruct (Hover (model_calls w)) as (e1 & H1 & S1).
    erewrite retrying_overloaded; [|exact H1|exact S1].
    destruct (Hover (S (model_calls w))) as (e2 & H2 & S2).
    erewrite retrying_overloaded; [|exact H2|exact S2].
    destruct (Hover (S (S (model_calls w)))) as (e3 & H3 & S3).
    erewrite retrying_overloaded; [|exact H3|exact S3].
    eexists. split; [reflexivity|]. cbn. split; [lia|].
    rewrite <- !app_assoc. reflexivity. }
  destruct Hrun as (w' & Hrun & Hmc & Hsl). exists w'.
  repeat split; try assumption.
  unfold prompt_in_session, bind. rewrite Hrun. reflexivity.
Qed.

End Claims.

(* ===================================================================== *)
(** * The bridge                                                          *)
(* ===================================================================== *)

Section BridgeFacts.
Context {env : Env}.

(** A listener resolves only with a record that carries the id of its
    request. *)
Lemma scan_matches id lines response :
  Bridge.scan id lines = inl response ->
  strict_eq_num (prop response "id") id = true.
Proof.
  induction lines as [|line rest IH]; [discriminate|].
  cbn [Bridge.scan]. destruct rest as [|next rest]; [discriminate|].
  destruct (is_empty (trim line)); [exact IH|].
  destruct (JSON_parse (trim line)) as [r|]; [|exact IH].
  destruct (strict_eq_num (prop r "id") id) eqn:E; [|exact IH].
  intros [= <-]. exact E.
Qed.

Lemma dataHandler_matches l data response :
  Bridge.dataHandler l data = inl response ->
  strict_eq_num (prop response "id") (Bridge.request_id l) = true.
Proof.
  unfold Bridge.dataHandler.
  destruct (Bridge.scan _ _) as [r|b] eqn:E; [|discriminate].
  intros [= <-]. exact (scan_matches _ _ _ E).
Qed.

(** The id [callTool] gives its request is the reading of the clock, and
    nothing else: two calls that read the same millisecond carry the same
    id. *)
Lemma callTool_id_is_clock name args w t :
  List.find (fun t => String.eqb (tool_name t) name) availableTools = Some t ->
  mcpServers (server t) = true ->
  tool_calls (callTool name args w).2
  = tool_calls w ++ [{| call_server := server t; call_id := clock (clock_reads w);
                        call_name := originalName t; call_arguments := args |}].
Proof.
  intros Hfind Hup. unfold callTool. rewrite Hfind, Hup. cbn [negb].
  rewrite (bind_ok _ _ _ _ _ (now_run w)). unfold bind, sendMCPRequest.
  cbn [rpc_calls tool_calls with_clock_reads].
  destruct (rpc_reply (rpc_calls w)) as [response|]; [|reflexivity].
  destruct (truthy_opt (field "result" response)); [reflexivity|].
  destruct (truthy_opt (field "error" response)); reflexivity.
Qed.

(** ** Records that arrive whole *)

Lemma split_lines_record line :
  Bridge.no_newline line = true ->
  split_lines (line +:+ String newline EmptyString) = [line; EmptyString].
Proof.
  induction line as [|c r IH]; [reflexivity|].
  cbn [Bridge.no_newline]. intros [Hc Hr]%andb_prop. apply negb_true_iff in Hc.
  change (String c r +:+ String newline EmptyString)
    with (String c (r +:+ String newline EmptyString)).
  cbn [split_lines]. rewrite Hc, (IH Hr). reflexivity.
Qed.

(** A listener with an empty buffer takes the record if the id is its
    own, and otherwise stays as it is. *)
Lemma dataHandler_record l line response k :
  Bridge.responseBuffer l = EmptyString ->
  Bridge.is_record line response k ->
  Bridge.dataHandler l (line +:+ String newline EmptyString)
  = if Z.eqb k (Bridge.request_id l) then inl response else inr l.
Proof.
  intros Hb (Hnl & Hne & Hparse & Hid). unfold Bridge.dataHandler.
  rewrite Hb.
  change (EmptyString +:+ (line +:+ String newline EmptyString))
    with (line +:+ String newline EmptyString).
  rewrite (split_lines_record line Hnl).
  cbn [Bridge.scan]. rewrite Hne, Hparse, Hid. cbn [strict_eq_num].
  destruct (Z.eqb k (Bridge.request_id l)); [reflexivity|].
  destruct l; cbn in *. subst. reflexivity.
Qed.

Lemma settle_keeps p s promises q v :
  promises !! q = Some v -> Bridge.settle p s promises !! q = Some v.
Proof.
  intros H. unfold Bridge.settle. destruct (promises !! p) eqn:E; [exact H|].
  rewrite lookup_insert_ne; [exact H|]. intros ->. congruence.
Qed.

Lemma settle_other p s promises q :
  p <> q -> Bridge.settle p s promises !! q = promises !! q.
Proof.
  intros H. unfold Bridge.settle. destruct (promises !! p); [reflexivity|].
  apply lookup_insert_ne, H.
Qed.

Lemma settle_pending p s promises :
  promises !! p = None -> Bridge.settle p s promises !! p = Some s.
Proof. intros H. unfold Bridge.settle. rewrite H. apply lookup_insert_eq. Qed.

(** A promise, once settled, stays as it is. *)
Lemma emit_keeps data ls : forall promises q v,
  promises !! q = Some v -> (Bridge.emit data ls promises).2 !! q = Some v.
Proof.
  induction ls as [|l rest IH]; intros promises q v H; cbn [Bridge.emit]; [exact H|].
  destruct (Bridge.dataHandler l data) as [response|l'].
  - apply IH, settle_keeps, H.
  - specialize (IH promises q v H). destruct (Bridge.emit data rest promises). exact IH.
Qed.

(** What one record does to listeners with empty buffers. *)
Lemma emit_record line response k ls : forall promises,
  Bridge.is_record line response k ->
  Forall (fun l => Bridge.responseBuffer l = EmptyString) ls ->
  NoDup (map Bridge.promise ls) ->
  let out := Bridge.emit (line +:+ String newline EmptyString) ls promises in
  out.1 = List.filter (fun l => negb (Z.eqb k (Bridge.request_id l))) ls /\
  (forall l, In l ls -> Bridge.request_id l = k -> promises !! Bridge.promise l = None ->
             out.2 !! Bridge.promise l = Some (Bridge.Resolved response)) /\
  (forall q, (forall l, In l ls -> Bridge.request_id l = k -> Bridge.promise l <> q) ->
             out.2 !! q = promises !! q).
Proof.
  intros promises Hrec. revert promises.
  induction ls as [|l rest IH]; intros promises Hb Hnd; cbn [Bridge.emit].
  - cbn. split; [reflexivity|]. split; [intros l []|reflexivity].
  - inversion Hb as [|? ? Hbl Hbrest]; subst. cbn [map] in Hnd.
    apply NoDup_cons in Hnd as [Hnotin Hnd].
    rewrite (dataHandler_record l line response k Hbl Hrec). cbn [List.filter].
    destruct (Z.eqb k (Bridge.request_id l)) eqn:E; cbn [negb].
    + apply Z.eqb_eq in E.
      destruct (IH (Bridge.settle (Bridge.promise l) (Bridge.Resolved response) promises)
                  Hbrest Hnd) as (Hls & Hres & Hoth).
      split; [exact Hls|]. split.
      * intros l0 [<-|Hin] Hid Hpend.
        -- apply emit_keeps, settle_pending, Hpend.
        -- apply Hres; [exact Hin|exact Hid|].
           rewrite settle_other; [exact Hpend|].
           intros Heq. apply Hnotin. rewrite Heq. apply list_elem_of_In, in_map, Hin.
      * intros q Hq. rewrite Hoth.
        -- apply settle_other, Hq; [left; reflexivity|symmetry; exact E].
        -- intros l0 Hin. apply Hq. right. exact Hin.
    + apply Z.eqb_neq in E.
      destruct (IH promises Hbrest Hnd) as (Hls & Hres & Hoth).
      destruct (Bridge.emit _ rest promises) as [rest' promises'] eqn:Hemit.
      cbn [fst snd] in *. split; [rewrite Hls; reflexivity|]. split.
      * intros l0 [<-|Hin] Hid Hpend; [congruence|]. apply Hres; assumption.
      * intros q Hq. apply Hoth. intros l0 Hin. apply Hq. right. exact Hin.
Qed.

Lemma deliver_keeps lines : forall s q v,
  Bridge.promises s !! q = Some v -> Bridge.promises (Bridge.deliver lines s) !! q = Some v.
Proof.
  induction lines as [|line rest IH]; intros s q v H; [exact H|].
  cbn [Bridge.deliver foldl]. apply IH. unfold Bridge.on_data.
  pose proof (emit_keeps (line +:+ String newline EmptyString) (Bridge.listeners s)
                (Bridge.promises s) q v H) as Hk.
  destruct (Bridge.emit _ _ _). exact Hk.
Qed.

Lemma promise_names_listener (ls : list Bridge.Listener) a b :
  NoDup (map Bridge.promise ls) -> In a ls -> In b ls ->
  Bridge.promise a = Bridge.promise b -> a = b.
Proof.
  induction ls as [|c ls IH]; intros Hnd Ha Hb Heq; [destruct Ha|].
  cbn [map] in Hnd. apply NoDup_cons in Hnd as [Hc Hnd].
  destruct Ha as [<-|Ha], Hb as [<-|Hb]; auto.
  - exfalso. apply Hc. rewrite Heq. apply list_elem_of_In, in_map, Hb.
  - exfalso. apply Hc. rewrite <- Heq. apply list_elem_of_In, in_map, Ha.
Qed.

(** Whatever the order in which the records of the server arrive, as long
    as no two of them carry the same id, a pending request resolves with
    the record that carries its own id. *)
Lemma each_request_gets_its_record records : forall s l line response,
  Forall (fun l => Bridge.responseBuffer l = EmptyString) (Bridge.listeners s) ->
  NoDup (map Bridge.promise (Bridge.listeners s)) ->
  Forall (fun rec => Bridge.is_record rec.1.1 rec.1.2 rec.2) records ->
  NoDup (map snd records) ->
  In l (Bridge.listeners s) -> Bridge.promises s !! Bridge.promise l = None ->
  In (line, response, Bridge.request_id l) records ->
  Bridge.promises (Bridge.deliver (map (fun rec => rec.1.1) records) s) !! Bridge.promise l
  = Some (Bridge.Resolved response).
Proof.
  induction records as [|[[line' response'] k] rest IH];
    intros s l line response Hb Hnd Hrecs Hids Hl Hpend Hin; [destruct Hin|].
  inversion Hrecs as [|? ? Hrec Hrest]; subst. cbn [fst snd] in Hrec.
  cbn [map snd] in Hids. apply NoDup_cons in Hids as [Hk Hids].
  destruct (emit_record line' response' k (Bridge.listeners s) (Bridge.promises s) Hrec Hb Hnd)
    as (Hls & Hres & Hoth).
  cbn [map Bridge.deliver foldl fst]. fold (Bridge.deliver (map (fun rec => rec.1.1) rest)).
  set (s1 := Bridge.on_data _ s).
  assert (Hs1 : Bridge.listeners s1
                = List.filter (fun l => negb (Z.eqb k (Bridge.request_id l))) (Bridge.listeners s)
                /\ Bridge.promises s1
                   = (Bridge.emit (line' +:+ String newline EmptyString)
                        (Bridge.listeners s) (Bridge.promises s)).2).
  { subst s1. unfold Bridge.on_data. rewrite <- Hls.
    destruct (Bridge.emit _ _ _). split; reflexivity. }
  destruct Hs1 as [Hl1 Hp1].
  destruct (Z.eq_dec (Bridge.request_id l) k) as [Heq|Hne].
  - destruct Hin as [Hhead|Htail].
    + injection Hhead as -> -> _. apply deliver_keeps. rewrite Hp1.
      apply Hres; assumption.
    + exfalso. apply Hk. rewrite <- Heq.
      apply list_elem_of_In. change (Bridge.request_id l) with (snd (line, response, Bridge.request_id l)).
      apply in_map, Htail.
  - destruct Hin as [Hhead|Htail]; [injection Hhead as _ _ Hk'; congruence|].
    apply (IH s1 l line response).
    + rewrite Hl1. apply Forall_forall. intros l0 Hl0.
      apply list_elem_of_In, filter_In in Hl0 as [Hl0 _].
      rewrite Forall_forall in Hb. apply Hb, list_elem_of_In, Hl0.
    + rewrite Hl1. clear -Hnd. induction (Bridge.listeners s) as [|a ls IHl]; [constructor|].
      cbn [map] in Hnd. apply NoDup_cons in Hnd as [Ha Hnd]. cbn [List.filter].
      destruct (negb _); [|apply IHl, Hnd].
      cbn [map]. apply NoDup_cons. split; [|apply IHl, Hnd].
      intros Hin. apply Ha. apply list_elem_of_In in Hin.
      apply in_map_iff in Hin as (b & Hb & Hin). apply filter_In in Hin as [Hin _].
      rewrite <- Hb. apply list_elem_of_In, in_map, Hin.
    + exact Hrest.
    + exact Hids.
    + rewrite Hl1. apply filter_In. split; [exact Hl|].
      apply negb_true_iff, Z.eqb_neq. congruence.
    + rewrite Hp1, Hoth; [exact Hpend|].
      intros l0 Hl0 Hid0 Hpeq. apply Hne.
      rewrite <- (promise_names_listener _ l0 l Hnd Hl0 Hl Hpeq). exact Hid0.
    + exact Htail.
Qed.

End BridgeFacts.

(** C1, at the failing input.  Two calls of [callTool] issued on one
    bridge in the same millisecond get the same id, so the id of the second
    is not unique among the pending requests; when the two records of the
    server arrive, both calls resolve with the first record, and the record
    meant for the second call reaches nobody. *)
Theorem same_millisecond_calls_share_an_id :
  let s1 := (@Bridge.callTool_send Cases.helpful Cases.instant "playwright_click"
               [("selector", JStr "#submit")] Bridge.spawned).2 in
  let s2 := (@Bridge.callTool_send Cases.helpful Cases.instant "playwright_navigate"
               [("url", JStr "https://example.com")] s1).2 in
  let s3 := @Bridge.on_data Cases.helpful Cases.two_records s2 in
  Bridge.pending_ids s1 = [Cases.instant] /\
  Bridge.pending_ids s2 = [Cases.instant; Cases.instant] /\
  Bridge.promises s3 !! 0%nat
    = Some (Bridge.Resolved (JObj [("id", JNum Cases.instant); ("result", JStr "clicked")])) /\
  Bridge.promises s3 !! 1%nat
    = Some (Bridge.Resolved (JObj [("id", JNum Cases.instant); ("result", JStr "clicked")])) /\
  Bridge.listeners s3 = [].
Proof. vm_compute. repeat split. Qed.

(** C10 at a prompt of three spaces. *)
Lemma blank_prompt_rejected_witness :
  blank (prompt (Demo.body "   ")) /\
  @handle Cases.helpful (PostPrompt (Demo.body "   ")) initial_world
  = (Ok (Failure 400 "Prompt is required"), initial_world).
Proof.
  assert (H : blank (prompt (Demo.body "   ")))
    by (right; eexists; split; reflexivity).
  split; [exact H|].
  exact (@blank_prompt_rejected Cases.helpful (Demo.body "   ") initial_world H).
Defined.

(** C8 at a session whose sweep fires 31 minutes after its creation. *)
Lemma sweep_removes_only_idle_witness :
  let w := @step Cases.late (Http PostSessionCreate) initial_world in
  consistent w /\
  sessions w !! "s0" = Some 0%nat /\
  sessions (@step Cases.late (TimerFires 0) w) !! "s0" = None.
Proof.
  intros w.
  assert (Hc : consistent w)
    by (apply (@step_consistent Cases.late), consistent_initial).
  split; [exact Hc|]. split; [reflexivity|].
  destruct (@sweep_removes_only_idle Cases.late w Hc) as (_ & _ & H & _).
  destruct (H 0%nat "s0" 0%nat eq_refl eq_refl) as (_ & _ & _ & Hgone & _).
  apply Hgone. reflexivity.
Defined.

(** C9, as stated, fails: fetching a session changes its record. *)
Lemma get_refreshes_activity :
  let w := @step Cases.helpful (Http PostSessionCreate) initial_world in
  let w' := @step Cases.helpful (Http (GetSession "s0")) w in
  lastActivity <$> stored w "s0" = Some 1001 /\
  lastActivity <$> stored w' "s0" = Some 1002 /\
  stored w' "s0" <> stored w "s0".
Proof.
  intros w w'. split; [reflexivity|]. split; [reflexivity|].
  intros H. apply (f_equal (fmap lastActivity)) in H. vm_compute in H. discriminate H.
Qed.

(** C9, as the code has it, at a session that is fetched once. *)
Lemma session_objects_change_in_three_ways_witness :
  let w := @step Cases.helpful (Http PostSessionCreate) initial_world in
  consistent w /\
  heap (@getSession Cases.helpful "s0" w).2 0%nat = set_lastActivity 1002 (heap w 0%nat).
Proof.
  intros w.
  assert (Hc : consistent w)
    by (apply (@step_consistent Cases.helpful), consistent_initial).
  split; [exact Hc|].
  destruct (@session_objects_change_in_three_ways Cases.helpful w Hc) as (_ & Hget & _).
  exact (Hget "s0" 0%nat eq_refl).
Defined.

(** C6, as stated, fails: a prompt without session id whose processing
    fails leaves the session it created in the store. *)
Lemma failed_prompt_leaves_a_session :
  let out := @handle Cases.down (PostPrompt (Demo.body "open the page")) initial_world in
  out.1 = Ok (Failure 500 "Internal server error") /\
  stored initial_world "s0" = None /\
  stored out.2 "s0" = Some (fresh_session "s0" 1000 1001) /\
  timers out.2 = ["s0"].
Proof. vm_compute. repeat split. Qed.

(** C4, as stated, fails: the run with one navigate call that succeeds
    returns [totalSteps = 2] and leaves a step count of 2 in the session,
    with one tool call made. *)
Lemma navigate_run_counts_two_steps :
  let out := @handle Cases.navigating
               (PostPrompt (Demo.body "navigate to example.com")) initial_world in
  (exists p, out.1 = Ok (Prompted p) /\ r_totalSteps (result p) = 2%nat /\
             r_totalSteps (result p) <> 1%nat) /\
  map call_name (tool_calls out.2) = ["playwright_navigate"] /\
  totalSteps <$> stored out.2 "s0" = Some 2%nat.
Proof.
  vm_compute. split; [|split; reflexivity].
  eexists. split; [reflexivity|]. split; [reflexivity|discriminate].
Qed.

(** C5, as stated, fails: a call of a tool of the custom server with a
    [selector] argument adds nothing to the trail. *)
Lemma selector_of_other_tool_is_dropped :
  let input := [("selector", JStr "#submit")] in
  let out := try_catch (@tool_try Cases.helpful "toolu_1" "custom_echo" input Cases.no_tools)
               (@tool_catch Cases.helpful "toolu_1" "custom_echo" input Cases.no_tools)
               initial_world in
  field "selector" input = Some (JStr "#submit") /\
  exists st, out.1 = Ok st /\ ts_locatorHistory st = [] /\
             map tool_use_id (toolResults st) = ["toolu_1"].
Proof. vm_compute. split; [reflexivity|]. eexists. repeat split. Qed.

(** C3 at a model service that is overloaded at every call. *)
Lemma always_overloaded_returns_undefined_witness :
  (forall n, exists e, @model_reply Cases.swamped n = Throw e /\ status e = Some 529) /\
  exists w',
    @processPromptWithMCP Cases.swamped "hello" 0%nat initial_world = (Ok None, w') /\
    sleeps w' = [2000; 4000; 6000].
Proof.
  assert (H : forall n, exists e, @model_reply Cases.swamped n = Throw e /\ status e = Some 529)
    by (intros [|n]; exists Demo.overloaded; split; reflexivity).
  split; [exact H|].
  destruct (@always_overloaded_returns_undefined Cases.swamped "hello" 0%nat initial_world H)
    as (w' & Hrun & _ & Hsl & _).
  exists w'. split; [exact Hrun|exact Hsl].
Defined.

(* ===================================================================== *)
(** * Further properties: the session store and its routes                *)
(* ===================================================================== *)

Section StoreProperties.
Context {env : Env}.

Lemma with_sessions_same w : with_sessions (sessions w) w = w.
Proof. destruct w; reflexivity. Qed.

Lemma stored_touched w w' id :
  sessions w' = sessions w -> (forall r, touched (heap w r) (heap w' r)) ->
  forall s, stored w id = Some s -> exists s', stored w' id = Some s' /\ touched s s'.
Proof.
  unfold stored. intros Hs Ht s H. rewrite Hs.
  destruct (sessions w !! id) as [r|]; [|discriminate]. injection H as <-.
  exists (heap w' r). split; [reflexivity|apply Ht].
Qed.

(** X1.  A session made by [POST /api/session/create] is stored under the
    identifier the reply names, with an empty history, no steps and a
    closed browser, and has its sweep pending; a [GET] of that identifier
    right afterwards finds it and reports it, with the last activity already
    moved to the time of the [GET]. *)
Theorem created_session_is_found w :
  let id := uuidv4 (uuid_calls w) in
  let w1 := step (Http PostSessionCreate) w in
  (handle PostSessionCreate w).1 = Ok (Created id) /\
  stored w1 id
  = Some (fresh_session id (clock (clock_reads w)) (clock (S (clock_reads w)))) /\
  In id (timers w1) /\
  (handle (GetSession id) w1).1
  = Ok (Info {| si_sessionId := id; si_createdAt := clock (clock_reads w);
                si_lastActivity := clock (S (S (clock_reads w)));
                si_messageCount := 0; si_totalSteps := 0;
                si_context := {| currentUrl := None; lastScreenshot := None;
                                 browserState := "closed"; completedActions := [] |};
                recentLocators := [] |}).
Proof.
  intros id w1. subst w1. unfold step. rewrite handle_create_world.
  destruct (createSession_run w) as (w1 & Hrun & Hn & Hs & Ht & Hh).
  assert (Hcr : clock_reads w1 = S (S (clock_reads w))).
  { unfold createSession in Hrun. cbn in Hrun. injection Hrun as <-. reflexivity. }
  split.
  { unfold handle. rewrite (bind_ok _ _ _ _ _ Hrun), (bind_ok _ _ _ _ _ (deref_run _ _)).
    cbn [fst ret]. rewrite Hh, Nat.eqb_refl. reflexivity. }
  rewrite Hrun. cbn [snd].
  assert (Hid : sessions w1 !! id = Some (next_ref w))
    by (rewrite Hs; apply lookup_insert_eq).
  split; [unfold stored; rewrite Hid; cbn; rewrite Hh, Nat.eqb_refl; reflexivity|].
  split; [rewrite Ht; apply in_or_app; right; left; reflexivity|].
  unfold handle, get_session_info.
  destruct (getSession_found id (next_ref w) w1 Hid) as (w2 & Hget & _ & Hh2).
  rewrite (bind_ok _ _ _ _ _ Hget), (bind_ok _ _ _ _ _ (deref_run _ _)).
  cbn [fst ret]. rewrite Hh2, Nat.eqb_refl, Hh, Nat.eqb_refl, Hcr. reflexivity.
Qed.

(** X2.  [DELETE /api/session/:id] answers 404 for an identifier that is
    not stored and leaves the world as it is.  For a stored one it answers
    with success; afterwards the session is gone for [GET] and for a second
    [DELETE], which both answer 404, every other session is stored as
    before, and the sweep of the deleted session is still pending: when it
    fires it finds nothing and only leaves the list of timers. *)
Theorem delete_forgets_one_session id w :
  (sessions w !! id = None ->
   handle (DeleteSession id) w = (Ok (Failure 404 "Session not found"), w)) /\
  (is_Some (sessions w !! id) -> (handle (DeleteSession id) w).1 = Ok Deleted) /\
  let w' := step (Http (DeleteSession id)) w in
  handle (GetSession id) w' = (Ok (Failure 404 "Session not found"), w') /\
  handle (DeleteSession id) w' = (Ok (Failure 404 "Session not found"), w') /\
  (forall k, k <> id -> stored w' k = stored w k) /\
  timers w' = timers w /\
  (forall n, timers w' !! n = Some id ->
     step (TimerFires n) w' = with_timers (take n (timers w) ++ drop (S n) (timers w)) w').
Proof.
  assert (Hmissing : forall v, sessions v !! id = None ->
            handle (DeleteSession id) v = (Ok (Failure 404 "Session not found"), v)).
  { intros v Hnone. unfold handle, delete_session, bind, deleteSession.
    rewrite Hnone, bool_decide_eq_false_2 by (intros [? ?]; discriminate).
    rewrite delete_id by exact Hnone. rewrite with_sessions_same. reflexivity. }
  split; [apply Hmissing|]. split.
  { intros Hsome. unfold handle, delete_session, bind, deleteSession.
    rewrite bool_decide_eq_true_2 by exact Hsome. reflexivity. }
  intros w'.
  assert (Hw' : w' = with_sessions (delete id (sessions w)) w)
    by (subst w'; unfold step; apply handle_delete_world).
  clearbody w'.
  assert (Hgone : sessions w' !! id = None) by (subst w'; apply lookup_delete_eq).
  split.
  { unfold handle, get_session_info.
    rewrite (bind_ok _ _ _ _ _ (getSession_missing id w' Hgone)). reflexivity. }
  split; [apply Hmissing, Hgone|].
  split; [intros k Hk; subst w'; unfold stored; cbn;
          rewrite lookup_delete_ne by congruence; reflexivity|].
  split; [subst w'; reflexivity|].
  intros n Hn. unfold step. rewrite fire_timer_world, Hn, sweep_run.
  cbn [sessions with_timers]. rewrite Hgone. subst w'. reflexivity.
Qed.

(** X3.  For an identifier that is not stored, [getSession] and
    [updateSession] return [null], and [GET /api/session/:id] and
    [GET /api/session/:id/history] answer 404; none of them changes the
    world or even reads the clock. *)
Theorem missing_session_is_left_alone id u w :
  sessions w !! id = None ->
  getSession id w = (Ok None, w) /\
  updateSession id u w = (Ok None, w) /\
  handle (GetSession id) w = (Ok (Failure 404 "Session not found"), w) /\
  handle (GetHistory id) w = (Ok (Failure 404 "Session not found"), w).
Proof.
  intros Hnone. split; [apply getSession_missing, Hnone|].
  split; [unfold updateSession, bind, sessions_get; rewrite Hnone; reflexivity|].
  unfold handle, get_session_info, get_history.
  rewrite !(bind_ok _ _ _ _ _ (getSession_missing id w Hnone)). split; reflexivity.
Qed.

(** X4.  [GET /api/sessions] lists each stored session exactly once, under
    its own identifier and with the counts of its record, and changes
    nothing: unlike [getSession] it does not refresh any last-activity
    timestamp. *)
Theorem sessions_are_listed_once w :
  consistent w ->
  exists all,
    handle GetSessions w = (Ok (Sessions all), w) /\
    length all = size (sessions w) /\
    NoDup (map sum_id all) /\
    (forall id, In id (map sum_id all) <-> is_Some (sessions w !! id)) /\
    (forall sum, In sum all ->
       exists s, stored w (sum_id sum) = Some s /\ sum = summary s).
Proof.
  intros Hc. eexists. split; [reflexivity|].
  set (entries := map_to_list (sessions w)).
  assert (Hids : map sum_id (map (fun kr : string * nat => summary (heap w kr.2)) entries)
                 = map fst entries).
  { rewrite map_map. apply map_ext_in. intros [k r] Hin.
    apply list_elem_of_In, elem_of_map_to_list in Hin. cbn. apply (Hc k r Hin). }
  split; [rewrite length_map; apply length_map_to_list|].
  split; [rewrite Hids; apply NoDup_fst_map_to_list|].
  split.
  - intros id. rewrite Hids. split.
    + intros Hin. apply in_map_iff in Hin as ([k r] & <- & Hin).
      apply list_elem_of_In, elem_of_map_to_list in Hin. eauto.
    + intros [r Hr]. apply in_map_iff. exists (id, r). split; [reflexivity|].
      apply list_elem_of_In, elem_of_map_to_list, Hr.
  - intros sum Hin. apply in_map_iff in Hin as ([k r] & <- & Hin).
    apply list_elem_of_In, elem_of_map_to_list in Hin. cbn.
    destruct (Hc k r Hin) as (_ & Hid & _). unfold stored. rewrite Hid, Hin. cbn.
    eexists. split; reflexivity.
Qed.

End StoreProperties.

Section PromptRouteProperties.
Context {env : Env}.

(** The reply of a prompt that succeeded, and the session object after
    it, in terms of what [processPromptWithMCP] returned. *)
Lemma prompt_in_session_detail message r w reply w' :
  sessions w !! session_id (heap w r) = Some r ->
  prompt_in_session message r w = (Ok reply, w') ->
  exists res w1,
    processPromptWithMCP message r w = (Ok (Some res), w1) /\
    reply = Prompted
      {| result := res; pr_sessionId := session_id (heap w r);
         info_totalSteps := (totalSteps (heap w r) + r_totalSteps res + r_totalSteps res)%nat;
         info_totalLocators :=
           (length (locatorHistory (heap w r) ++ locators res) + length (locators res))%nat;
         info_sessionAge := clock (S (clock_reads w1)) - createdAt (heap w r) |} /\
    shell w w' /\
    forall r', heap w' r' =
      if Nat.eqb r' r
      then fold_result (heap w r) (messages (heap w1 r)) res (clock (clock_reads w1))
      else heap w r'.
Proof.
  intros Hin. unfold prompt_in_session.
  destruct (retrying_spec maxRetries 0 message r w) as (o & w1 & Hrun & Hw1 & Hpost).
  fold (processPromptWithMCP message r w) in Hrun.
  unfold bind at 1. rewrite Hrun.
  destruct o as [[res|]|e]; [|discriminate..].
  destruct Hpost as (skipped & msgs & _ & _ & _ & _ & _ & Hheap).
  rewrite (bind_ok _ _ _ _ _ (deref_run r w1)).
  assert (Hr : heap w1 r = set_messages msgs (heap w r))
    by (rewrite Hheap, Nat.eqb_refl; reflexivity).
  assert (Hin1 : sessions w1 !! session_id (heap w1 r) = Some r).
  { rewrite Hr. destruct Hw1 as (_ & -> & _). exact Hin. }
  destruct (updateSession_found _
    {| u_locatorHistory := Some (locatorHistory (heap w1 r) ++ locators res);
       u_totalSteps := Some (totalSteps (heap w1 r) + r_totalSteps res)%nat;
       u_context := Some (spread_context (context (heap w1 r)) (r_context res)) |}
    r w1 Hin1) as (w2 & Hup & Hw2 & Hheap2).
  assert (Hcr2 : clock_reads w2 = S (clock_reads w1)).
  { unfold updateSession, bind at 1, sessions_get in Hup. rewrite Hin1 in Hup.
    injection Hup as <-. reflexivity. }
  rewrite (bind_ok _ _ _ _ _ Hup).
  rewrite (bind_ok _ _ _ _ _ (deref_run r w2)).
  rewrite (bind_ok _ _ _ _ _ (now_run w2)).
  intros [= <- <-]. exists res, w1. split; [reflexivity|].
  rewrite Hheap2, Nat.eqb_refl, Hr, Hcr2. cbn. split; [reflexivity|].
  split; [eapply shell_trans; [exact Hw1|]; eapply shell_trans; [exact Hw2|repeat split]|].
  intros r'. rewrite Hheap2. destruct (Nat.eqb r' r) eqn:E.
  - rewrite Hr. reflexivity.
  - rewrite Hheap, E. reflexivity.
Qed.

(** How [POST /api/prompt] came to a success: the prompt was a string,
    a session was continued or created, and the prompt ran in it. *)
Lemma post_prompt_detail body w p w' :
  consistent w ->
  handle (PostPrompt body) w = (Ok (Prompted p), w') ->
  exists text r w0,
    prompt body = Some (JStr text) /\
    (continued w r w0 \/ created w r w0) /\
    sessions w0 !! session_id (heap w0 r) = Some r /\
    prompt_in_session text r w0 = (Ok (Prompted p), w').
Proof.
  intros Hc. unfold handle, post_prompt, try_catch, prompt_try.
  destruct (prompt body) as [[ |[]|n|text| | ]|]; try discriminate.
  - destruct (truthy (JNum n)); discriminate.
  - destruct (is_empty text || is_empty (trim text)); [discriminate|].
    destruct (resolve_session_spec body w Hc) as (o & w0 & Hres & Ho).
    rewrite (bind_ok _ _ _ _ _ Hres).
    destruct o as [r|]; [|discriminate]. destruct Ho as [Hhow Hin].
    destruct (prompt_in_session text r w0) as [[reply|e] w1] eqn:Hrun; [|discriminate].
    intros [= -> ->]. exists text, r, w0. auto.
Qed.

(** X5.  In the reply of a prompt that succeeded, [sessionInfo.totalSteps]
    and [sessionInfo.totalLocators] are computed after the session has
    been updated: each is the count now stored in the session plus the
    count of the run once more.  The session named by the reply is the one
    that was updated. *)
Theorem reply_counts_the_run_twice body w p w' :
  consistent w ->
  handle (PostPrompt body) w = (Ok (Prompted p), w') ->
  exists s',
    stored w' (pr_sessionId p) = Some s' /\
    info_totalSteps p = (totalSteps s' + r_totalSteps (result p))%nat /\
    info_totalLocators p = (length (locatorHistory s') + length (locators (result p)))%nat /\
    session_id s' = pr_sessionId p.
Proof.
  intros Hc Hrun.
  destruct (post_prompt_detail body w p w' Hc Hrun) as (text & r & w0 & _ & _ & Hin & Hp).
  destruct (prompt_in_session_detail text r w0 _ w' Hin Hp)
    as (res & w1 & _ & [= ->] & (_ & Hs & _) & Hh).
  cbn. exists (heap w' r). unfold stored. rewrite Hs, Hin. cbn.
  split; [reflexivity|]. rewrite Hh, Nat.eqb_refl. cbn. auto.
Qed.

(** X6.  A prompt that asks to continue a session that is not stored is
    answered 404, whether the identifier is an unknown string or no string
    at all, and nothing is created or changed. *)
Theorem continuing_unknown_session_is_refused body text w :
  prompt body = Some (JStr text) ->
  is_empty (trim text) = false ->
  truthy_opt (sessionId body) = true ->
  truthy_opt (continueSession body) = true ->
  (forall id, sessionId body = Some (JStr id) -> sessions w !! id = None) ->
  handle (PostPrompt body) w = (Ok (Failure 404 "Session not found"), w).
Proof.
  intros Hp Htext Hsid Hcont Hmissing.
  unfold handle, post_prompt, try_catch, prompt_try. rewrite Hp.
  assert (Hne : is_empty text = false).
  { destruct text; [discriminate Htext|reflexivity]. }
  rewrite Hne, Htext. cbn [orb].
  unfold resolve_session. rewrite Hsid, Hcont. cbn [andb].
  destruct (sessionId body) as [[ | | |id| | ]|]; try reflexivity.
  rewrite (bind_ok _ _ _ _ _ (getSession_missing id w (Hmissing id eq_refl))).
  reflexivity.
Qed.

(** X7.  A prompt whose [continueSession] is absent or falsy never touches
    an existing session, stored or not, even when it names one: every
    session object is exactly as before, last activity included, and the
    session in the reply is a new one. *)
Theorem prompt_without_continue_starts_afresh body w reply w' :
  consistent w ->
  truthy_opt (continueSession body) = false ->
  handle (PostPrompt body) w = (Ok reply, w') ->
  (forall r, (r < next_ref w)%nat -> heap w' r = heap w r) /\
  (forall p, reply = Prompted p ->
     pr_sessionId p = uuidv4 (uuid_calls w) /\
     sessions w' = <[uuidv4 (uuid_calls w) := next_ref w]> (sessions w)).
Proof.
  intros Hc Hcont. unfold handle, post_prompt, try_catch, prompt_try.
  assert (Hsame : forall code msg,
    (Ok (Failure code msg), w) = (Ok reply, w') ->
    (forall r, (r < next_ref w)%nat -> heap w' r = heap w r) /\
    (forall p, reply = Prompted p ->
       pr_sessionId p = uuidv4 (uuid_calls w) /\
       sessions w' = <[uuidv4 (uuid_calls w) := next_ref w]> (sessions w))).
  { intros code msg [= <- <-]. split; [reflexivity|discriminate]. }
  destruct (prompt body) as [[ |[]|n|text| | ]|]; cbn [truthy]; try apply Hsame.
  - destruct (negb (n =? 0)); apply Hsame.
  - destruct (is_empty text || is_empty (trim text)); [apply Hsame|].
    unfold resolve_session. rewrite Hcont, andb_false_r.
    destruct (createSession_run w) as (w0 & Hcreate & Hn & Hs & Ht & Hh).
    rewrite (bind_ok _ _ _ _ _ (bind_ok _ _ _ _ _ Hcreate)).
    assert (Hin : sessions w0 !! session_id (heap w0 (next_ref w)) = Some (next_ref w)).
    { rewrite Hh, Nat.eqb_refl. cbn. rewrite Hs. apply lookup_insert_eq. }
    assert (Hold : forall r, (r < next_ref w)%nat -> heap w0 r = heap w r).
    { intros r Hr. rewrite Hh.
      replace (Nat.eqb r (next_ref w)) with false by (symmetry; apply Nat.eqb_neq; lia).
      reflexivity. }
    destruct (prompt_in_session_spec text (next_ref w) w0 Hin)
      as (o & w1 & Hrun & (_ & Hs1 & _) & Hpost).
    pose proof (prompt_in_session_detail text (next_ref w) w0) as Hdetail.
    rewrite Hrun in *. destruct o as [reply1|e].
    + intros [= <- <-].
      destruct (Hdetail reply1 w1 Hin eq_refl) as (res & w2 & _ & -> & _ & Hh1).
      split.
      * intros r Hr. rewrite Hh1.
        replace (Nat.eqb r (next_ref w)) with false by (symmetry; apply Nat.eqb_neq; lia).
        apply Hold, Hr.
      * intros p [= <-]. cbn. rewrite Hh, Nat.eqb_refl. cbn. split; [reflexivity|congruence].
    + intros [= <- <-]. split; [|discriminate].
      intros r Hr. rewrite Hpost. apply Hold, Hr.
Qed.

End PromptRouteProperties.

(* ===================================================================== *)
(** * Further properties: tool calls and the conversation loop            *)
(* ===================================================================== *)

Section LoopProperties.
Context {env : Env}.

Lemma extract_record name input res w :
  exists o, extractLocatorInfo name input res w
            = (o, with_clock_reads (S (clock_reads w)) w) /\
    forall info, o = Ok info ->
      tool info = name /\ locator info = located name input /\
      action info = action_of name /\ timestamp info = clock (clock_reads w).
Proof.
  unfold extractLocatorInfo, located, action_of.
  rewrite (bind_ok _ _ _ _ _ (now_run w)).
  destruct (includes "playwright_" name).
  - destruct res as [res|].
    + destruct (truthy res && truthy_opt (prop res "content")).
      * destruct (text_content _) as [[ | | |textContent| | ]|e];
          (eexists; split; [reflexivity|]); intros info [= <-] || intros info [=]; auto.
      * eexists; split; [reflexivity|]. intros info [= <-]; auto.
    + eexists; split; [reflexivity|]. intros info [= <-]; auto.
  - eexists; split; [reflexivity|]. intros info [= <-]; auto.
Qed.

(** One tool call, by its two ways out. *)
Lemma tool_step_detail id name input st w st' w' :
  try_catch (tool_try id name input st) (tool_catch id name input st) w = (Ok st', w') ->
  exists info entry,
    toolResults st' = toolResults st ++ [entry] /\
    ts_locatorHistory st' = push_locator info (ts_locatorHistory st) /\
    tool info = name /\ locator info = located name input /\
    action info = action_of name /\
    ((exists e, entry = error_entry id e /\ success info = false /\
                ts_contextUpdates st' = ts_contextUpdates st /\
                ((callTool name input w).1 = Throw e \/
                 exists result, (callTool name input w).1 = Ok result /\
                   (extractLocatorInfo name input (Some result) (callTool name input w).2).1
                   = Throw e)) \/
     (exists result, (callTool name input w).1 = Ok result /\
        entry = {| tool_use_id := id; tr_content := tool_content result; is_error := false |} /\
        cu_currentUrl (ts_contextUpdates st')
          = cu_currentUrl (navigated name input (ts_contextUpdates st)) /\
        cu_browserState (ts_contextUpdates st')
          = cu_browserState (navigated name input (ts_contextUpdates st)) /\
        (cu_lastScreenshot (ts_contextUpdates st') = cu_lastScreenshot (ts_contextUpdates st) \/
         name = "playwright_playwright_screenshot" /\
         exists t, cu_lastScreenshot (ts_contextUpdates st') = Some t))).
Proof.
  assert (Hcatch : forall e w1,
    tool_catch id name input st e w1 = (Ok st', w') ->
    exists info entry,
      toolResults st' = toolResults st ++ [entry] /\
      ts_locatorHistory st' = push_locator info (ts_locatorHistory st) /\
      tool info = name /\ locator info = located name input /\
      action info = action_of name /\
      entry = error_entry id e /\ success info = false /\
      ts_contextUpdates st' = ts_contextUpdates st).
  { intros e w1. unfold tool_catch.
    destruct (extract_record name input None w1) as (o & Hex & Ho).
    unfold bind at 1. rewrite Hex. destruct o as [info|e']; [|discriminate].
    destruct (Ho info eq_refl) as (Ht & Hl & Ha & _).
    intros [= <- _]. exists (failed info), (error_entry id e). cbn. auto 10. }
  unfold try_catch, tool_try. unfold bind at 1.
  destruct (callTool name input w) as [[result|e] w1] eqn:Hcall; cbn [fst snd].
  2:{ intros H. destruct (Hcatch e w1 H) as (info & entry & H1 & H2 & H3 & H4 & H5 & H6 & H7 & H8).
      exists info, entry. repeat (split; [assumption|]). left. exists e. auto. }
  unfold bind at 1.
  destruct (extract_record name input (Some result) w1) as (o & Hex & Ho). rewrite Hex.
  destruct o as [info|e]; cbn [fst].
  2:{ intros H. destruct (Hcatch e _ H) as (info & entry & H1 & H2 & H3 & H4 & H5 & H6 & H7 & H8).
      exists info, entry. repeat (split; [assumption|]). left. exists e.
      repeat (split; [assumption|]). right. exists result.
      split; [reflexivity|rewrite Hex; reflexivity]. }
  destruct (Ho info eq_refl) as (Ht & Hl & Ha & _). clear Hcatch Ho.
  fold (navigated name input (ts_contextUpdates st)). fold (tool_content result).
  destruct (String.eqb name "playwright_playwright_screenshot") eqn:Hshot.
  - rewrite (bind_ok _ _ _ _ _ (bind_ok _ _ _ _ _ (now_run _))). cbn [ret].
    intros [= <- _]. exists info. eexists. cbn.
    repeat (split; [first [reflexivity|assumption]|]). right. exists result.
    repeat (split; [reflexivity|]). right. apply String.eqb_eq in Hshot. eauto.
  - cbn [bind ret]. unfold bind, ret. intros [= <- _]. exists info. eexists. cbn.
    repeat (split; [first [reflexivity|assumption]|]). right. exists result.
    repeat (split; [reflexivity|]). left.
    unfold navigated. destruct (_ && _); reflexivity.
Qed.

(** What every tool call keeps, the loop over the calls keeps. *)
Lemma run_tools_invariant (J : ToolState -> Prop) :
  (forall id name input st w st' w', J st ->
     try_catch (tool_try id name input st) (tool_catch id name input st) w = (Ok st', w') ->
     J st') ->
  forall uses st w st' w', J st -> run_tools uses st w = (Ok st', w') -> J st'.
Proof.
  intros Hstep. induction uses as [|[text|id name input|type] rest IH];
    intros st w st' w' HJ; cbn [run_tools].
  - intros [= <- _]. exact HJ.
  - apply IH, HJ.
  - unfold bind at 1.
    destruct (try_catch _ _ w) as [[st1|e] w1] eqn:Hone; [|discriminate].
    apply IH. eapply Hstep; eauto.
  - apply IH, HJ.
Qed.

(** One round, by its two ways on. *)
Lemma round_cases l w l' w' :
  round l w = (Ok l', w') ->
  exists content,
    model_reply (model_calls w) = Ok content /\
    iteration l' = S (iteration l) /\
    finalResult l' = accumulate (finalResult l) (reply_text content) /\
    ((tool_uses content = [] /\ conversationComplete l' = true /\
      l_messages l' = l_messages l ++ [{| role := assistant; content := ReplyBlocks content |}] /\
      l_locatorHistory l' = l_locatorHistory l /\ contextUpdates l' = contextUpdates l) \/
     (tool_uses content <> [] /\ conversationComplete l' = false /\
      exists st',
        run_tools (tool_uses content)
          {| toolResults := []; ts_locatorHistory := l_locatorHistory l;
             ts_contextUpdates := contextUpdates l |}
          (with_model_calls (S (model_calls w)) w) = (Ok st', w') /\
        l_messages l' = l_messages l
          ++ [{| role := assistant; content := ReplyBlocks content |};
              {| role := user; content := ToolResults (toolResults st') |}] /\
        l_locatorHistory l' = ts_locatorHistory st' /\
        contextUpdates l' = ts_contextUpdates st')).
Proof.
  unfold round, bind at 1, messages_create.
  destruct (model_reply (model_calls w)) as [content|e]; [|discriminate].
  exists content. split; [reflexivity|].
  destruct (tool_uses content) as [|u us] eqn:Hu.
  - injection H as <- _. cbn. split; [reflexivity|]. split; [reflexivity|]. left. auto.
  - unfold bind at 1 in H.
    destruct (run_tools (u :: us) _ _) as [[st'|e] w1] eqn:Hrun; [|discriminate].
    injection H as <- <-. cbn. split; [reflexivity|]. split; [reflexivity|].
    right. split; [discriminate|]. split; [reflexivity|].
    exists st'. split; [reflexivity|]. rewrite <- app_assoc. auto.
Qed.

(** What every round keeps, the loop keeps. *)
Lemma conversation_invariant (I : Loop -> Prop) :
  (forall l w l' w', I l -> round l w = (Ok l', w') -> I l') ->
  forall remaining l w l' w', I l -> conversation remaining l w = (Ok l', w') -> I l'.
Proof.
  intros Hround. induction remaining as [|k IH]; intros l w l' w' HI; cbn [conversation].
  - intros [= <- _]. exact HI.
  - destruct (conversationComplete l); [intros [= <- _]; exact HI|].
    unfold bind at 1. destruct (round l w) as [[l1|e] w1] eqn:Hone; [|discriminate].
    apply IH. eapply Hround; eauto.
Qed.

(** A result of [processPromptWithMCP] comes from a run of the loop that
    started from the stored history and the prompt; the history it leaves
    in the session is that of the loop. *)
Lemma run_invariant (I : Loop -> Prop) message r w res w' :
  (forall l v l' v', I l -> round l v = (Ok l', v') -> I l') ->
  I (first_loop (messages (heap w r)) message) ->
  processPromptWithMCP message r w = (Ok (Some res), w') ->
  exists l, I l /\
    messages (heap w' r) = l_messages l /\
    locators res = l_locatorHistory l /\ r_context res = contextUpdates l /\
    r_totalSteps res = iteration l /\ (conversationComplete l = true \/ iteration l = maxIterations).
Proof.
  intros Hround. unfold processPromptWithMCP. generalize 0%nat as retryCount.
  generalize maxRetries as remaining. intros remaining. revert w.
  induction remaining as [|k IH]; intros w retryCount H0; cbn [retrying]; [discriminate|].
  unfold try_catch, bind at 1.
  destruct (attempt message r w) as [[res1|e] w1] eqn:Hattempt.
  - cbn [ret]. intros [= <- <-]. unfold attempt in Hattempt.
    rewrite (bind_ok _ _ _ _ _ (deref_run r w)) in Hattempt.
    fold (first_loop (messages (heap w r)) message) in Hattempt.
    unfold bind at 1 in Hattempt.
    destruct (conversation_spec maxIterations (first_loop (messages (heap w r)) message) w)
      as (o & w2 & Hconv & _ & Hpost).
    rewrite Hconv in Hattempt. destruct o as [l|e]; [|discriminate].
    injection Hattempt as <- <-. exists l.
    split; [eapply (conversation_invariant I Hround); eauto|].
    cbn. rewrite Nat.eqb_refl. cbn.
    destruct Hpost as (n & _ & Hend & Hit & _).
    repeat (split; [reflexivity|]).
    destruct Hend as [Hend| ->]; [left; exact Hend|right; rewrite Hit; reflexivity].
  - destruct (attempt_spec message r w) as (o & w2 & Hrun & _ & _ & Hpost).
    rewrite Hattempt in Hrun. injection Hrun as <- <-. destruct Hpost as [Hheap _].
    assert (Hnext : forall d,
      bind (sleep d) (fun _ => retrying k (S retryCount) message r) w1 = (Ok (Some res), w') ->
      exists l, I l /\ messages (heap w' r) = l_messages l /\
        locators res = l_locatorHistory l /\ r_context res = contextUpdates l /\
        r_totalSteps res = iteration l /\
        (conversationComplete l = true \/ iteration l = maxIterations)).
    { intros d. unfold bind at 1. cbn [sleep].
      apply IH. cbn [heap with_sleeps]. rewrite Hheap. exact H0. }
    destruct (decide (status e = Some 529)); [apply Hnext|].
    destruct (decide _); [discriminate|apply Hnext].
Qed.

Lemma paired_app_bounded n : forall a b,
  (length a <= n)%nat -> paired a = true -> paired (a ++ b) = paired b.
Proof.
  induction n as [|n IH]; intros a b Hlen Ha.
  - destruct a; [reflexivity|cbn in Hlen; lia].
  - destruct a as [|m rest]; [reflexivity|]. cbn in Hlen.
    change ((m :: rest) ++ b) with (m :: (rest ++ b)). cbn [paired] in Ha |- *.
    destruct (content m) as [text|blocks|results]; [| |discriminate].
    + apply andb_prop in Ha as [-> Ha]. cbn [andb]. apply IH; [lia|exact Ha].
    + apply andb_prop in Ha as [-> Ha]. cbn [andb].
      destruct (tool_uses blocks) as [|u us]; [apply IH; [lia|exact Ha]|].
      destruct rest as [|m' rest']; [discriminate|].
      change ((m' :: rest') ++ b) with (m' :: (rest' ++ b)). cbv beta iota.
      destruct (content m') as [text'|blocks'|results']; try discriminate.
      apply andb_prop in Ha as [Hhead Ha]. rewrite Hhead. cbn [andb].
      cbn in Hlen. apply IH; [lia|exact Ha].
Qed.

Lemma paired_app a b : paired a = true -> paired (a ++ b) = paired b.
Proof. apply (paired_app_bounded (length a)). lia. Qed.

Lemma located_truthy name input :
  truthy_opt (located name input) = true ->
  includes "playwright_" name = true.
Proof. unfold located. destruct (includes "playwright_" name); [reflexivity|discriminate]. Qed.

(** What a round keeps of the history. *)
Lemma round_history l w l' w' :
  round l w = (Ok l', w') ->
  exists c more,
    l_messages l' = l_messages l ++ {| role := assistant; content := ReplyBlocks c |} :: more /\
    assistant_turns more = 0%nat /\
    paired ({| role := assistant; content := ReplyBlocks c |} :: more) = true /\
    iteration l' = S (iteration l).
Proof.
  intros Hrun. destruct (round_cases l w l' w' Hrun) as (content & _ & Hit & _ & Hcase).
  exists content.
  destruct Hcase as [(Hnone & _ & Hm & _)|(Hsome & _ & st' & Htools & Hm & _)].
  - exists []. split; [exact Hm|]. split; [reflexivity|]. split; [|exact Hit].
    cbn. rewrite Hnone. reflexivity.
  - exists [{| role := user; content := ToolResults (toolResults st') |}].
    split; [exact Hm|]. split; [reflexivity|]. split; [|exact Hit].
    destruct (run_tools_spec (tool_uses content)
                {| toolResults := []; ts_locatorHistory := l_locatorHistory l;
                   ts_contextUpdates := contextUpdates l |}
                (with_model_calls (S (model_calls w)) w))
      as (st1 & w1 & entries & Hrun1 & _ & Hres & Hids).
    rewrite Htools in Hrun1. injection Hrun1 as <- <-. cbn in Hres. subst entries.
    cbn. destruct (tool_uses content) as [|u us]; [congruence|].
    rewrite Hids, bool_decide_eq_true_2 by reflexivity. reflexivity.
Qed.

(** X8.  A run of [processPromptWithMCP] that returns a result only adds
    to the history of the session: the earlier turns stay as they were, the
    prompt comes right after them as a user turn, and then come the turns
    of the run, which begin with an assistant turn and hold one assistant
    turn per step.  The run took at least one step and at most 20. *)
Theorem history_is_appended_to message r w res w' :
  processPromptWithMCP message r w = (Ok (Some res), w') ->
  exists c turns,
    messages (heap w' r)
    = messages (heap w r)
      ++ {| role := user; content := PromptText message |}
      :: {| role := assistant; content := ReplyBlocks c |} :: turns /\
    S (assistant_turns turns) = r_totalSteps res /\
    (1 <= r_totalSteps res <= 20)%nat.
Proof.
  intros Hrun.
  set (base := messages (heap w r) ++ [{| role := user; content := PromptText message |}]).
  destruct (run_invariant
    (fun l => (iteration l = 0%nat /\ conversationComplete l = false /\ l_messages l = base) \/
              exists c turns,
                l_messages l = base ++ {| role := assistant; content := ReplyBlocks c |} :: turns /\
                S (assistant_turns turns) = iteration l)
    message r w res w') as (l & HI & Hm & _ & _ & Hsteps & Hend).
  - intros l v l' v' HI Hround. right.
    destruct (round_history l v l' v' Hround) as (c & more & Hm & Hturns & _ & Hit).
    destruct HI as [(H0 & _ & Hb)|(c0 & turns & Hb & Hn)].
    + exists c, more. rewrite Hm, Hb, Hit, H0, Hturns. auto.
    + exists c0, (turns ++ {| role := assistant; content := ReplyBlocks c |} :: more).
      rewrite Hm, Hb, Hit, <- Hn, <- app_assoc. split; [reflexivity|].
      rewrite assistant_turns_app.
      change ({| role := assistant; content := ReplyBlocks c |} :: more)
        with ([{| role := assistant; content := ReplyBlocks c |}] ++ more).
      rewrite assistant_turns_app, Hturns. unfold assistant_turns at 2. cbn. lia.
  - left. repeat split.
  - exact Hrun.
  - destruct (retrying_spec maxRetries 0 message r w) as (o & w1 & Hrun1 & _ & Hpost).
    unfold processPromptWithMCP in Hrun. rewrite Hrun in Hrun1. injection Hrun1 as <- <-.
    destruct Hpost as (skipped & msgs & Hle & _).
    destruct HI as [(H0 & Hcc & _)|(c & turns & Hb & Hn)].
    + exfalso. destruct Hend as [Hend|Hend]; [congruence|].
      rewrite H0 in Hend. discriminate.
    + exists c, turns. rewrite Hm, Hb. unfold base. rewrite <- app_assoc.
      split; [reflexivity|]. rewrite Hsteps. split; [exact Hn|].
      unfold maxIterations in Hle. lia.
Qed.

(** What is pushed on the locator trail in a run. *)
Lemma run_trail_located message r w res w' :
  processPromptWithMCP message r w = (Ok (Some res), w') ->
  Forall trail_ok (locators res).
Proof.
  intros Hrun.
  destruct (run_invariant (fun l => Forall trail_ok (l_locatorHistory l))
              message r w res w') as (l & HI & _ & -> & _).
  - intros l v l' v' HI Hround.
    destruct (round_cases l v l' v' Hround)
      as (content & _ & _ & _ & [(_ & _ & _ & -> & _)|(_ & _ & st' & Htools & _ & -> & _)]);
      [exact HI|].
    refine (run_tools_invariant (fun st => Forall trail_ok (ts_locatorHistory st)) _
              _ _ _ _ _ _ Htools); [|exact HI].
    intros id name input st u st1 u1 HJ Hstep.
    destruct (tool_step_detail id name input st u st1 u1 Hstep)
      as (info & entry & _ & -> & Ht & Hl & Ha & _).
    unfold push_locator. destruct (truthy_opt (locator info)) eqn:Htruthy; [|exact HJ].
    apply Forall_app. split; [exact HJ|]. constructor; [|constructor].
    rewrite Hl in Htruthy. pose proof (located_truthy name input Htruthy) as Hinc.
    unfold trail_ok. rewrite Ht, Hl, Ha. unfold action_of. rewrite Hinc. auto.
  - constructor.
  - exact Hrun.
  - exact HI.
Qed.

(** X9.  The records a run returns for the locator trail all carry a
    truthy locator, name a tool whose name contains [playwright_], and
    have that name without its first [playwright_] as action. *)
Theorem trail_records_are_located message r w res w' :
  processPromptWithMCP message r w = (Ok (Some res), w') ->
  Forall trail_ok (locators res).
Proof. exact (run_trail_located message r w res w'). Qed.

Lemma navigated_ok name input u : updates_ok u -> updates_ok (navigated name input u).
Proof.
  intros Hu. unfold navigated.
  destruct (String.eqb name "playwright_playwright_navigate"); [|exact Hu]. cbn [andb].
  destruct (field "url" input) as [url|] eqn:Hurl; cbn [truthy_opt]; [|exact Hu].
  destruct (truthy url) eqn:Ht; [|exact Hu].
  right. cbn. split; [reflexivity|]. exists url. auto.
Qed.

(** The context updates a run returns: the browser untouched, or open at
    a truthy url. *)
Lemma run_updates_ok message r w res w' :
  processPromptWithMCP message r w = (Ok (Some res), w') -> updates_ok (r_context res).
Proof.
  intros Hrun.
  destruct (run_invariant (fun l => updates_ok (contextUpdates l))
              message r w res w') as (l & HI & _ & _ & -> & _).
  - intros l v l' v' HI Hround.
    destruct (round_cases l v l' v' Hround)
      as (content & _ & _ & _ & [(_ & _ & _ & _ & ->)|(_ & _ & st' & Htools & _ & _ & ->)]);
      [exact HI|].
    refine (run_tools_invariant (fun st => updates_ok (ts_contextUpdates st)) _
              _ _ _ _ _ _ Htools); [|exact HI].
    intros id name input st u st1 u1 HJ Hstep.
    destruct (tool_step_detail id name input st u st1 u1 Hstep)
      as (info & entry & _ & _ & _ & _ & _ & [(e & _ & _ & -> & _)|(result & _ & _ & Hurl & Hb & _)]);
      [exact HJ|].
    pose proof (navigated_ok name input _ HJ) as Hn.
    unfold updates_ok in *. rewrite Hurl, Hb. exact Hn.
  - left. split; reflexivity.
  - exact Hrun.
  - exact HI.
Qed.

End LoopProperties.

(* ===================================================================== *)
(** * Further properties: what every stored session satisfies             *)
(* ===================================================================== *)

Section SessionInvariants.
Context {env : Env}.

Lemma run_keeps_paired message r w res w' :
  processPromptWithMCP message r w = (Ok (Some res), w') ->
  paired (messages (heap w r)) = true -> paired (messages (heap w' r)) = true.
Proof.
  intros Hrun Hold.
  destruct (run_invariant (fun l => paired (l_messages l) = true)
              message r w res w') as (l & HI & -> & _).
  - intros l v l' v' HI Hround.
    destruct (round_history l v l' v' Hround) as (c & more & -> & _ & Hp & _).
    rewrite (paired_app _ _ HI). exact Hp.
  - cbn. rewrite (paired_app _ _ Hold). reflexivity.
  - exact Hrun.
  - exact HI.
Qed.

(** A property of session records that holds of a new session, does not
    depend on the last-activity timestamp and survives the folding of a
    result of [processPromptWithMCP] into the record, holds of every
    stored session of every world the server can reach. *)
Lemma stored_sessions_satisfy (P : Session -> Prop) :
  (forall id created active, P (fresh_session id created active)) ->
  (forall s s', touched s s' -> P s -> P s') ->
  (forall message r w res w' t,
     processPromptWithMCP message r w = (Ok (Some res), w') ->
     P (heap w r) -> P (fold_result (heap w r) (messages (heap w' r)) res t)) ->
  forall w, reachable w -> all_stored P w.
Proof.
  intros Hfresh Htouched Hfold.
  assert (Hcontinued : forall w r w1, all_stored P w -> continued w r w1 -> all_stored P w1).
  { intros w r w1 Hall (_ & (_ & Hs & _) & Hh) k r' Hk. rewrite Hs in Hk. rewrite Hh.
    destruct (Nat.eqb r' r) eqn:E; [|exact (Hall k r' Hk)].
    apply Nat.eqb_eq in E as ->. apply (Htouched (heap w r)); [apply touched_set|exact (Hall k r Hk)]. }
  assert (Hcreated : forall w r w1, consistent w -> all_stored P w -> created w r w1 ->
                                    all_stored P w1).
  { intros w r w1 Hc Hall (-> & _ & Hs & _ & Hh) k r' Hk. rewrite Hs in Hk. rewrite Hh.
    destruct (decide (uuidv4 (uuid_calls w) = k)) as [<-|Hne].
    - rewrite lookup_insert_eq in Hk. injection Hk as <-. rewrite Nat.eqb_refl. apply Hfresh.
    - rewrite lookup_insert_ne in Hk by exact Hne.
      destruct (Hc k r' Hk) as (Hlt & _).
      replace (Nat.eqb r' (next_ref w)) with false by (symmetry; apply Nat.eqb_neq; lia).
      exact (Hall k r' Hk). }
  assert (Hstep : forall e w, consistent w -> all_stored P w -> all_stored P (step e w)).
  { intros e w Hc Hall. destruct e as [[ | |id| |id|body| |id]|n]; unfold step.
    - exact Hall.
    - rewrite handle_create_world. destruct (createSession_run w) as (w1 & Hrun & Hn & Hs & Ht & Hh).
      rewrite Hrun. apply (Hcreated w (next_ref w) w1 Hc Hall). repeat split; assumption.
    - rewrite (proj1 (handle_session_world id w)).
      destruct (getSession_touches id w) as (o & w1 & -> & (_ & Hs & _) & Ht & _).
      intros k r Hk. cbn [snd] in *. rewrite Hs in Hk.
      exact (Htouched _ _ (Ht r) (Hall k r Hk)).
    - exact Hall.
    - rewrite handle_delete_world. intros k r Hk. cbn in Hk.
      apply lookup_delete_Some in Hk as [_ Hk]. exact (Hall k r Hk).
    - destruct (post_prompt_spec body w Hc) as (reply & w' & Hrun & Heff).
      change (handle (PostPrompt body) w) with (post_prompt body w). rewrite Hrun. cbn [snd].
      destruct Heff as [(code & msg & _ & ->)|(r0 & w1 & Hhow & (_ & Hs & _) & Hpost)];
        [exact Hall|].
      assert (Hall1 : all_stored P w1)
        by (destruct Hhow as [H1|H1];
            [exact (Hcontinued _ _ _ Hall H1)|exact (Hcreated _ _ _ Hc Hall H1)]).
      destruct Hpost as [[_ Hh]|(p & _ & _ & -> & _)].
      + intros k r Hk. rewrite Hs in Hk. rewrite Hh. exact (Hall1 k r Hk).
      + destruct (post_prompt_detail body w p w' Hc Hrun) as (text & r & w0 & _ & Hhow0 & Hin & Hp).
        assert (Hall0 : all_stored P w0)
          by (destruct Hhow0 as [H0|H0];
              [exact (Hcontinued _ _ _ Hall H0)|exact (Hcreated _ _ _ Hc Hall H0)]).
        destruct (prompt_in_session_detail text r w0 _ w' Hin Hp)
          as (res & w2 & Hres & _ & (_ & Hs0 & _) & Hh).
        intros k r' Hk. rewrite Hs0 in Hk. rewrite Hh.
        destruct (Nat.eqb r' r) eqn:E; [|exact (Hall0 k r' Hk)].
        apply (Hfold text r w0 res w2 _ Hres). exact (Hall0 _ _ Hin).
    - exact Hall.
    - rewrite (proj2 (handle_session_world id w)).
      destruct (getSession_touches id w) as (o & w1 & -> & (_ & Hs & _) & Ht & _).
      intros k r Hk. cbn [snd] in *. rewrite Hs in Hk.
      exact (Htouched _ _ (Ht r) (Hall k r Hk)).
    - rewrite fire_timer_world. destruct (timers w !! n) as [id|]; [|exact Hall].
      rewrite sweep_run. cbn [sessions with_timers].
      destruct (sessions w !! id); [|exact Hall].
      destruct (decide _); [|exact Hall].
      intros k r Hk. cbn in Hk. apply lookup_delete_Some in Hk as [_ Hk]. exact (Hall k r Hk). }
  intros w Hw. induction Hw as [|e w Hw IH].
  - intros k r Hk. cbn in Hk. rewrite lookup_empty in Hk. discriminate.
  - apply Hstep; [apply reachable_consistent, Hw|exact IH].
Qed.

Lemma all_stored_at P w id s : all_stored P w -> stored w id = Some s -> P s.
Proof.
  unfold stored. intros Hall H. destruct (sessions w !! id) as [r|] eqn:Hr; [|discriminate].
  injection H as <-. exact (Hall id r Hr).
Qed.

(** X10.  In the history of every stored session, each assistant turn
    that asks for tool calls is followed at once by one user turn holding
    the results of exactly these calls, in their order, and tool results
    occur nowhere else; replies are assistant turns, prompts and results
    user turns. *)
Theorem stored_histories_are_paired w id s :
  reachable w -> stored w id = Some s -> paired (messages s) = true.
Proof.
  intros Hw. apply (all_stored_at (fun s => paired (messages s) = true)).
  apply stored_sessions_satisfy; [reflexivity| | |exact Hw].
  - intros s0 s' Ht. apply touched_fields in Ht as (_ & _ & -> & _). auto.
  - intros message r v res v' t Hrun. cbn. apply (run_keeps_paired message r v res v' Hrun).
Qed.

(** X11.  Every record on the locator trail of every stored session
    carries a truthy locator, names a tool whose name contains
    [playwright_], and has that name without its first [playwright_] as
    action. *)
Theorem stored_trails_are_located w id s :
  reachable w -> stored w id = Some s -> Forall trail_ok (locatorHistory s).
Proof.
  intros Hw. apply (all_stored_at (fun s => Forall trail_ok (locatorHistory s))).
  apply stored_sessions_satisfy; [constructor| | |exact Hw].
  - intros s0 s' Ht. apply touched_fields in Ht as (_ & _ & _ & _ & -> & _). auto.
  - intros message r v res v' t Hrun Hold. cbn. apply Forall_app. split; [exact Hold|].
    exact (run_trail_located message r v res v' Hrun).
Qed.

(** The context of every stored session has no completed actions, and its
    browser is either closed with no current url or open at a truthy
    url. *)
Lemma stored_contexts_invariant w id s :
  reachable w -> stored w id = Some s -> context_ok (context s).
Proof.
  intros Hw. apply (all_stored_at (fun s => context_ok (context s))).
  apply stored_sessions_satisfy; [| | |exact Hw].
  - intros i c a. split; [reflexivity|left; split; reflexivity].
  - intros s0 s' Ht. apply touched_fields in Ht as (_ & _ & _ & -> & _). auto.
  - intros message r v res v' t Hrun [Hdone Hold]. cbn.
    pose proof (run_updates_ok message r v res v' Hrun) as Hu.
    split; [exact Hdone|]. unfold spread_context. cbn.
    destruct Hu as [[-> ->]|(-> & url & -> & Hurl)]; [exact Hold|].
    right. split; [reflexivity|]. exists url. auto.
Qed.

End SessionInvariants.

(* ===================================================================== *)
(** * Further properties: one tool call                                   *)
(* ===================================================================== *)

Section ToolCallProperties.
Context {env : Env}.

(** A tool call that [callTool] fails. *)
Lemma tool_step_on_failure id name input st w e w1 :
  callTool name input w = (Throw e, w1) ->
  exists st' info,
    try_catch (tool_try id name input st) (tool_catch id name input st) w
    = (Ok st', with_clock_reads (S (clock_reads w1)) w1) /\
    toolResults st' = toolResults st ++ [error_entry id e] /\
    ts_contextUpdates st' = ts_contextUpdates st /\
    ts_locatorHistory st'
    = (if truthy_opt (located name input) then ts_locatorHistory st ++ [info]
       else ts_locatorHistory st) /\
    tool info = name /\ locator info = located name input /\
    timestamp info = clock (clock_reads w1) /\ success info = false.
Proof.
  intros Hcall. unfold tool_try.
  rewrite (try_throw _ _ _ _ _ (bind_throw _ _ _ _ _ Hcall)). unfold tool_catch.
  destruct (extract_record name input None w1) as (o & Hex & Ho).
  unfold bind at 1. rewrite Hex. destruct o as [info|e'].
  - destruct (Ho info eq_refl) as (Ht & Hl & _ & Hts).
    exists (Build_ToolState
              (toolResults st ++ [error_entry id e])
              (push_locator (failed info) (ts_locatorHistory st))
              (ts_contextUpdates st)), (failed info).
    split; [reflexivity|]. cbn. unfold push_locator. cbn. rewrite Hl. auto 10.
  - exfalso. revert Hex. unfold extractLocatorInfo.
    rewrite (bind_ok _ _ _ _ _ (now_run w1)).
    destruct (includes "playwright_" name); discriminate.
Qed.

(** X13.  A tool call that [callTool] fails is told to the model and
    nothing else: the step returns, its entry is the error text with
    [is_error] set, the context updates stay as they were, also for a
    navigate or screenshot call, and the locator trail gains at most the
    record of the call, marked as not successful. *)
Theorem failed_call_is_told_to_the_model id name input st w e w1 :
  callTool name input w = (Throw e, w1) ->
  exists st' info,
    try_catch (tool_try id name input st) (tool_catch id name input st) w
    = (Ok st', with_clock_reads (S (clock_reads w1)) w1) /\
    toolResults st' = toolResults st ++ [error_entry id e] /\
    ts_contextUpdates st' = ts_contextUpdates st /\
    ts_locatorHistory st'
    = (if truthy_opt (located name input) then ts_locatorHistory st ++ [info]
       else ts_locatorHistory st) /\
    tool info = name /\ locator info = located name input /\
    timestamp info = clock (clock_reads w1) /\ success info = false.
Proof. exact (tool_step_on_failure id name input st w e w1). Qed.

(** X14.  [callTool] sends at most one request, and only for a name of the
    catalogue whose server runs: for any other name it throws with the
    world as it was.  The request goes to the server that the first
    catalogue entry of that name gives, under the name the server listed,
    with the reading of the clock as id.  What [callTool] returns is
    truthy. *)
Theorem callTool_routes_by_catalogue name args w :
  match List.find (fun t => String.eqb (tool_name t) name) availableTools with
  | None => callTool name args w = (Throw (Error ("Unknown tool: " +:+ name) None), w)
  | Some t =>
      if mcpServers (server t) then
        tool_calls (callTool name args w).2
        = tool_calls w ++ [{| call_server := server t; call_id := clock (clock_reads w);
                              call_name := originalName t; call_arguments := args |}] /\
        rpc_calls (callTool name args w).2 = S (rpc_calls w) /\
        forall v, (callTool name args w).1 = Ok v -> truthy v = true
      else callTool name args w = (Throw (Error ("Unknown server: " +:+ server t) None), w)
  end.
Proof.
  unfold callTool. destruct (List.find _ _) as [t|]; [|reflexivity].
  destruct (mcpServers (server t)); [|reflexivity]. cbn [negb].
  rewrite (bind_ok _ _ _ _ _ (now_run w)). unfold bind at 1 2 3, sendMCPRequest.
  destruct (rpc_reply _) as [response|]; cbn [fst snd].
  - destruct (truthy_opt (field "result" response)) eqn:Hres.
    + cbn. split; [reflexivity|]. split; [reflexivity|]. intros v [= <-].
      destruct (field "result" response); [exact Hres|discriminate].
    + destruct (truthy_opt (field "error" response)); cbn;
        (split; [reflexivity|]); (split; [reflexivity|]); intros v [= <-]; reflexivity.
  - cbn. split; [reflexivity|]. split; [reflexivity|]. discriminate.
Qed.

(** X15.  A result that reached the server and came back can still be
    reported as a failure: when the tool is named as a browser tool and
    the [content] of its result is truthy but no array, the step ends in
    its [catch] block, and the model is told of an error although the
    call was carried out. *)
Theorem unreadable_result_is_reported_as_failure id name input st w result w1 content :
  callTool name input w = (Ok result, w1) ->
  includes "playwright_" name = true ->
  truthy result = true ->
  prop result "content" = Some content -> truthy content = true ->
  (forall items, content <> JArr items) ->
  exists st' w',
    try_catch (tool_try id name input st) (tool_catch id name input st) w = (Ok st', w') /\
    toolResults st'
    = toolResults st
      ++ [error_entry id (TypeError "toolResult.content.find is not a function")] /\
    ts_contextUpdates st' = ts_contextUpdates st.
Proof.
  intros Hcall Hname Hres Hcontent Htruthy Hshape.
  assert (Hex : extractLocatorInfo name input (Some result) w1
                = (Throw (TypeError "toolResult.content.find is not a function"),
                   with_clock_reads (S (clock_reads w1)) w1)).
  { unfold extractLocatorInfo. rewrite (bind_ok _ _ _ _ _ (now_run w1)).
    rewrite Hname, Hres, Hcontent. cbn [truthy_opt andb default]. rewrite Htruthy.
    destruct content as [ | | | |items| ]; try reflexivity.
    exfalso. exact (Hshape items eq_refl). }
  unfold tool_try. rewrite (try_throw _ _ _ _ _
    (eq_trans (bind_ok _ _ _ _ _ Hcall) (bind_throw _ _ _ _ _ Hex))).
  unfold tool_catch.
  destruct (extract_null name input (with_clock_reads (S (clock_reads w1)) w1))
    as (info & Hnull & _).
  rewrite (bind_ok _ _ _ _ _ Hnull). eexists _, _. split; [reflexivity|].
  cbn. auto.
Qed.

End ToolCallProperties.

(* ===================================================================== *)
(** * Further properties: the retry loop                                  *)
(* ===================================================================== *)

Section RetryProperties.
Context {env : Env}.

(** X16.  Whatever the model service and the tool servers do, a call of
    [processPromptWithMCP] ends after at most 60 calls of the model
    service and at most three waits, each of one, two, four or six
    seconds. *)
Theorem run_is_bounded_in_calls_and_waits message session w :
  exists delays,
    (model_calls (processPromptWithMCP message session w).2 <= model_calls w + 60)%nat /\
    sleeps (processPromptWithMCP message session w).2 = sleeps w ++ delays /\
    (length delays <= 3)%nat /\
    Forall (fun d => d = 1000 \/ d = 2000 \/ d = 4000 \/ d = 6000) delays.
Proof.
  unfold processPromptWithMCP.
  destruct (retrying_delays maxRetries 0 message session w) as (delays & Hs & Hlen & Hd).
  exists delays. split.
  - pose proof (retrying_calls_bound maxRetries 0 message session w) as H.
    unfold maxRetries, maxIterations in H. unfold maxRetries. lia.
  - split; [exact Hs|]. split; [exact Hlen|].
    apply Forall_lookup_2. intros i d Hi.
    pose proof (lookup_lt_Some _ _ _ Hi) as Hlt. unfold maxRetries in Hlen.
    destruct (Hd i d Hi) as [-> | ->]; [auto|].
    assert (i = 0 \/ i = 1 \/ i = 2)%nat as [-> | [-> | ->]] by lia; cbn; auto.
Qed.

(** X17.  Against a model service that fails at every call with an error
    other than the overload status, a call of [processPromptWithMCP]
    throws the error of the third call, after two waits of one second, and
    leaves every session object as it was. *)
Theorem third_failure_is_thrown message session w :
  (forall n, exists e, model_reply n = Throw e /\ status e <> Some 529) ->
  exists e w',
    processPromptWithMCP message session w = (Throw e, w') /\
    model_reply (model_calls w + 2) = Throw e /\
    model_calls w' = (model_calls w + 3)%nat /\
    sleeps w' = sleeps w ++ [1000; 1000] /\
    heap w' = heap w /\ sessions w' = sessions w.
Proof.
  intros Hfail. unfold processPromptWithMCP, maxRetries.
  destruct (Hfail (model_calls w)) as (e1 & H1 & S1).
  erewrite retrying_failed; [|exact H1|exact S1].
  destruct (decide _) as [Hle|_]; [unfold maxRetries in Hle; lia|].
  destruct (Hfail (S (model_calls w))) as (e2 & H2 & S2).
  erewrite retrying_failed; [|exact H2|exact S2].
  destruct (decide _) as [Hle|_]; [unfold maxRetries in Hle; lia|].
  destruct (Hfail (S (S (model_calls w)))) as (e3 & H3 & S3).
  erewrite retrying_failed; [|exact H3|exact S3].
  destruct (decide _) as [_|Hgt]; [|unfold maxRetries in Hgt; lia].
  exists e3. eexists. split; [reflexivity|].
  split; [rewrite <- H3; f_equal; cbn; lia|]. cbn.
  split; [lia|]. rewrite <- app_assoc. auto.
Qed.

End RetryProperties.

(* ===================================================================== *)
(** * Further properties: the stream of a tool server                     *)
(* ===================================================================== *)

Section StreamProperties.
Context {env : Env}.

Lemma string_app_assoc (a b c : string) : (a +:+ b) +:+ c = a +:+ (b +:+ c).
Proof.
  induction a as [|x a IH]; [reflexivity|].
  change (String x ((a +:+ b) +:+ c) = String x (a +:+ (b +:+ c))). rewrite IH. reflexivity.
Qed.

(** [split('\n')] of a text that goes on: the pieces before the last stay,
    and the last is continued by the first piece of what follows. *)
Lemma split_lines_app a :
  exists init lst,
    split_lines a = init ++ [lst] /\ Bridge.no_newline lst = true /\
    forall b hb tb, split_lines b = hb :: tb ->
                    split_lines (a +:+ b) = init ++ (lst +:+ hb) :: tb.
Proof.
  induction a as [|c r (init & lst & Hr & Hnl & Hgo)].
  - exists [], EmptyString. split; [reflexivity|]. split; [reflexivity|].
    intros b hb tb Hb. exact Hb.
  - change (String c r +:+ ?b) with (String c (r +:+ b)). cbn [split_lines].
    destruct (Ascii.eqb c newline) eqn:Hc.
    + exists (EmptyString :: init), lst. rewrite Hr. split; [reflexivity|].
      split; [exact Hnl|]. intros b hb tb Hb.
      rewrite (Hgo b hb tb Hb). reflexivity.
    + destruct init as [|h init].
      * exists [], (String c lst). rewrite Hr. split; [reflexivity|].
        split; [cbn; rewrite Hc, Hnl; reflexivity|]. intros b hb tb Hb.
        rewrite (Hgo b hb tb Hb). reflexivity.
      * exists (String c h :: init), lst. rewrite Hr. split; [reflexivity|].
        split; [exact Hnl|]. intros b hb tb Hb.
        rewrite (Hgo b hb tb Hb). reflexivity.
Qed.

Lemma split_lines_cons s : exists h t, split_lines s = h :: t.
Proof.
  destruct (split_lines_app s) as (init & lst & -> & _).
  destruct init as [|h init]; eexists _, _; reflexivity.
Qed.

Lemma split_lines_one s : Bridge.no_newline s = true -> split_lines s = [s].
Proof.
  induction s as [|c r IH]; [reflexivity|]. cbn.
  intros [Hc Hr]%andb_prop. apply negb_true_iff in Hc. rewrite Hc, (IH Hr). reflexivity.
Qed.

(** The loop of [dataHandler] passes over the lines it has rejected. *)
Lemma scan_step id line x rest :
  Bridge.scan id (line :: x :: rest)
  = if is_empty (trim line) then Bridge.scan id (x :: rest)
    else match JSON_parse (trim line) with
         | Some response =>
             if strict_eq_num (prop response "id") id then inl response
             else Bridge.scan id (x :: rest)
         | None => Bridge.scan id (x :: rest)
         end.
Proof. reflexivity. Qed.

Lemma scan_passed id init : forall lst b,
  Bridge.scan id (init ++ [lst]) = inr b ->
  b = lst /\ forall h t, Bridge.scan id (init ++ h :: t) = Bridge.scan id (h :: t).
Proof.
  induction init as [|line init IH]; intros lst b.
  - cbn. intros [= <-]. auto.
  - cbn [app].
    destruct (init ++ [lst]) as [|x rest] eqn:Hshape; [destruct init; discriminate|].
    rewrite scan_step, <- Hshape. intros Hscan.
    assert (Hrest : Bridge.scan id (init ++ [lst]) = inr b).
    { destruct (is_empty (trim line)); [exact Hscan|].
      destruct (JSON_parse (trim line)) as [r|]; [|exact Hscan].
      destruct (strict_eq_num (prop r "id") id); [discriminate|exact Hscan]. }
    destruct (IH lst b Hrest) as [-> Hgo]. split; [reflexivity|]. intros h t.
    destruct (init ++ h :: t) as [|y rest'] eqn:Hshape'; [destruct init; discriminate|].
    rewrite scan_step, <- Hshape', (Hgo h t).
    destruct (is_empty (trim line)); [reflexivity|].
    destruct (JSON_parse (trim line)) as [r|]; [|reflexivity].
    destruct (strict_eq_num (prop r "id") id) eqn:E; [|reflexivity].
    discriminate.
Qed.

(** What a listener does with the text of the stream does not depend on
    where the text is cut. *)
Lemma dataHandler_concat l c1 c2 l1 :
  Bridge.dataHandler l c1 = inr l1 ->
  Bridge.dataHandler l1 c2 = Bridge.dataHandler l (c1 +:+ c2) /\
  Bridge.no_newline (Bridge.responseBuffer l1) = true /\
  Bridge.promise l1 = Bridge.promise l /\ Bridge.request_id l1 = Bridge.request_id l.
Proof.
  unfold Bridge.dataHandler.
  destruct (Bridge.scan _ (split_lines (Bridge.responseBuffer l +:+ c1))) as [r|b] eqn:Hscan;
    [discriminate|].
  intros [= <-]. cbn [Bridge.responseBuffer Bridge.promise Bridge.request_id].
  destruct (split_lines_app (Bridge.responseBuffer l +:+ c1)) as (init & lst & Hsplit & Hnl & Hgo).
  rewrite Hsplit in Hscan. destruct (scan_passed _ _ _ _ Hscan) as [-> Hpass].
  split; [|auto].
  destruct (split_lines_cons c2) as (hb & tb & Hc2).
  rewrite <- string_app_assoc, (Hgo c2 hb tb Hc2), Hpass.
  destruct (split_lines_app lst) as (init' & lst' & Hsplit' & _ & Hgo').
  rewrite (split_lines_one lst Hnl) in Hsplit'.
  destruct init' as [|x init']; [|destruct init'; discriminate].
  injection Hsplit' as <-. rewrite (Hgo' c2 hb tb Hc2). reflexivity.
Qed.

(** X18.  A listener receives the stream in chunks of bytes and decodes
    each chunk on its own.  Where the cut between two chunks does not
    change the decoded text, that is, where decoding the two chunks one by
    one gives the text of decoding them as one, as it does whenever the cut
    does not fall inside a character of several bytes, the cut does not
    matter: after a chunk that did not bring its record, the listener
    treats the next chunk exactly as it would have treated the two chunks
    arriving as one.  What it keeps between chunks is the unfinished last
    line, which holds no newline. *)
Theorem chunking_does_not_matter toString l b1 b2 l1 :
  toString (b1 ++ b2) = toString b1 +:+ toString b2 ->
  on_chunk toString l b1 = inr l1 ->
  on_chunk toString l1 b2 = on_chunk toString l (b1 ++ b2) /\
  Bridge.no_newline (Bridge.responseBuffer l1) = true /\
  Bridge.promise l1 = Bridge.promise l /\ Bridge.request_id l1 = Bridge.request_id l.
Proof.
  unfold on_chunk. intros Hcut Hfirst. rewrite Hcut.
  exact (dataHandler_concat l (toString b1) (toString b2) l1 Hfirst).
Qed.

(** X19.  A request whose 45-second timer has fired is rejected for good,
    whatever the server writes later, while its listener stays registered
    on the stream of the server: the timer neither removes it nor clears
    anything. *)
Theorem timed_out_request_stays_rejected p s chunks :
  Bridge.promises s !! p = None ->
  let timeout := Bridge.Rejected (Error "Request timeout after 45 seconds" None) in
  Bridge.promises (Bridge.on_timeout p s) !! p = Some timeout /\
  Bridge.listeners (Bridge.on_timeout p s) = Bridge.listeners s /\
  Bridge.stdin (Bridge.on_timeout p s) = Bridge.stdin s /\
  Bridge.promises (foldl (fun s data => Bridge.on_data data s) (Bridge.on_timeout p s) chunks)
    !! p = Some timeout.
Proof.
  intros Hpending timeout.
  assert (Hnow : Bridge.promises (Bridge.on_timeout p s) !! p = Some timeout)
    by (apply settle_pending, Hpending).
  split; [exact Hnow|]. split; [reflexivity|]. split; [reflexivity|].
  revert Hnow. generalize (Bridge.on_timeout p s). clear.
  induction chunks as [|data rest IH]; intros s H; [exact H|].
  cbn [foldl]. apply IH. unfold Bridge.on_data.
  pose proof (emit_keeps data (Bridge.listeners s) (Bridge.promises s) p timeout H) as Hk.
  destruct (Bridge.emit _ _ _). exact Hk.
Qed.

(** X20.  Whatever the order in which the records of a server arrive, as
    long as no two of them carry the same id, every pending request that
    registered its listener before them resolves with the record that
    carries its own id. *)
Theorem distinct_records_reach_their_requests records s l line response :
  Forall (fun l => Bridge.responseBuffer l = EmptyString) (Bridge.listeners s) ->
  NoDup (map Bridge.promise (Bridge.listeners s)) ->
  Forall (fun rec => Bridge.is_record rec.1.1 rec.1.2 rec.2) records ->
  NoDup (map snd records) ->
  In l (Bridge.listeners s) -> Bridge.promises s !! Bridge.promise l = None ->
  In (line, response, Bridge.request_id l) records ->
  Bridge.promises (Bridge.deliver (map (fun rec => rec.1.1) records) s) !! Bridge.promise l
  = Some (Bridge.Resolved response).
Proof. apply each_request_gets_its_record. Qed.

End StreamProperties.

(* ===================================================================== *)
(** * Further properties: the catalogue of tools                          *)
(* ===================================================================== *)

Section CatalogueProperties.
Context {env : Env}.

Lemma entry_name_inj s s' d d' :
  s = "custom" \/ s = "playwright" -> s' = "custom" \/ s' = "playwright" ->
  tool_name (Discovery.entry s d) = tool_name (Discovery.entry s' d') ->
  s = s' /\ Discovery.d_name d = Discovery.d_name d'.
Proof.
  intros [-> | ->] [-> | ->]; cbn; intros H; try discriminate H;
    injection H as H; auto.
Qed.

Lemma browser_name n :
  includes "playwright_" ("playwright" +:+ "_" +:+ n) = true /\
  replace_first "playwright_" EmptyString ("playwright" +:+ "_" +:+ n) = n.
Proof. destruct n; split; reflexivity. Qed.

Lemma custom_name n :
  includes "playwright_" ("custom" +:+ "_" +:+ n) = includes "playwright_" n.
Proof. reflexivity. Qed.

Lemma discovered_entries reply old custom playwright t :
  Discovery.answered reply custom playwright ->
  In t (Discovery.discoverAllTools reply old).1 ->
  exists s d, t = Discovery.entry s d /\
    ((s = "custom" /\ In d custom) \/ (s = "playwright" /\ In d playwright)).
Proof.
  intros [Hc Hp]. unfold Discovery.discoverAllTools. rewrite Hc, Hp. cbn.
  intros [H|H]%in_app_or; apply in_map_iff in H as (d & <- & Hd); eauto 10.
Qed.

(** X21.  [discoverAllTools] replaces the catalogue as a whole or leaves
    it as it was, never in between: the new catalogue is the tools of the
    custom server followed by those of the browser server when both
    answered with their lists, and the old one in every other case.  The
    browser server is asked exactly when the request to the custom server
    was answered. *)
Theorem discovery_is_all_or_nothing reply old :
  let out := Discovery.discoverAllTools reply old in
  (forall custom playwright, Discovery.answered reply custom playwright ->
     out.1 = map (Discovery.entry "custom") custom
             ++ map (Discovery.entry "playwright") playwright) /\
  ((forall custom playwright, ~ Discovery.answered reply custom playwright) -> out.1 = old) /\
  out.2 = match reply "custom" with
          | Ok _ => [("custom", 2); ("playwright", 3)]
          | Throw _ => [("custom", 2)]
          end.
Proof.
  unfold Discovery.discoverAllTools, Discovery.answered. cbn zeta.
  destruct (reply "custom") as [[ | |cs]|e]; destruct (reply "playwright") as [[ | |ps]|e'];
    cbn; (split; [intros c p [Hc Hp]; congruence|]); (split; [|reflexivity]);
    try reflexivity.
  intros H. exfalso. exact (H cs ps (conj eq_refl eq_refl)).
Qed.

(** X22.  With the catalogue that [discoverAllTools] built, a call by the
    full name of any entry goes to the server that listed the tool, under
    the name that server gave it, even when the two servers list tools of
    the same name or one server lists a name twice: the full name of an
    entry is the name of its server, an underscore and the original name,
    and the first entry of that full name has the same server and the
    same original name. *)
Theorem catalogue_names_route_back reply old custom playwright t args w :
  Discovery.answered reply custom playwright ->
  availableTools = (Discovery.discoverAllTools reply old).1 ->
  In t availableTools -> mcpServers (server t) = true ->
  tool_name t = server t +:+ "_" +:+ originalName t /\
  (server t = "custom" \/ server t = "playwright") /\
  tool_calls (callTool (tool_name t) args w).2
  = tool_calls w ++ [{| call_server := server t; call_id := clock (clock_reads w);
                        call_name := originalName t; call_arguments := args |}].
Proof.
  intros Hans Hcat Hin Hup.
  assert (Hshape : forall x, In x availableTools ->
            exists s d, x = Discovery.entry s d /\ (s = "custom" \/ s = "playwright")).
  { intros x Hx. rewrite Hcat in Hx.
    destruct (discovered_entries reply old custom playwright x Hans Hx)
      as (s & d & -> & [[-> _]|[-> _]]); eauto. }
  destruct (Hshape t Hin) as (s & d & -> & Hs).
  split; [reflexivity|]. split; [exact Hs|].
  destruct (List.find (fun x => String.eqb (tool_name x) (tool_name (Discovery.entry s d)))
              availableTools) as [t'|] eqn:Hfind.
  - destruct (find_some _ _ Hfind) as [Hin' Heq]. apply String.eqb_eq in Heq.
    destruct (Hshape t' Hin') as (s' & d' & -> & Hs').
    destruct (entry_name_inj s' s d' d Hs' Hs Heq) as [-> Hname].
    rewrite (callTool_id_is_clock _ args w _ Hfind Hup). cbn. rewrite Hname. reflexivity.
  - pose proof (find_none _ _ Hfind _ Hin) as Hno. cbn beta in Hno.
    rewrite String.eqb_refl in Hno. discriminate.
Qed.

(** X23.  With the catalogue that [discoverAllTools] built, the record
    [extractLocatorInfo] makes for a tool of the browser server has the
    name the server gave the tool as its action; for a tool of the custom
    server it has neither action nor locator, so that such a call never
    reaches the locator trail, unless the name the custom server gave the
    tool contains [playwright_]. *)
Theorem only_browser_tools_have_an_action reply old custom playwright t input res w info w' :
  Discovery.answered reply custom playwright ->
  In t (Discovery.discoverAllTools reply old).1 ->
  extractLocatorInfo (tool_name t) input res w = (Ok info, w') ->
  (server t = "playwright" ->
     action info = Some (originalName t) /\ locator info = derive_locator input) /\
  (server t = "custom" -> includes "playwright_" (originalName t) = false ->
     action info = None /\ locator info = None /\
     forall history, push_locator info history = history).
Proof.
  intros Hans Hin Hex.
  destruct (discovered_entries reply old custom playwright t Hans Hin)
    as (s & d & -> & Hs).
  destruct (extract_record (tool_name (Discovery.entry s d)) input res w) as (o & Hrun & Ho).
  rewrite Hrun in Hex. injection Hex as -> _.
  destruct (Ho info eq_refl) as (_ & Hl & Ha & _). rewrite Hl, Ha.
  unfold located, action_of, push_locator. rewrite Hl. unfold located.
  destruct Hs as [[-> _]|[-> _]]; cbn [Discovery.entry tool_name server originalName].
  - split; [discriminate|]. intros _ Hname. rewrite custom_name, Hname. auto.
  - split; [|discriminate]. intros _.
    destruct (browser_name (Discovery.d_name d)) as [-> ->]. auto.
Qed.

(** X28.  When the discovery at startup does not get both lists, the
    server starts with an empty catalogue, and then every tool call the
    model asks for is answered with [Unknown tool] by the API server
    itself: no request is written to any tool server, and the step goes on
    as for any failed call. *)
Theorem without_discovery_every_call_is_unknown reply id name input st w :
  (forall custom playwright, ~ Discovery.answered reply custom playwright) ->
  availableTools = (Discovery.discoverAllTools reply []).1 ->
  exists st',
    try_catch (tool_try id name input st) (tool_catch id name input st) w
    = (Ok st', with_clock_reads (S (clock_reads w)) w) /\
    toolResults st'
    = toolResults st ++ [error_entry id (Error ("Unknown tool: " +:+ name) None)] /\
    ts_contextUpdates st' = ts_contextUpdates st.
Proof.
  intros Hnone Hcat.
  assert (Hempty : availableTools = []).
  { rewrite Hcat. unfold Discovery.discoverAllTools.
    destruct (reply "custom") as [[ | |cs]|e] eqn:Hc; [| | |reflexivity];
      (destruct (reply "playwright") as [[ | |ps]|e'] eqn:Hp; try reflexivity).
    exfalso. exact (Hnone cs ps (conj Hc Hp)). }
  assert (Hcall : callTool name input w
                  = (Throw (Error ("Unknown tool: " +:+ name) None), w))
    by (unfold callTool; rewrite Hempty; reflexivity).
  destruct (tool_step_on_failure id name input st w _ w Hcall)
    as (st' & info & Hrun & Hres & Hctx & _).
  exists st'. auto.
Qed.

End CatalogueProperties.

(* ===================================================================== *)
(** * Further properties: the custom tool server                          *)
(* ===================================================================== *)

Section CustomServerProperties.
Context {env : Env}.

(** X24.  The custom server knows exactly the tools it lists: a call is
    answered with the error [MethodNotFound] if and only if its name is
    not among the names of [tools/list]. *)
Theorem listed_tools_are_the_handled_ones process name args :
  (exists e, MyMCPServer.callTool process name args = inl e /\
             MyMCPServer.code e = MyMCPServer.MethodNotFound)
  <-> ~ In name (map Discovery.d_name MyMCPServer.listTools).
Proof.
  unfold MyMCPServer.callTool. cbn [map MyMCPServer.listTools Discovery.d_name In].
  destruct (String.eqb name "get_system_info") eqn:E1.
  - apply String.eqb_eq in E1. split; [intros (e & [=] & _)|intros H; exfalso; auto].
  - destruct (String.eqb name "echo") eqn:E2.
    + apply String.eqb_eq in E2. split; [|intros H; exfalso; auto].
      intros (e & He & Hcode). destruct (negb _); [|discriminate].
      injection He as <-. discriminate.
    + apply String.eqb_neq in E1, E2. split; [|eauto].
      intros _ [H|[H|[]]]; congruence.
Qed.

(** X25.  What the custom server returns, the API server can read: a
    result is truthy, its [content] is one text item, which becomes the
    content of the entry for the model, and [extractLocatorInfo] does not
    throw on it, whatever the name of the tool.  A result of [echo] is the
    message after [Echo: ], and there is one only for a truthy message:
    the empty string, [0], [false] and [null] are refused. *)
Theorem custom_results_are_readable process name args v :
  MyMCPServer.callTool process name args = inr v ->
  exists text,
    v = MyMCPServer.text_result text /\ truthy v = true /\
    tool_content v = JArr [text_item text] /\
    (name = "echo" ->
       truthy_opt (MyMCPServer.message_of args) = true /\
       text = "Echo: " +:+ to_string_opt (MyMCPServer.message_of args)) /\
    forall toolName input w,
      exists info, extractLocatorInfo toolName input (Some v) w
                   = (Ok info, with_clock_reads (S (clock_reads w)) w).
Proof.
  intros Hcall.
  assert (Hshape : exists text, v = MyMCPServer.text_result text /\
            (name = "echo" ->
               truthy_opt (MyMCPServer.message_of args) = true /\
               text = "Echo: " +:+ to_string_opt (MyMCPServer.message_of args))).
  { revert Hcall. unfold MyMCPServer.callTool.
    destruct (String.eqb name "get_system_info") eqn:E1.
    - apply String.eqb_eq in E1. intros [= <-]. eexists. split; [reflexivity|].
      intros ->. discriminate.
    - destruct (String.eqb name "echo"); [|discriminate].
      destruct (truthy_opt (MyMCPServer.message_of args)); [|discriminate].
      intros [= <-]. eexists. split; [reflexivity|]. auto. }
  destruct Hshape as (text & -> & Hecho). exists text.
  split; [reflexivity|]. split; [reflexivity|]. split; [reflexivity|]. split; [exact Hecho|].
  intros toolName input w. unfold extractLocatorInfo.
  rewrite (bind_ok _ _ _ _ _ (now_run w)).
  destruct (includes "playwright_" toolName); [|eexists; reflexivity].
  cbn. destruct (String.eqb text EmptyString); cbn; eexists; reflexivity.
Qed.

(** X26.  The two files fit: when the custom server is this one, every
    entry the catalogue has for it is called under a name the server
    handles; the only error it can answer is a missing [message] of
    [echo]. *)
Theorem custom_entries_are_handled reply old playwright t process args e :
  Discovery.answered reply MyMCPServer.listTools playwright ->
  In t (Discovery.discoverAllTools reply old).1 -> server t = "custom" ->
  MyMCPServer.callTool process (originalName t) args = inl e ->
  originalName t = "echo" /\
  e = {| MyMCPServer.code := MyMCPServer.InvalidParams;
         MyMCPServer.reason := "Missing message parameter" |} /\
  truthy_opt (MyMCPServer.message_of args) = false.
Proof.
  intros Hans Hin Hserver.
  destruct (discovered_entries reply old _ playwright t Hans Hin)
    as (s & d & -> & [[-> Hd]|[-> _]]); [|discriminate Hserver].
  cbn [Discovery.entry originalName].
  destruct Hd as [<-|[<-|[]]]; cbn; [discriminate|].
  destruct (truthy_opt (MyMCPServer.message_of args)); cbn; [discriminate|].
  intros [= <-]. auto.
Qed.

End CustomServerProperties.

(* ===================================================================== *)
(** * Further properties: sessions do not interfere                       *)
(* ===================================================================== *)

Section IsolationProperties.
Context {env : Env}.

Lemma stored_same w w' id :
  sessions w' !! id = sessions w !! id ->
  (forall r, sessions w !! id = Some r -> heap w' r = heap w r) ->
  stored w' id = stored w id.
Proof.
  unfold stored. intros -> Hh. destruct (sessions w !! id) as [r|] eqn:Hr; [|reflexivity].
  cbn. rewrite (Hh r eq_refl). reflexivity.
Qed.

(** X27.  Every event concerns at most one session: there is an
    identifier such that, under every other identifier, the store holds
    after the event exactly what it held before, with the same record, the
    last-activity timestamp included.  No object is stored under two
    identifiers, so that what a prompt folds into its session shows in no
    other. *)
Theorem every_event_concerns_one_session e w :
  reachable w ->
  exists target, forall id, id <> target -> stored (step e w) id = stored w id.
Proof.
  intros Hw. pose proof (reachable_consistent w Hw) as Hc.
  assert (Hcreated : forall r w1, created w r w1 ->
            forall id, id <> uuidv4 (uuid_calls w) ->
              sessions w1 !! id = sessions w !! id /\
              forall r', sessions w !! id = Some r' -> r' <> r /\ heap w1 r' = heap w r').
  { intros r w1 (-> & _ & Hs & _ & Hh) id Hid. rewrite Hs, lookup_insert_ne by auto.
    split; [reflexivity|]. intros r' Hr'. destruct (Hc id r' Hr') as (Hlt & _).
    split; [lia|]. rewrite Hh. destruct (Nat.eqb_spec r' (next_ref w)); [lia|reflexivity]. }
  assert (Hcontinued : forall r w1, continued w r w1 ->
            forall id, id <> session_id (heap w r) ->
              sessions w1 !! id = sessions w !! id /\
              forall r', sessions w !! id = Some r' -> r' <> r /\ heap w1 r' = heap w r').
  { intros r w1 (_ & (_ & Hs & _) & Hh) id Hid. rewrite Hs. split; [reflexivity|].
    intros r' Hr'. destruct (Hc id r' Hr') as (_ & Hname & _).
    assert (r' <> r) by (intros ->; auto). split; [assumption|].
    rewrite Hh. destruct (Nat.eqb_spec r' r); [contradiction|reflexivity]. }
  destruct e as [[ | |id| |id|body| |id]|n]; unfold step.
  - exists EmptyString. reflexivity.
  - exists (uuidv4 (uuid_calls w)). intros id Hid. rewrite handle_create_world.
    destruct (createSession_run w) as (w1 & Hrun & Hn & Hs & Ht & Hh). rewrite Hrun. cbn [snd].
    destruct (Hcreated (next_ref w) w1 ltac:(repeat split; assumption) id Hid) as [Hl Hr].
    apply stored_same; [exact Hl|]. intros r Hr'. apply (Hr r Hr').
  - exists id. intros k Hk. rewrite (proj1 (handle_session_world id w)).
    destruct (sessions w !! id) as [r|] eqn:Hid.
    + destruct (getSession_found id r w Hid) as (w1 & -> & (_ & Hs & _) & Hh). cbn [snd].
      apply stored_same; [rewrite Hs; reflexivity|]. intros r' Hr'. rewrite Hh.
      destruct (Nat.eqb_spec r' r) as [->|]; [|reflexivity].
      destruct (Hc k r Hr') as (_ & H1 & _), (Hc id r Hid) as (_ & H2 & _). congruence.
    + rewrite (getSession_missing id w Hid). reflexivity.
  - exists EmptyString. reflexivity.
  - exists id. intros k Hk. rewrite handle_delete_world.
    apply stored_same; [|reflexivity]. cbn. apply lookup_delete_ne. auto.
  - destruct (post_prompt_spec body w Hc) as (reply & w' & Hrun & Heff).
    change (handle (PostPrompt body) w) with (post_prompt body w). rewrite Hrun. cbn [snd].
    destruct Heff as [(code & msg & _ & ->)|(r & w1 & Hhow & (_ & Hs & _) & Hpost)];
      [exists EmptyString; reflexivity|].
    assert (Hrest : forall r', r' <> r -> heap w' r' = heap w1 r').
    { intros r' Hr'. destruct Hpost as [[_ ->]|(p & msgs & t & _ & _ & _ & ->)]; [reflexivity|].
      destruct (Nat.eqb_spec r' r); [contradiction|reflexivity]. }
    destruct Hhow as [Hhow|Hhow];
      [exists (session_id (heap w r)); intros id Hid;
       destruct (Hcontinued r w1 Hhow id Hid) as [Hl Hr]
      |exists (uuidv4 (uuid_calls w)); intros id Hid;
       destruct (Hcreated r w1 Hhow id Hid) as [Hl Hr]];
      (apply stored_same; [rewrite Hs; exact Hl|]); intros r' Hr';
      destruct (Hr r' Hr') as [Hne Hsame]; rewrite (Hrest r' Hne); exact Hsame.
  - exists EmptyString. reflexivity.
  - exists id. intros k Hk. rewrite (proj2 (handle_session_world id w)).
    destruct (sessions w !! id) as [r|] eqn:Hid.
    + destruct (getSession_found id r w Hid) as (w1 & -> & (_ & Hs & _) & Hh). cbn [snd].
      apply stored_same; [rewrite Hs; reflexivity|]. intros r' Hr'. rewrite Hh.
      destruct (Nat.eqb_spec r' r) as [->|]; [|reflexivity].
      destruct (Hc k r Hr') as (_ & H1 & _), (Hc id r Hid) as (_ & H2 & _). congruence.
    + rewrite (getSession_missing id w Hid). reflexivity.
  - rewrite fire_timer_world. destruct (timers w !! n) as [id|]; [|exists EmptyString; reflexivity].
    exists id. intros k Hk. rewrite sweep_run. cbn [sessions with_timers].
    destruct (sessions w !! id); [|reflexivity].
    destruct (decide _); [|reflexivity].
    apply stored_same; [|reflexivity]. cbn. apply lookup_delete_ne. auto.
Qed.

End IsolationProperties.

(* ===================================================================== *)
(** * The further properties at concrete inputs                           *)
(* ===================================================================== *)

(** X3 at an identifier nobody was given. *)
Lemma missing_session_is_left_alone_witness :
  sessions initial_world !! "ghost" = None /\
  @handle Cases.helpful (GetHistory "ghost") initial_world
  = (Ok (Failure 404 "Session not found"), initial_world).
Proof.
  assert (H : sessions initial_world !! "ghost" = None) by reflexivity.
  split; [exact H|].
  destruct (@missing_session_is_left_alone Cases.helpful "ghost"
              {| u_locatorHistory := None; u_totalSteps := None; u_context := None |}
              initial_world H) as (_ & _ & _ & Hhistory).
  exact Hhistory.
Defined.

(** X4 at a store with one session. *)
Lemma sessions_are_listed_once_witness :
  consistent Samples.opened /\
  exists all,
    @handle Cases.helpful GetSessions Samples.opened = (Ok (Sessions all), Samples.opened) /\
    length all = 1%nat /\ map sum_id all = ["s0"].
Proof.
  assert (Hc : consistent Samples.opened)
    by (apply (@step_consistent Cases.helpful), consistent_initial).
  split; [exact Hc|].
  destruct (@sessions_are_listed_once Cases.helpful Samples.opened Hc)
    as (all & Hrun & Hlen & _ & Hids & _).
  exists all. split; [exact Hrun|]. split; [exact Hlen|].
  destruct all as [|a [|b rest]]; try discriminate Hlen. cbn [map]. f_equal.
  destruct (proj2 (Hids "s0") (ex_intro _ 0%nat eq_refl)) as [H|[]]. exact H.
Defined.

(** X5 at a first prompt that takes two rounds. *)
Lemma reply_counts_the_run_twice_witness :
  let out := @handle Cases.navigating (PostPrompt (Demo.body "open example.com"))
               initial_world in
  consistent initial_world /\
  exists p s',
    out = (Ok (Prompted p), out.2) /\
    r_totalSteps (result p) = 2%nat /\ info_totalSteps p = 4%nat /\
    stored out.2 (pr_sessionId p) = Some s' /\
    info_totalSteps p = (totalSteps s' + r_totalSteps (result p))%nat.
Proof.
  intros out. split; [exact consistent_initial|].
  assert (H : exists p, out = (Ok (Prompted p), out.2) /\
                        r_totalSteps (result p) = 2%nat /\ info_totalSteps p = 4%nat)
    by (vm_compute; eexists; repeat split).
  destruct H as (p & Hrun & Hsteps & Htotal).
  destruct (@reply_counts_the_run_twice Cases.navigating (Demo.body "open example.com")
              initial_world p out.2 consistent_initial Hrun) as (s' & Hs & Hcount & _).
  exists p, s'. auto.
Defined.

(** X6 at a request to continue a session that was never created. *)
Lemma continuing_unknown_session_is_refused_witness :
  let body := Demo.continuing "ghost" "hello" in
  prompt body = Some (JStr "hello") /\
  truthy_opt (sessionId body) = true /\ truthy_opt (continueSession body) = true /\
  @handle Cases.helpful (PostPrompt body) initial_world
  = (Ok (Failure 404 "Session not found"), initial_world).
Proof.
  intros body. split; [reflexivity|]. split; [reflexivity|]. split; [reflexivity|].
  apply (@continuing_unknown_session_is_refused Cases.helpful body "hello" initial_world);
    reflexivity.
Defined.

(** X7 at a prompt, without a session id, sent while one session is stored. *)
Lemma prompt_without_continue_starts_afresh_witness :
  let out := @handle Cases.helpful (PostPrompt (Demo.body "hello")) Samples.opened in
  consistent Samples.opened /\
  truthy_opt (continueSession (Demo.body "hello")) = false /\
  exists reply, out = (Ok reply, out.2) /\
                heap out.2 0%nat = heap Samples.opened 0%nat.
Proof.
  intros out.
  assert (Hc : consistent Samples.opened)
    by (apply (@step_consistent Cases.helpful), consistent_initial).
  split; [exact Hc|]. split; [reflexivity|].
  assert (H : exists reply, out = (Ok reply, out.2)) by (vm_compute; eexists; reflexivity).
  destruct H as (reply & Hrun). exists reply. split; [exact Hrun|].
  destruct (@prompt_without_continue_starts_afresh Cases.helpful (Demo.body "hello")
              Samples.opened reply out.2 Hc eq_refl Hrun) as [Hobj _].
  apply Hobj. vm_compute. lia.
Defined.

(** X8 at a run of two rounds. *)
Lemma history_is_appended_to_witness :
  let out := @processPromptWithMCP Cases.navigating "open example.com" 0%nat initial_world in
  exists res c turns,
    out = (Ok (Some res), out.2) /\
    messages (heap out.2 0%nat)
    = messages (heap initial_world 0%nat)
      ++ {| role := user; content := PromptText "open example.com" |}
      :: {| role := assistant; content := ReplyBlocks c |} :: turns /\
    S (assistant_turns turns) = r_totalSteps res.
Proof.
  intros out.
  assert (H : exists res, out = (Ok (Some res), out.2)) by (vm_compute; eexists; reflexivity).
  destruct H as (res & Hrun).
  destruct (@history_is_appended_to Cases.navigating "open example.com" 0%nat initial_world
              res out.2 Hrun) as (c & turns & Hm & Hn & _).
  exists res, c, turns. auto.
Defined.

(** X9 at a run with a click whose server does not answer in time. *)
Lemma trail_records_are_located_witness :
  let out := @processPromptWithMCP Cases.flaky "submit the form" 0%nat initial_world in
  exists res,
    out = (Ok (Some res), out.2) /\ length (locators res) = 1%nat /\
    Forall trail_ok (locators res).
Proof.
  intros out.
  assert (H : exists res, out = (Ok (Some res), out.2) /\ length (locators res) = 1%nat)
    by (vm_compute; eexists; split; reflexivity).
  destruct H as (res & Hrun & Hlen). exists res. split; [exact Hrun|]. split; [exact Hlen|].
  exact (@trail_records_are_located Cases.flaky "submit the form" 0%nat initial_world
           res out.2 Hrun).
Defined.

(** X10 at the session of a prompt answered with a navigate call. *)
Lemma stored_histories_are_paired_witness :
  @reachable Cases.navigating Samples.visited /\
  exists s, stored Samples.visited "s0" = Some s /\
            length (messages s) = 4%nat /\ paired (messages s) = true.
Proof.
  assert (Hw : @reachable Cases.navigating Samples.visited)
    by (apply reachable_step, reachable_initial).
  split; [exact Hw|]. exists (heap Samples.visited 0%nat).
  split; [reflexivity|]. split; [reflexivity|].
  exact (@stored_histories_are_paired Cases.navigating Samples.visited "s0" _ Hw eq_refl).
Defined.

(** X11 at the session of a prompt answered with a click. *)
Lemma stored_trails_are_located_witness :
  @reachable Cases.flaky Samples.clicked /\
  exists s, stored Samples.clicked "s0" = Some s /\
            length (locatorHistory s) = 1%nat /\ Forall trail_ok (locatorHistory s).
Proof.
  assert (Hw : @reachable Cases.flaky Samples.clicked)
    by (apply reachable_step, reachable_initial).
  split; [exact Hw|]. exists (heap Samples.clicked 0%nat).
  split; [reflexivity|]. split; [reflexivity|].
  exact (@stored_trails_are_located Cases.flaky Samples.clicked "s0" _ Hw eq_refl).
Defined.

(** X13 at a click whose server does not answer in time. *)
Lemma failed_call_is_told_to_the_model_witness :
  let timeout := Error "Request timeout after 45 seconds" None in
  let out := @callTool Cases.flaky "playwright_playwright_click" Samples.submit
               initial_world in
  out = (Throw timeout, out.2) /\
  exists st' w',
    try_catch
      (@tool_try Cases.flaky "toolu_1" "playwright_playwright_click" Samples.submit
         Cases.no_tools)
      (@tool_catch Cases.flaky "toolu_1" "playwright_playwright_click" Samples.submit
         Cases.no_tools) initial_world = (Ok st', w') /\
    toolResults st' = [error_entry "toolu_1" timeout] /\
    ts_contextUpdates st' = no_updates.
Proof.
  intros timeout out.
  assert (H : out = (Throw timeout, out.2)) by reflexivity.
  split; [exact H|].
  destruct (@failed_call_is_told_to_the_model Cases.flaky "toolu_1"
              "playwright_playwright_click" Samples.submit Cases.no_tools initial_world
              timeout out.2 H) as (st' & info & Hrun & Hres & Hctx & _).
  exists st'. eexists. split; [exact Hrun|]. split; [exact Hres|exact Hctx].
Defined.

(** X15 at a click whose result carries a string as content. *)
Lemma unreadable_result_is_reported_as_failure_witness :
  let result := JObj [("content", JStr "clicked")] in
  let out := @callTool Samples.terse "playwright_playwright_click" Samples.submit
               initial_world in
  out = (Ok result, out.2) /\
  exists st' w',
    try_catch
      (@tool_try Samples.terse "toolu_1" "playwright_playwright_click" Samples.submit
         Cases.no_tools)
      (@tool_catch Samples.terse "toolu_1" "playwright_playwright_click" Samples.submit
         Cases.no_tools) initial_world = (Ok st', w') /\
    toolResults st'
    = [error_entry "toolu_1" (TypeError "toolResult.content.find is not a function")].
Proof.
  intros result out.
  assert (H : out = (Ok result, out.2)) by reflexivity.
  split; [exact H|].
  destruct (@unreadable_result_is_reported_as_failure Samples.terse "toolu_1"
              "playwright_playwright_click" Samples.submit Cases.no_tools initial_world
              result out.2 (JStr "clicked") H eq_refl eq_refl eq_refl eq_refl)
    as (st' & w' & Hrun & Hres & _); [discriminate|].
  exists st', w'. split; [exact Hrun|exact Hres].
Defined.

(** X17 at a model service that is down. *)
Lemma third_failure_is_thrown_witness :
  (forall n, exists e, @model_reply Cases.down n = Throw e /\ status e <> Some 529) /\
  exists w',
    @processPromptWithMCP Cases.down "hello" 0%nat initial_world
    = (Throw Demo.unavailable, w') /\
    model_calls w' = 3%nat /\ sleeps w' = [1000; 1000].
Proof.
  assert (H : forall n, exists e,
            @model_reply Cases.down n = Throw e /\ status e <> Some 529).
  { intros n. exists Demo.unavailable. split; [destruct n; reflexivity|discriminate]. }
  split; [exact H|].
  destruct (@third_failure_is_thrown Cases.down "hello" 0%nat initial_world H)
    as (e & w' & Hrun & He & Hcalls & Hsleeps & _).
  exists w'. injection He as <-. split; [exact Hrun|]. split; [exact Hcalls|exact Hsleeps].
Defined.

(** X18 at a record of 7-bit characters that arrives in two chunks. *)
Lemma chunking_does_not_matter_witness :
  let kept := {| Bridge.promise := 0; Bridge.request_id := 7;
                 Bridge.responseBuffer := Samples.first_chunk |} in
  let b1 := String.list_byte_of_string Samples.first_chunk in
  let b2 := String.list_byte_of_string Samples.second_chunk in
  Samples.seven_bit (b1 ++ b2) = Samples.seven_bit b1 +:+ Samples.seven_bit b2 /\
  @on_chunk Cases.helpful Samples.seven_bit Samples.waiting b1 = inr kept /\
  @on_chunk Cases.helpful Samples.seven_bit kept b2
  = inl (JObj [("id", JNum 7); ("result", JStr "ok")]).
Proof.
  intros kept b1 b2.
  assert (Hcut : Samples.seven_bit (b1 ++ b2)
                 = Samples.seven_bit b1 +:+ Samples.seven_bit b2) by reflexivity.
  assert (H : @on_chunk Cases.helpful Samples.seven_bit Samples.waiting b1 = inr kept)
    by reflexivity.
  split; [exact Hcut|]. split; [exact H|].
  destruct (@chunking_does_not_matter Cases.helpful Samples.seven_bit Samples.waiting
              b1 b2 kept Hcut H) as [-> _].
  reflexivity.
Defined.

(** X19 at a request whose record arrives after its timer has fired. *)
Lemma timed_out_request_stays_rejected_witness :
  let s := (@Bridge.sendMCPRequest Cases.helpful 7 (JObj [("id", JNum 7)])
              Bridge.spawned).2 in
  let late := [Samples.first_chunk; Samples.second_chunk] in
  Bridge.promises s !! 0%nat = None /\
  Bridge.promises
    (foldl (fun s data => @Bridge.on_data Cases.helpful data s) (Bridge.on_timeout 0 s) late)
    !! 0%nat
  = Some (Bridge.Rejected (Error "Request timeout after 45 seconds" None)).
Proof.
  intros s late.
  assert (H : Bridge.promises s !! 0%nat = None) by reflexivity.
  split; [exact H|].
  exact (proj2 (proj2 (proj2
    (@timed_out_request_stays_rejected Cases.helpful 0%nat s late H)))).
Defined.

(** X20 at two requests whose records arrive in the opposite order. *)
Lemma distinct_records_reach_their_requests_witness :
  let first := {| Bridge.promise := 0; Bridge.request_id := 1;
                  Bridge.responseBuffer := EmptyString |} in
  In first (Bridge.listeners Samples.two_pending) /\
  NoDup (map snd Samples.answers) /\
  Bridge.promises
    (@Bridge.deliver Cases.helpful (map (fun rec => rec.1.1) Samples.answers)
       Samples.two_pending) !! 0%nat
  = Some (Bridge.Resolved (JObj [("id", JNum 1); ("result", JStr "first")])).
Proof.
  intros first.
  assert (Hin : In first (Bridge.listeners Samples.two_pending)) by (left; reflexivity).
  assert (Hids : NoDup (map snd Samples.answers)).
  { cbn. apply NoDup_cons. split; [|apply NoDup_singleton].
    intros H%list_elem_of_In. destruct H as [H|[]]. discriminate H. }
  split; [exact Hin|]. split; [exact Hids|].
  apply (@distinct_records_reach_their_requests Cases.helpful Samples.answers
           Samples.two_pending first (Demo.record_line 1 "first")).
  - repeat constructor.
  - cbn. apply NoDup_cons. split; [|apply NoDup_singleton].
    intros H%list_elem_of_In. destruct H as [H|[]]. discriminate H.
  - repeat constructor.
  - exact Hids.
  - exact Hin.
  - reflexivity.
  - right. left. reflexivity.
Defined.

(** X22 at the catalogue of the examples. *)
Lemma catalogue_names_route_back_witness :
  let t := Discovery.entry "playwright" Samples.click in
  Discovery.answered Samples.listing [Samples.echo] [Samples.goto; Samples.click] /\
  @availableTools Cases.helpful = (Discovery.discoverAllTools Samples.listing []).1 /\
  tool_name t = "playwright_playwright_click" /\
  tool_calls (@callTool Cases.helpful (tool_name t) Samples.submit initial_world).2
  = [{| call_server := "playwright"; call_id := 1000; call_name := "playwright_click";
        call_arguments := Samples.submit |}].
Proof.
  intros t.
  assert (Hans : Discovery.answered Samples.listing [Samples.echo]
                   [Samples.goto; Samples.click]) by (split; reflexivity).
  assert (Hcat : @availableTools Cases.helpful
                 = (Discovery.discoverAllTools Samples.listing []).1) by reflexivity.
  split; [exact Hans|]. split; [exact Hcat|]. split; [reflexivity|].
  destruct (@catalogue_names_route_back Cases.helpful Samples.listing [] [Samples.echo]
              [Samples.goto; Samples.click] t Samples.submit initial_world Hans Hcat)
    as (_ & _ & Hcall); [right; right; left; reflexivity|reflexivity|].
  exact Hcall.
Defined.

(** X23 at a click of the browser server. *)
Lemma only_browser_tools_have_an_action_witness :
  let t := Discovery.entry "playwright" Samples.click in
  let info := {| tool := "playwright_playwright_click"; timestamp := 1000;
                 locator := Some (JStr "#submit"); action := Some "playwright_click";
                 element := None; success := true |} in
  In t (Discovery.discoverAllTools Samples.listing []).1 /\
  @extractLocatorInfo Cases.helpful (tool_name t) Samples.submit None initial_world
  = (Ok info, with_clock_reads 1 initial_world) /\
  action info = Some (originalName t).
Proof.
  intros t info.
  assert (Hin : In t (Discovery.discoverAllTools Samples.listing []).1)
    by (right; right; left; reflexivity).
  assert (Hex : @extractLocatorInfo Cases.helpful (tool_name t) Samples.submit None
                  initial_world = (Ok info, with_clock_reads 1 initial_world))
    by reflexivity.
  split; [exact Hin|]. split; [exact Hex|].
  destruct (@only_browser_tools_have_an_action Cases.helpful Samples.listing []
              [Samples.echo] [Samples.goto; Samples.click] t Samples.submit None
              initial_world info _ (conj eq_refl eq_refl) Hin Hex) as [Hbrowser _].
  exact (proj1 (Hbrowser eq_refl)).
Defined.

(** X25 at an echo of two letters. *)
Lemma custom_results_are_readable_witness :
  let args := Some (JObj [("message", JStr "hi")]) in
  MyMCPServer.callTool Samples.host "echo" args = inr (MyMCPServer.text_result "Echo: hi") /\
  exists text,
    MyMCPServer.text_result "Echo: hi" = MyMCPServer.text_result text /\
    @tool_content Cases.helpful (MyMCPServer.text_result "Echo: hi") = JArr [text_item text] /\
    text = "Echo: " +:+ to_string_opt (MyMCPServer.message_of args).
Proof.
  intros args.
  assert (H : MyMCPServer.callTool Samples.host "echo" args
              = inr (MyMCPServer.text_result "Echo: hi")) by reflexivity.
  split; [exact H|].
  destruct (@custom_results_are_readable Cases.helpful Samples.host "echo" args _ H)
    as (text & Hv & _ & Hcontent & Hecho & _).
  exists text. split; [exact Hv|]. split; [exact Hcontent|]. exact (proj2 (Hecho eq_refl)).
Defined.

(** X26 at an echo without arguments. *)
Lemma custom_entries_are_handled_witness :
  let t := Discovery.entry "custom" (nth 1 MyMCPServer.listTools Samples.echo) in
  let out := MyMCPServer.callTool Samples.host (originalName t) None in
  Discovery.answered Samples.listing_of_server MyMCPServer.listTools
    [Samples.goto; Samples.click] /\
  In t (Discovery.discoverAllTools Samples.listing_of_server []).1 /\
  exists e, out = inl e /\ MyMCPServer.code e = MyMCPServer.InvalidParams /\
            originalName t = "echo".
Proof.
  intros t out.
  assert (Hans : Discovery.answered Samples.listing_of_server MyMCPServer.listTools
                   [Samples.goto; Samples.click]) by (split; reflexivity).
  assert (Hin : In t (Discovery.discoverAllTools Samples.listing_of_server []).1)
    by (right; left; reflexivity).
  assert (H : exists e, out = inl e) by (eexists; reflexivity).
  destruct H as (e & Hout). split; [exact Hans|]. split; [exact Hin|]. exists e.
  destruct (custom_entries_are_handled Samples.listing_of_server [] _ t Samples.host None e
              Hans Hin eq_refl Hout) as (Hname & -> & _).
  split; [exact Hout|]. split; [reflexivity|exact Hname].
Defined.

(** X27 at a request for the one stored session. *)
Lemma every_event_concerns_one_session_witness :
  @reachable Cases.helpful Samples.opened /\
  exists target, forall id, id <> target ->
    stored (@step Cases.helpful (Http (GetSession "s0")) Samples.opened) id
    = stored Samples.opened id.
Proof.
  assert (Hw : @reachable Cases.helpful Samples.opened)
    by (apply reachable_step, reachable_initial).
  split; [exact Hw|].
  exact (@every_event_concerns_one_session Cases.helpful (Http (GetSession "s0"))
           Samples.opened Hw).
Defined.

(** X28 at two servers that do not answer in time. *)
Lemma without_discovery_every_call_is_unknown_witness :
  (forall custom playwright, ~ Discovery.answered Samples.silent custom playwright) /\
  @availableTools Samples.bare = (Discovery.discoverAllTools Samples.silent []).1 /\
  exists st',
    try_catch
      (@tool_try Samples.bare "toolu_1" "playwright_playwright_click" Samples.submit
         Cases.no_tools)
      (@tool_catch Samples.bare "toolu_1" "playwright_playwright_click" Samples.submit
         Cases.no_tools) initial_world
    = (Ok st', with_clock_reads 1 initial_world) /\
    toolResults st'
    = [error_entry "toolu_1" (Error "Unknown tool: playwright_playwright_click" None)].
Proof.
  assert (Hnone : forall custom playwright,
            ~ Discovery.answered Samples.silent custom playwright)
    by (intros custom playwright [H _]; discriminate H).
  assert (Hcat : @availableTools Samples.bare
                 = (Discovery.discoverAllTools Samples.silent []).1) by reflexivity.
  split; [exact Hnone|]. split; [exact Hcat|].
  destruct (@without_discovery_every_call_is_unknown Samples.bare Samples.silent "toolu_1"
              "playwright_playwright_click" Samples.submit Cases.no_tools initial_world
              Hnone Hcat) as (st' & Hrun & Hres & _).
  exists st'. split; [exact Hrun|exact Hres].
Defined.

(* ===================================================================== *)
(** * A run, call by call and round by round                              *)
(* ===================================================================== *)

Section RunTrace.
Context {env : Env}.

Lemma located_of_no_fields name input :
  no_selector_fields input -> located name input = None.
Proof.
  intros (Hs & Hloc & Htext & Hrn). unfold located, derive_locator.
  rewrite Hs, Hloc, Htext. cbn [truthy_opt].
  destruct Hrn as [-> | ->]; cbn [truthy_opt]; rewrite ?andb_false_r;
    destruct (includes "playwright_" name); reflexivity.
Qed.

Lemma located_of_selector name input :
  includes "playwright_" name = true -> truthy_opt (field "selector" input) = true ->
  located name input = field "selector" input.
Proof. intros Hname Hsel. unfold located, derive_locator. rewrite Hname, Hsel. reflexivity. Qed.

(** One tool call: its entry, what it adds to the trail, and the world it
    leaves. *)
Lemma tool_step_outcome id name input st w st' w' :
  try_catch (tool_try id name input st) (tool_catch id name input st) w = (Ok st', w') ->
  exists recs k,
    toolResults st' = toolResults st ++ [call_entry id name input w] /\
    ts_locatorHistory st' = ts_locatorHistory st ++ recs /\
    trail_of_call (ToolUseBlock id name input) recs /\
    (clock_reads (callTool name input w).2 < k)%nat /\
    w' = with_clock_reads k (callTool name input w).2.
Proof.
  assert (Htrail : forall info,
    tool info = name -> locator info = located name input ->
    exists recs, push_locator info (ts_locatorHistory st) = ts_locatorHistory st ++ recs /\
                 trail_of_call (ToolUseBlock id name input) recs).
  { intros info Ht Hl. unfold push_locator. rewrite Hl.
    destruct (truthy_opt (located name input)) eqn:Htruthy.
    - exists [info]. split; [reflexivity|]. split; [cbn; lia|]. split.
      + intros Hnone. rewrite (located_of_no_fields name input Hnone) in Htruthy.
        discriminate.
      + intros Hname Hsel. exists info. rewrite Hl.
        rewrite (located_of_selector name input Hname Hsel). auto.
    - exists []. split; [rewrite app_nil_r; reflexivity|]. split; [cbn; lia|].
      split; [reflexivity|].
      intros Hname Hsel. rewrite (located_of_selector name input Hname Hsel) in Htruthy.
      congruence. }
  assert (Hcatch : forall e w1,
    tool_catch id name input st e w1 = (Ok st', w') ->
    exists recs,
      toolResults st' = toolResults st ++ [error_entry id e] /\
      ts_locatorHistory st' = ts_locatorHistory st ++ recs /\
      trail_of_call (ToolUseBlock id name input) recs /\
      w' = with_clock_reads (S (clock_reads w1)) w1).
  { intros e w1. unfold tool_catch.
    destruct (extract_null name input w1) as (info & Hex & Ht & Hl).
    rewrite (bind_ok _ _ _ _ _ Hex). intros [= <- <-].
    destruct (Htrail (failed info) Ht Hl) as (recs & Hpush & Hrecs).
    exists recs. cbn. auto. }
  unfold call_entry, try_catch, tool_try. unfold bind at 1.
  destruct (callTool name input w) as [[result|e] w1] eqn:Hcall; cbn [fst snd].
  2:{ intros H. destruct (Hcatch e w1 H) as (recs & H1 & H2 & H3 & H4).
      exists recs, (S (clock_reads w1)). repeat (split; [assumption|]). split; [lia|exact H4]. }
  unfold bind at 1.
  destruct (extract_spec name input (Some result) w1) as (o & Hex & Ho). rewrite Hex.
  destruct o as [info|e]; cbn [fst].
  2:{ intros H. destruct (Hcatch e _ H) as (recs & H1 & H2 & H3 & H4).
      exists recs, (S (S (clock_reads w1))). repeat (split; [assumption|]).
      split; [lia|exact H4]. }
  destruct (Ho info eq_refl) as (Ht & Hl).
  destruct (Htrail info Ht Hl) as (recs & Hpush & Hrecs).
  fold (tool_content result).
  destruct (String.eqb name "playwright_playwright_screenshot").
  - rewrite (bind_ok _ _ _ _ _ (bind_ok _ _ _ _ _ (now_run _))). cbn [ret].
    intros [= <- <-]. exists recs, (S (S (clock_reads w1))). cbn.
    repeat (split; [first [reflexivity|assumption]|]). split; [lia|reflexivity].
  - cbn [bind ret]. unfold bind, ret. intros [= <- <-].
    exists recs, (S (clock_reads w1)). cbn.
    repeat (split; [first [reflexivity|assumption]|]). split; [lia|reflexivity].
Qed.

(** The loop over the tool calls of one reply. *)
Lemma run_tools_trace uses : forall st w st' w',
  run_tools uses st w = (Ok st', w') ->
  exists results per_call,
    toolResults st' = toolResults st ++ results /\
    calls_answered uses w results w' /\
    ts_locatorHistory st' = ts_locatorHistory st ++ concat per_call /\
    Forall2 trail_of_call uses per_call.
Proof.
  induction uses as [|[text|id name input|type] rest IH]; intros st w st' w';
    cbn [run_tools calls_answered].
  - intros [= <- <-]. exists [], []. cbn. rewrite !app_nil_r. auto using Forall2_nil.
  - intros H. destruct (IH st w st' w' H) as (results & per_call & H1 & H2 & H3 & H4).
    exists results, ([] :: per_call). cbn. repeat (split; [assumption|]).
    constructor; [reflexivity|exact H4].
  - unfold bind at 1.
    destruct (try_catch _ _ w) as [[st1|e] w1] eqn:Hone; [|discriminate].
    intros H.
    destruct (tool_step_outcome id name input st w st1 w1 Hone)
      as (recs & k & Hres & Htrail & Hrecs & Hk & ->).
    destruct (IH st1 _ st' w' H) as (results & per_call & H1 & H2 & H3 & H4).
    exists (call_entry id name input w :: results), (recs :: per_call).
    split; [rewrite H1, Hres, <- app_assoc; reflexivity|].
    split; [exists results, k; auto|].
    split; [rewrite H3, Htrail; cbn; rewrite <- app_assoc; reflexivity|].
    constructor; assumption.
  - intros H. destruct (IH st w st' w' H) as (results & per_call & H1 & H2 & H3 & H4).
    exists results, ([] :: per_call). cbn. repeat (split; [assumption|]).
    constructor; [reflexivity|exact H4].
Qed.

(** One round of the loop. *)
Lemma round_trace l w l' w' :
  round l w = (Ok l', w') ->
  exists content results per_call,
    model_reply (model_calls w) = Ok content /\
    model_calls w' = S (model_calls w) /\
    iteration l' = S (iteration l) /\
    finalResult l' = accumulate (finalResult l) (reply_text content) /\
    conversationComplete l' = (if tool_uses content is [] then true else false) /\
    l_messages l'
    = l_messages l
      ++ {| role := assistant; content := ReplyBlocks content |}
      :: (if tool_uses content is [] then []
          else [{| role := user; content := ToolResults results |}]) /\
    calls_answered (tool_uses content) (with_model_calls (S (model_calls w)) w) results w' /\
    l_locatorHistory l' = l_locatorHistory l ++ concat per_call /\
    Forall2 trail_of_call (tool_uses content) per_call.
Proof.
  unfold round, bind at 1, messages_create.
  destruct (model_reply (model_calls w)) as [content|e]; [|discriminate].
  destruct (tool_uses content) as [|u us] eqn:Hu.
  - intros [= <- <-]. exists content, [], []. rewrite Hu. cbn. rewrite app_nil_r.
    repeat split. constructor.
  - unfold bind at 1.
    destruct (run_tools (u :: us) _ _) as [[st'|e] w1] eqn:Hrun; [|discriminate].
    intros [= <- <-].
    destruct (run_tools_trace _ _ _ _ _ Hrun) as (results & per_call & H1 & H2 & H3 & H4).
    destruct (run_tools_spec (u :: us)
                {| toolResults := []; ts_locatorHistory := l_locatorHistory l;
                   ts_contextUpdates := contextUpdates l |}
                (with_model_calls (S (model_calls w)) w))
      as (st2 & w2 & entries & Hrun2 & Hw & _).
    rewrite Hrun in Hrun2. injection Hrun2 as <- <-.
    destruct Hw as (_ & _ & _ & _ & _ & Hmc & _).
    exists content, results, per_call. rewrite Hu. cbn in H1, H3 |- *.
    rewrite H1, <- app_assoc.
    repeat (split; [first [reflexivity|assumption]|]). exact H4.
Qed.

Lemma conversation_done remaining l w :
  conversationComplete l = true -> conversation remaining l w = (Ok l, w).
Proof. intros H. destruct remaining; cbn; [|rewrite H]; reflexivity. Qed.

(** The [while] loop of an attempt that ends: its rounds, one by one. *)
Lemma conversation_trace remaining : forall l w l' w',
  conversation remaining l w = (Ok l', w') -> conversationComplete l = false ->
  exists k per_call,
    (k <= remaining)%nat /\
    model_calls w' = (model_calls w + k)%nat /\
    iteration l' = (iteration l + k)%nat /\
    (forall i, (i < k)%nat ->
       exists c, model_reply (model_calls w + i) = Ok c /\
                 ((S i < k)%nat -> tool_uses c <> [])) /\
    (k = remaining \/
     (1 <= k)%nat /\ tool_uses (reply_at (model_calls w + (k - 1))) = []) /\
    finalResult l'
    = foldl accumulate (finalResult l) (map reply_text (replies_from (model_calls w) k)) /\
    l_locatorHistory l' = l_locatorHistory l ++ concat per_call /\
    Forall2 trail_of_call (calls_from (model_calls w) k) per_call.
Proof.
  induction remaining as [|rem IH]; intros l w l' w'; cbn [conversation].
  - intros [= <- <-] _. exists 0%nat, []. cbn. rewrite !Nat.add_0_r, app_nil_r.
    repeat (split; [first [reflexivity|lia|auto]|]). constructor.
  - intros Hrun Hgo. rewrite Hgo in Hrun. unfold bind at 1 in Hrun.
    destruct (round l w) as [[l1|e] w1] eqn:Hround; [|discriminate].
    destruct (round_trace l w l1 w1 Hround)
      as (content & results & per_call & Hreply & Hmc & Hit & Hfin & Hcc & _ & _ & Hloc & Htrail).
    assert (Hat : reply_at (model_calls w) = content)
      by (unfold reply_at; rewrite Hreply; reflexivity).
    destruct (tool_uses content) as [|u us] eqn:Hu.
    + rewrite (conversation_done rem l1 w1 Hcc) in Hrun. injection Hrun as <- <-.
      exists 1%nat, per_call. unfold calls_from, replies_from. cbn [seq map flat_map foldl].
      rewrite Hat, Hu, app_nil_r.
      split; [lia|]. split; [lia|]. split; [lia|]. split.
      { intros i Hi. assert (i = 0)%nat as -> by lia. rewrite Nat.add_0_r.
        exists content. split; [exact Hreply|lia]. }
      split.
      { right. split; [lia|]. cbn. rewrite Nat.add_0_r, Hat. exact Hu. }
      auto.
    + destruct (IH l1 w1 l' w' Hrun Hcc)
        as (k & per_call' & Hk & Hmc' & Hit' & Hrounds & Hend & Hfin' & Hloc' & Htrail').
      exists (S k), (per_call ++ per_call').
      unfold calls_from, replies_from in *. cbn [seq map flat_map foldl].
      rewrite Hmc in *. rewrite Hat, Hu.
      split; [lia|]. split; [lia|]. split; [lia|]. split.
      { intros [|i] Hi.
        - rewrite Nat.add_0_r. exists content. split; [exact Hreply|].
          intros _. rewrite Hu. discriminate.
        - destruct (Hrounds i ltac:(lia)) as (c & Hc & Hnext).
          exists c. replace (model_calls w + S i)%nat with (S (model_calls w) + i)%nat by lia.
          split; [exact Hc|]. intros H. apply Hnext. lia. }
      split.
      { destruct Hend as [->|[Hpos Hlast]]; [left; reflexivity|]. right.
        split; [lia|].
        replace (model_calls w + (S k - 1))%nat
          with (S (model_calls w) + (k - 1))%nat by lia.
        exact Hlast. }
      split; [rewrite Hfin', Hfin; reflexivity|].
      split; [rewrite Hloc', Hloc, concat_app, <- app_assoc; reflexivity|].
      apply Forall2_app; assumption.
Qed.

Lemma said_is_reply_text content : said content = reply_text content.
Proof.
  unfold said, reply_text. f_equal.
  induction content as [|[t|i n a|t] rest IH]; cbn; rewrite ?IH; reflexivity.
Qed.

Lemma append_is_assoc (a b c : string) : (a +:+ b) +:+ c = a +:+ (b +:+ c).
Proof.
  induction a as [|x a IH]; [reflexivity|].
  change (String x ((a +:+ b) +:+ c) = String x (a +:+ (b +:+ c))). rewrite IH. reflexivity.
Qed.

(** What the code accumulates is the transcript of the replies. *)
Lemma accumulate_is_join texts : forall start,
  foldl accumulate start texts
  = join (String newline (String newline EmptyString))
      (List.filter (fun t => negb (String.eqb t EmptyString)) (start :: texts)).
Proof.
  induction texts as [|t rest IH]; intros start.
  - cbn. destruct (String.eqb_spec start EmptyString) as [->|]; reflexivity.
  - cbn [foldl]. rewrite IH. unfold accumulate, is_empty. cbn [List.filter].
    destruct (String.eqb_spec t EmptyString) as [->|Ht]; cbn [negb]; [reflexivity|].
    destruct (String.eqb_spec start EmptyString) as [->|Hs]; cbn [negb].
    + change (EmptyString +:+ EmptyString +:+ t) with t.
      destruct (String.eqb_spec t EmptyString); [contradiction|reflexivity].
    + destruct (String.eqb_spec
                  (start +:+ String newline (String newline EmptyString) +:+ t)
                  EmptyString) as [Hnil|_].
      { destruct start; [contradiction|discriminate Hnil]. }
      cbn [negb join].
      destruct (List.filter _ rest) as [|x xs]; [reflexivity|].
      rewrite !append_is_assoc. reflexivity.
Qed.

Lemma accumulated_transcript replies :
  foldl accumulate EmptyString (map reply_text replies) = transcript replies.
Proof.
  rewrite accumulate_is_join. unfold transcript. cbn [List.filter String.eqb negb].
  do 2 f_equal. induction replies as [|c rest IH]; [reflexivity|].
  cbn [map]. rewrite said_is_reply_text, IH. reflexivity.
Qed.


(** An attempt that returns: its rounds, its text and its records. *)
Lemma attempt_trace message session w res w' :
  attempt message session w = (Ok res, w') ->
  exists per_call,
    (1 <= r_totalSteps res <= maxIterations)%nat /\
    model_calls w' = (model_calls w + r_totalSteps res)%nat /\
    (forall i, (i < r_totalSteps res)%nat ->
       exists c, model_reply (model_calls w + i) = Ok c /\
                 ((S i < r_totalSteps res)%nat -> tool_uses c <> [])) /\
    (r_totalSteps res = maxIterations \/
     tool_uses (reply_at (model_calls w + (r_totalSteps res - 1))) = []) /\
    response res = answer (replies_from (model_calls w) (r_totalSteps res)) /\
    locators res = concat per_call /\
    Forall2 trail_of_call (calls_from (model_calls w) (r_totalSteps res)) per_call.
Proof.
  unfold attempt. rewrite (bind_ok _ _ _ _ _ (deref_run session w)).
  unfold bind at 1.
  destruct (conversation maxIterations _ w) as [[l|e] w1] eqn:Hconv; [|discriminate].
  cbn. intros [= <- <-].
  destruct (conversation_trace _ _ _ _ _ Hconv eq_refl)
    as (k & per_call & Hk & Hmc & Hit & Hrounds & Hend & Hfin & Hloc & Htrail).
  cbn in Hit, Hfin, Hloc. subst k. exists per_call. cbn.
  split; [unfold maxIterations in *; lia|]. split; [exact Hmc|]. split; [exact Hrounds|].
  split; [destruct Hend as [?|[_ ?]]; auto|].
  split; [|split; [exact Hloc|exact Htrail]].
  rewrite Hfin, accumulated_transcript. reflexivity.
Qed.

(** The retry loop, when it returns a result: the result is that of one
    attempt, made after the attempts that failed, which left the session
    objects as they were. *)
Lemma retrying_trace remaining : forall retryCount message session w res w',
  retrying remaining retryCount message session w = (Ok (Some res), w') ->
  exists w0,
    attempt message session w0 = (Ok res, w') /\ heap w0 = heap w /\
    (model_calls w <= model_calls w0)%nat /\
    (model_calls w0 = model_calls w \/
     (model_calls w < model_calls w0)%nat /\
     exists e, model_reply (model_calls w0 - 1) = Throw e).
Proof.
  induction remaining as [|k IH]; intros retryCount message session w res w';
    cbn [retrying]; [discriminate|].
  unfold try_catch, bind at 1.
  destruct (attempt_spec message session w) as (o & w1 & Hrun & _ & _ & Hpost).
  rewrite Hrun. destruct o as [res1|e]; cbn [ret].
  - intros [= <- <-]. exists w. auto.
  - destruct Hpost as (Hheap & n & Hn & Hmc & Hthrow).
    assert (Hnext : forall d,
      bind (sleep d) (fun _ => retrying k (S retryCount) message session) w1
      = (Ok (Some res), w') ->
      exists w0,
        attempt message session w0 = (Ok res, w') /\ heap w0 = heap w /\
        (model_calls w <= model_calls w0)%nat /\
        (model_calls w0 = model_calls w \/
         (model_calls w < model_calls w0)%nat /\
         exists e, model_reply (model_calls w0 - 1) = Throw e)).
    { intros d. unfold bind at 1. cbn [sleep]. intros H.
      destruct (IH _ _ _ _ _ _ H) as (w0 & Hatt & Hh & Hle & Hwhy).
      cbn [model_calls heap with_sleeps] in Hh, Hle, Hwhy.
      exists w0. split; [exact Hatt|]. split; [congruence|]. split; [lia|].
      right. split; [lia|].
      destruct Hwhy as [Heq|[_ Hfail]]; [|exact Hfail].
      exists e. rewrite <- Hthrow. f_equal. lia. }
    destruct (decide (status e = Some 529)); [apply Hnext|].
    destruct (decide _); [discriminate|apply Hnext].
Qed.



End RunTrace.

(* ===================================================================== *)
(** * The prompt route, case by case                                      *)
(* ===================================================================== *)

Section PromptCases.
Context {env : Env}.

(** How [POST /api/prompt] comes by its session. *)
Lemma resolve_session_detail body w :
  consistent w ->
  exists o w0, resolve_session body w = (Ok o, w0) /\
    model_calls w0 = model_calls w /\
    match o with
    | None => w0 = w
    | Some r =>
        sessions w0 !! session_id (heap w0 r) = Some r /\
        ((exists id, sessionId body = Some (JStr id) /\ sessions w !! id = Some r /\
                     continued w r w0) \/
         created w r w0)
    end.
Proof.
  intros Hc. unfold resolve_session.
  destruct (truthy_opt (sessionId body) && truthy_opt (continueSession body)).
  - destruct (sessionId body) as [[ | | |id| | ]|];
      try (exists None, w; repeat split; reflexivity).
    destruct (sessions w !! id) as [r|] eqn:Hid.
    + destruct (getSession_found id r w Hid) as (w1 & Hrun & Hw & Hh).
      exists (Some r), w1. split; [exact Hrun|].
      split; [unfold getSession, bind at 1, sessions_get in Hrun; rewrite Hid in Hrun;
              injection Hrun as <-; reflexivity|].
      destruct (Hc id r Hid) as (Hlt & Hsid & _).
      split.
      * rewrite Hh, Nat.eqb_refl. simpl. rewrite Hsid.
        destruct Hw as (_ & -> & _). exact Hid.
      * left. exists id. split; [reflexivity|]. split; [exact Hid|].
        repeat split; try apply Hw; assumption.
    + exists None, w. split; [apply getSession_missing, Hid|]. split; reflexivity.
  - destruct (createSession_run w) as (w1 & Hrun & Hn & Hs & Ht & Hh).
    rewrite (bind_ok _ _ _ _ _ Hrun).
    exists (Some (next_ref w)), w1. split; [reflexivity|].
    split; [unfold createSession in Hrun; cbn in Hrun; injection Hrun as <-; reflexivity|].
    split; [rewrite Hh, Nat.eqb_refl; simpl; rewrite Hs; apply lookup_insert_eq|].
    right. repeat split; assumption.
Qed.

(** After the run the route calls the model service no more. *)
Lemma prompt_in_session_calls message r w :
  model_calls (prompt_in_session message r w).2
  = model_calls (processPromptWithMCP message r w).2.
Proof.
  unfold prompt_in_session, bind at 1.
  destruct (processPromptWithMCP message r w) as [[[res|]|e] w1]; [|reflexivity..].
  cbn [snd]. rewrite (bind_ok _ _ _ _ _ (deref_run r w1)).
  unfold updateSession, bind at 1 2, sessions_get.
  destruct (sessions w1 !! session_id (heap w1 r)); reflexivity.
Qed.

(** [POST /api/prompt], by its ways out: the request is refused and
    nothing happens; or a session is continued or created, and then the
    run fails, which leaves the objects as they are, or returns a result,
    which is folded into the session. *)
Lemma post_prompt_cases body w :
  consistent w ->
  exists reply w', handle (PostPrompt body) w = (Ok reply, w') /\
    ((exists code msg, reply = Failure code msg /\ w' = w) \/
     exists text r w0,
       prompt body = Some (JStr text) /\
       model_calls w0 = model_calls w /\
       sessions w0 !! session_id (heap w0 r) = Some r /\
       ((exists id, sessionId body = Some (JStr id) /\ sessions w !! id = Some r /\
                    continued w r w0) \/
        created w r w0) /\
       shell w0 w' /\
       model_calls w' = model_calls (processPromptWithMCP text r w0).2 /\
       ((reply = Failure 500 "Internal server error" /\ heap w' = heap w0) \/
        exists res w1,
          processPromptWithMCP text r w0 = (Ok (Some res), w1) /\
          reply = Prompted
            {| result := res; pr_sessionId := session_id (heap w0 r);
               info_totalSteps :=
                 (totalSteps (heap w0 r) + r_totalSteps res + r_totalSteps res)%nat;
               info_totalLocators :=
                 (length (locatorHistory (heap w0 r) ++ locators res)
                  + length (locators res))%nat;
               info_sessionAge := clock (S (clock_reads w1)) - createdAt (heap w0 r) |} /\
          forall r', heap w' r' =
            if Nat.eqb r' r
            then fold_result (heap w0 r) (messages (heap w1 r)) res (clock (clock_reads w1))
            else heap w0 r')).
Proof.
  intros Hc. unfold handle, post_prompt, try_catch, prompt_try.
  assert (Hrefuse : forall code msg,
    exists reply w', (Ok (Failure code msg), w) = (Ok reply, w') /\
      ((exists code msg, reply = Failure code msg /\ w' = w) \/
       exists text r w0,
         prompt body = Some (JStr text) /\
         model_calls w0 = model_calls w /\
         sessions w0 !! session_id (heap w0 r) = Some r /\
         ((exists id, sessionId body = Some (JStr id) /\ sessions w !! id = Some r /\
                      continued w r w0) \/
          created w r w0) /\
         shell w0 w' /\
         model_calls w' = model_calls (processPromptWithMCP text r w0).2 /\
         ((reply = Failure 500 "Internal server error" /\ heap w' = heap w0) \/
          exists res w1,
            processPromptWithMCP text r w0 = (Ok (Some res), w1) /\
            reply = Prompted
              {| result := res; pr_sessionId := session_id (heap w0 r);
                 info_totalSteps :=
                   (totalSteps (heap w0 r) + r_totalSteps res + r_totalSteps res)%nat;
                 info_totalLocators :=
                   (length (locatorHistory (heap w0 r) ++ locators res)
                    + length (locators res))%nat;
                 info_sessionAge := clock (S (clock_reads w1)) - createdAt (heap w0 r) |} /\
            forall r', heap w' r' =
              if Nat.eqb r' r
              then fold_result (heap w0 r) (messages (heap w1 r)) res
                     (clock (clock_reads w1))
              else heap w0 r')))
    by (intros code msg; eexists _, _; split; [reflexivity|]; left; eauto).
  destruct (prompt body) as [[ |[]|n|text| | ]|] eqn:Hprompt; simpl; try apply Hrefuse.
  - destruct (negb (n =? 0)); simpl; apply Hrefuse.
  - destruct (is_empty text || is_empty (trim text)); [apply Hrefuse|].
    destruct (resolve_session_detail body w Hc) as (o & w0 & Hres & Hmc & Ho).
    rewrite (bind_ok _ _ _ _ _ Hres).
    destruct o as [r|]; [|subst w0; apply Hrefuse].
    destruct Ho as [Hin Hhow].
    pose proof (prompt_in_session_calls text r w0) as Hcalls.
    destruct (prompt_in_session_spec text r w0 Hin) as (o & w' & Hrun & Hw & Hpost).
    rewrite Hrun in Hcalls |- *. cbn [snd] in Hcalls.
    destruct o as [reply|e].
    + destruct (prompt_in_session_detail text r w0 reply w' Hin Hrun)
        as (res & w1 & Hproc & -> & _ & Hheap).
      eexists _, _. split; [reflexivity|]. right. exists text, r, w0.
      repeat (split; [first [reflexivity|assumption]|]). right. exists res, w1. auto.
    + eexists _, _. split; [reflexivity|]. right. exists text, r, w0.
      repeat (split; [first [reflexivity|assumption]|]). left. auto.
Qed.

End PromptCases.

(* ===================================================================== *)
(** * The claims on whole runs and on the prompt route                    *)
(* ===================================================================== *)

Section RunClaims.
Context {env : Env}.

(** C7.  In a round whose reply asks for tool calls, every call is made,
    by [callTool] with its own name and arguments, one after the other in
    the order of the reply, and no failure of a call stops the others or
    leaves the round as an exception: the round returns, and it has
    appended to the history the assistant turn and, after it, one user
    turn that holds one tool-result entry per call, in the order of the
    calls.  Each entry is tagged with the id of its call and holds the
    outcome of that call: where [callTool] returned, the content of the
    result, with [is_error] unset; where [callTool] threw, or the reading
    of its result threw, the text of the error, with [is_error] set.  The
    loop then goes on to the model service. *)
Theorem tool_failures_are_absorbed l w content :
  model_reply (model_calls w) = Ok content ->
  tool_uses content <> [] ->
  exists l' w' results,
    round l w = (Ok l', w') /\
    l_messages l' = l_messages l
      ++ [{| role := assistant; content := ReplyBlocks content |};
          {| role := user; content := ToolResults results |}] /\
    calls_answered (tool_uses content) (with_model_calls (S (model_calls w)) w) results w' /\
    map tool_use_id results = block_ids (tool_uses content) /\
    length results = length (tool_uses content) /\
    conversationComplete l' = false /\
    model_calls w' = S (model_calls w).
Proof.
  intros Hreply Huses.
  destruct (round_ok l w content Hreply)
    as (l' & w' & results & Hrun & _ & Hmc & _ & _ & Hids & Hmsg).
  destruct (round_trace l w l' w' Hrun)
    as (content' & results' & per_call & Hreply' & _ & _ & _ & _ & Hmsg' & Hcalls & _).
  rewrite Hreply in Hreply'. injection Hreply' as <-.
  exists l', w', results. split; [exact Hrun|].
  destruct (tool_uses content) as [|u us] eqn:Hu; [congruence|].
  destruct Hmsg as [Hcc Hm]. split; [exact Hm|].
  assert (results' = results) as ->.
  { rewrite Hm in Hmsg'. apply app_inv_head in Hmsg'. congruence. }
  split; [exact Hcalls|]. split; [exact Hids|]. split; [|auto].
  rewrite <- (length_map tool_use_id), Hids, <- Hu.
  unfold tool_uses. clear. induction content as [|[t|i n a|t] rest IH]; simpl; auto.
Qed.


(** C6, as the code has it.  When [POST /api/prompt] answers with a
    failure, one of three things has happened to the store.  Nothing: the
    request was refused.  Or the session named by the request was
    continued: its last-activity timestamp is that of the request, every
    other field of it and every other session object is as before, and the
    session map and the timers are as before.  Or a session was created:
    it is stored, empty as a new session is, under the identifier drawn,
    with its sweep scheduled, and every other session object and every
    other entry of the session map is as before. *)
Theorem failed_prompt_keeps_session_contents body w code msg w' :
  consistent w ->
  handle (PostPrompt body) w = (Ok (Failure code msg), w') ->
  w' = w \/
  (exists id r,
     sessionId body = Some (JStr id) /\ sessions w !! id = Some r /\
     sessions w' = sessions w /\ timers w' = timers w /\ next_ref w' = next_ref w /\
     forall r', heap w' r' = if Nat.eqb r' r
                             then set_lastActivity (clock (clock_reads w)) (heap w r)
                             else heap w r') \/
  (sessions w' = <[uuidv4 (uuid_calls w) := next_ref w]> (sessions w) /\
   timers w' = timers w ++ [uuidv4 (uuid_calls w)] /\
   next_ref w' = S (next_ref w) /\
   forall r', heap w' r' = if Nat.eqb r' (next_ref w)
                           then fresh_session (uuidv4 (uuid_calls w)) (clock (clock_reads w))
                                  (clock (S (clock_reads w)))
                           else heap w r').
Proof.
  intros Hc Hrun.
  destruct (post_prompt_cases body w Hc) as (reply & w1 & Hrun1 & Hcases).
  rewrite Hrun in Hrun1. injection Hrun1 as <- <-.
  destruct Hcases as [(c & m & _ & ->)|(text & r & w0 & _ & _ & _ & Hhow & Hw & _ & Hpost)];
    [left; reflexivity|right].
  destruct Hpost as [[_ Hheap]|(res & w1 & _ & Hreply & _)]; [|discriminate].
  destruct Hw as (Hn & Hs & Ht & _).
  destruct Hhow as [(id & Hid & Hr & (_ & (Hn0 & Hs0 & Ht0 & _) & Hh0))
                   |(-> & Hn0 & Hs0 & Ht0 & Hh0)].
  - left. exists id, r. rewrite Hheap. repeat (split; [congruence|]). exact Hh0.
  - right. rewrite Hheap. repeat (split; [congruence|]). exact Hh0.
Qed.

(** An event, by what it does to the step counts of the session objects. *)
Lemma step_total e w :
  consistent w ->
  (forall r, (next_ref w <= r)%nat -> totalSteps (heap w r) = 0%nat) ->
  (next_ref w <= next_ref (step e w))%nat /\
  forall r, totalSteps (heap (step e w) r)
            = (totalSteps (heap w r) + folded_rounds r [e] w)%nat.
Proof.
  intros Hc Hblank.
  cut ((next_ref w <= next_ref (step e w))%nat /\
       forall r, totalSteps (heap (step e w) r)
                 = (totalSteps (heap w r)
                    + match told e w with
                      | Some (id, n) =>
                          if bool_decide (sessions (step e w) !! id = Some r) then n else 0
                      | None => 0
                      end)%nat).
  { intros [H1 H2]. split; [exact H1|]. intros r. cbn [folded_rounds]. rewrite H2. lia. }
  assert (Hsame : told e w = None -> heap (step e w) = heap w ->
                  next_ref (step e w) = next_ref w ->
                  (next_ref w <= next_ref (step e w))%nat /\
                  forall r, totalSteps (heap (step e w) r)
                            = (totalSteps (heap w r)
                               + match told e w with
                                 | Some (id, n) =>
                                     if bool_decide (sessions (step e w) !! id = Some r)
                                     then n else 0
                                 | None => 0
                                 end)%nat)
    by (intros -> -> ->; split; [lia|intros r; lia]).
  destruct e as [[ | |id| |id|body| |id]|n]; try (apply Hsame; reflexivity).
  - unfold step. rewrite handle_create_world.
    destruct (createSession_run w) as (w1 & Hrun & Hn & Hs & Ht & Hh). rewrite Hrun.
    cbn [snd told]. split; [lia|]. intros r. rewrite Hh, Nat.add_0_r.
    destruct (Nat.eqb_spec r (next_ref w)) as [->|]; [|reflexivity].
    cbn. symmetry. apply Hblank. lia.
  - unfold step. rewrite (proj1 (handle_session_world id w)).
    destruct (getSession_touches id w) as (o & w1 & -> & (Hn & _) & Ht & _).
    cbn [snd told]. split; [lia|]. intros r. rewrite Nat.add_0_r.
    destruct (proj1 (touched_fields _ _) (Ht r)) as (_ & _ & _ & _ & _ & ->). reflexivity.
  - unfold step. rewrite handle_delete_world. cbn. split; [lia|]. intros r. lia.
  - destruct (post_prompt_cases body w Hc) as (reply & w' & Hrun & Hcases).
    unfold step, told. rewrite Hrun. cbn [fst snd].
    destruct Hcases as [(c & m & -> & ->)
                       |(text & r0 & w0 & _ & _ & Hin & Hhow & Hw & _ & Hpost)].
    { split; [lia|]. intros r. lia. }
    assert (Hbase : (next_ref w <= next_ref w0)%nat /\
                    forall r, totalSteps (heap w0 r) = totalSteps (heap w r)).
    { destruct Hhow as [(id & _ & _ & (_ & (Hn0 & _) & Hh0))|(-> & Hn0 & _ & _ & Hh0)].
      - split; [lia|]. intros r. rewrite Hh0.
        destruct (Nat.eqb_spec r r0) as [->|]; reflexivity.
      - split; [lia|]. intros r. rewrite Hh0.
        destruct (Nat.eqb_spec r (next_ref w)) as [->|]; [|reflexivity].
        cbn. symmetry. apply Hblank. lia. }
    destruct Hbase as [Hnext Hbase]. destruct Hw as (Hn & Hs & _).
    split; [lia|]. intros r.
    destruct Hpost as [[-> Hheap]|(res & w1 & _ & -> & Hheap)].
    + rewrite Hheap, Hbase. lia.
    + cbn [pr_sessionId result]. rewrite Hs, Hin, Hheap.
      destruct (Nat.eqb_spec r r0) as [->|Hne].
      * rewrite bool_decide_eq_true_2 by reflexivity. cbn. rewrite Hbase. reflexivity.
      * rewrite bool_decide_eq_false_2 by congruence. rewrite Hbase. lia.
  - unfold step. rewrite (proj2 (handle_session_world id w)).
    destruct (getSession_touches id w) as (o & w1 & -> & (Hn & _) & Ht & _).
    cbn [snd told]. split; [lia|]. intros r. rewrite Nat.add_0_r.
    destruct (proj1 (touched_fields _ _) (Ht r)) as (_ & _ & _ & _ & _ & ->). reflexivity.
  - unfold step. rewrite fire_timer_world. cbn [told].
    destruct (timers w !! n) as [id|]; [|split; [lia|intros r; lia]].
    rewrite sweep_run. cbn [sessions with_timers].
    destruct (sessions w !! id); [|cbn; split; [lia|intros r; lia]].
    destruct (decide _); cbn; (split; [lia|intros r; lia]).
Qed.

Lemma run_total events : forall w,
  consistent w ->
  (forall r, (next_ref w <= r)%nat -> totalSteps (heap w r) = 0%nat) ->
  forall r, totalSteps (heap (run events w) r)
            = (totalSteps (heap w r) + folded_rounds r events w)%nat.
Proof.
  induction events as [|e rest IH]; intros w Hc Hblank r.
  - cbn. lia.
  - destruct (step_total e w Hc Hblank) as [Hnext Hstep].
    pose proof (step_consistent e w Hc) as Hc'.
    change (run (e :: rest) w) with (run rest (step e w)).
    rewrite IH; [|exact Hc'|].
    + rewrite Hstep. cbn [folded_rounds]. lia.
    + intros r' Hr'. rewrite Hstep, Hblank by lia. cbn [folded_rounds].
      destruct (told e w) as [[id n]|]; [|reflexivity].
      destruct (bool_decide_reflect (sessions (step e w) !! id = Some r')) as [Hid|];
        [|reflexivity].
      destruct (Hc' id r' Hid) as (Hlt & _). lia.
Qed.

(** C4, as the code has it.  After any sequence of events, the step count
    of every stored session is the number of rounds of the model service
    folded into it over its lifetime: the sum of the [totalSteps] that the
    replies to its prompts told, whatever the number of tool calls.  The
    [totalSteps] of a result is the number of rounds of the attempt that
    returned it, each a call of the model service that was answered.  In
    particular a run in which the model asks for one navigate call and
    then for none returns [totalSteps = 2]. *)
Theorem steps_count_model_rounds :
  (forall events id r,
     sessions (run events initial_world) !! id = Some r ->
     stored (run events initial_world) id = Some (heap (run events initial_world) r) /\
     totalSteps (heap (run events initial_world) r)
     = folded_rounds r events initial_world) /\
  (forall message session w res w',
     processPromptWithMCP message session w = (Ok (Some res), w') ->
     exists from,
       (model_calls w <= from)%nat /\
       model_calls w' = (from + r_totalSteps res)%nat /\
       forall i, (i < r_totalSteps res)%nat -> replies (from + i)) /\
  (forall message session w id input content,
     model_reply (model_calls w)
       = Ok [ToolUseBlock id "playwright_playwright_navigate" input] ->
     model_reply (S (model_calls w)) = Ok content -> tool_uses content = [] ->
     exists res w', processPromptWithMCP message session w = (Ok (Some res), w') /\
                    r_totalSteps res = 2%nat).
Proof.
  split; [|split].
  - intros events id r Hid. split; [unfold stored; rewrite Hid; reflexivity|].
    rewrite (run_total events initial_world consistent_initial); [reflexivity|].
    reflexivity.
  - intros message session w res w' Hrun. unfold processPromptWithMCP in Hrun.
    destruct (retrying_trace _ _ _ _ _ _ _ Hrun) as (w0 & Hatt & _ & Hle & _).
    destruct (attempt_trace message session w0 res w' Hatt)
      as (per_call & _ & Hmc & Hrounds & _).
    exists (model_calls w0). split; [exact Hle|]. split; [exact Hmc|].
    intros i Hi. destruct (Hrounds i Hi) as (c & Hc & _). exists c. exact Hc.
  - intros message session w id input content H1 H2 Hnone.
    apply (one_tool_call_two_rounds message session w id _ input content H1); [|exact Hnone].
    intros w1 ->. exact H2.
Qed.

(** C5, as the code has it.  The records of the tool calls of a run reach
    the locator trail of the session only with the result of the run.
    When [POST /api/prompt] succeeds, the trail of its session is what it
    was before, nothing for a session just created, followed by the
    records of the result, and these are, call by call in the order of the
    calls of the attempt that returned the result: no record for a call
    whose arguments have none of the fields [selector], [locator], [text],
    and not both of [role] and [name]; exactly one record, with the
    selector as its locator, for a call of a tool whose name contains
    [playwright_] with a truthy [selector] (a string that is not empty,
    for one); at most one record for any call.  When the request fails,
    the records are dropped: every trail is as it was, and that of a
    session just created is empty. *)
Theorem locator_trail_of_a_prompt body w reply w' :
  consistent w ->
  handle (PostPrompt body) w = (Ok reply, w') ->
  match reply with
  | Prompted p =>
      exists r from per_call,
        sessions w' !! pr_sessionId p = Some r /\
        locatorHistory (heap w' r)
        = (if decide (r < next_ref w)%nat then locatorHistory (heap w r) else [])
          ++ locators (result p) /\
        locators (result p) = concat per_call /\
        Forall2 trail_of_call (calls_from from (r_totalSteps (result p))) per_call /\
        (model_calls w <= from)%nat /\
        model_calls w' = (from + r_totalSteps (result p))%nat
  | _ =>
      forall k r, sessions w' !! k = Some r ->
        locatorHistory (heap w' r)
        = (if decide (r < next_ref w)%nat then locatorHistory (heap w r) else [])
  end.
Proof.
  intros Hc Hrun.
  destruct (post_prompt_cases body w Hc) as (reply1 & w1 & Hrun1 & Hcases).
  rewrite Hrun in Hrun1. injection Hrun1 as <- <-.
  assert (Hold : forall k r, sessions w !! k = Some r ->
                   (if decide (r < next_ref w)%nat then locatorHistory (heap w r) else [])
                   = locatorHistory (heap w r)).
  { intros k r Hk. destruct (Hc k r Hk) as (Hlt & _).
    destruct (decide _); [reflexivity|contradiction]. }
  destruct Hcases as [(c & m & -> & ->)
                     |(text & r0 & w0 & _ & Hmc0 & Hin & Hhow & Hw & Hcalls & Hpost)].
  { intros k r Hk. symmetry. exact (Hold k r Hk). }
  assert (Hbase : forall r,
            (r = r0 \/ exists k, sessions w0 !! k = Some r) ->
            locatorHistory (heap w0 r)
            = (if decide (r < next_ref w)%nat then locatorHistory (heap w r) else [])).
  { destruct Hhow as [(id & _ & Hid & (Hlt & (_ & Hs0 & _) & Hh0))|(-> & _ & Hs0 & _ & Hh0)];
      intros r Hr; rewrite Hh0.
    - assert (Hlt' : (r < next_ref w)%nat).
      { destruct Hr as [->|[k Hk]]; [exact Hlt|]. rewrite Hs0 in Hk. apply (Hc k r Hk). }
      destruct (decide _); [|contradiction].
      destruct (Nat.eqb_spec r r0) as [->|]; reflexivity.
    - destruct (Nat.eqb_spec r (next_ref w)) as [->|Hne].
      + destruct (decide _); [lia|reflexivity].
      + destruct Hr as [->|[k Hk]]; [contradiction|].
        rewrite Hs0 in Hk.
        destruct (decide (uuidv4 (uuid_calls w) = k)) as [<-|Hk'];
          [rewrite lookup_insert_eq in Hk; congruence|].
        rewrite lookup_insert_ne in Hk by exact Hk'.
        exact (eq_sym (Hold k r Hk)). }
  destruct Hw as (_ & Hs & _).
  destruct Hpost as [[-> Hheap]|(res & w2 & Hproc & -> & Hheap)].
  - intros k r Hk. rewrite Hheap. apply Hbase. right. exists k. rewrite <- Hs. exact Hk.
  - unfold processPromptWithMCP in Hproc.
    destruct (retrying_trace _ _ _ _ _ _ _ Hproc) as (w3 & Hatt & _ & Hle & _).
    destruct (attempt_trace text r0 w3 res w2 Hatt)
      as (per_call & _ & Hmc & _ & _ & _ & Hloc & Htrail).
    exists r0, (model_calls w3), per_call. cbn [pr_sessionId result].
    split; [rewrite Hs; exact Hin|]. split.
    { rewrite Hheap, Nat.eqb_refl. cbn. rewrite Hbase by (left; reflexivity). reflexivity. }
    split; [exact Hloc|]. split; [exact Htrail|]. split; [lia|].
    unfold processPromptWithMCP in Hcalls. rewrite Hproc in Hcalls. cbn [snd] in Hcalls. lia.
Qed.

End RunClaims.

(* ===================================================================== *)
(** * Further properties: the browser of a session                        *)
(* ===================================================================== *)

Section ContextProperties.
Context {env : Env}.

(** No event closes the browser of a session object. *)
Lemma step_browser e w r :
  consistent w -> (r < next_ref w)%nat ->
  browserState (context (heap w r)) = "open" ->
  (r < next_ref (step e w))%nat /\
  browserState (context (heap (step e w) r)) = "open".
Proof.
  intros Hc Hr Hopen.
  assert (Hsame : heap (step e w) = heap w -> next_ref (step e w) = next_ref w ->
                  (r < next_ref (step e w))%nat /\
                  browserState (context (heap (step e w) r)) = "open")
    by (intros -> ->; auto).
  assert (Htouched : forall w1, next_ref w1 = next_ref w ->
            (forall r', touched (heap w r') (heap w1 r')) ->
            (r < next_ref w1)%nat /\ browserState (context (heap w1 r)) = "open").
  { intros w1 Hn Ht. split; [lia|].
    destruct (proj1 (touched_fields _ _) (Ht r)) as (_ & _ & _ & -> & _). exact Hopen. }
  destruct e as [[ | |id| |id|body| |id]|n]; try (apply Hsame; reflexivity).
  - unfold step. rewrite handle_create_world.
    destruct (createSession_run w) as (w1 & Hrun & Hn & Hs & Ht & Hh). rewrite Hrun.
    cbn [snd]. split; [lia|]. rewrite Hh.
    destruct (Nat.eqb_spec r (next_ref w)); [lia|exact Hopen].
  - unfold step. rewrite (proj1 (handle_session_world id w)).
    destruct (getSession_touches id w) as (o & w1 & -> & (Hn & _) & Ht & _).
    apply Htouched; assumption.
  - unfold step. rewrite handle_delete_world. cbn. auto.
  - destruct (post_prompt_cases body w Hc) as (reply & w' & Hrun & Hcases).
    unfold step. rewrite Hrun. cbn [snd].
    destruct Hcases as [(c & m & _ & ->)
                       |(text & r0 & w0 & _ & _ & _ & Hhow & (Hn & _) & _ & Hpost)];
      [auto|].
    assert (Hbase : (r < next_ref w0)%nat /\ browserState (context (heap w0 r)) = "open").
    { destruct Hhow as [(id & _ & _ & (_ & (Hn0 & _) & Hh0))|(-> & Hn0 & _ & _ & Hh0)].
      - split; [lia|]. rewrite Hh0. destruct (Nat.eqb_spec r r0) as [->|]; exact Hopen.
      - split; [lia|]. rewrite Hh0.
        destruct (Nat.eqb_spec r (next_ref w)); [lia|exact Hopen]. }
    destruct Hbase as [Hr0 Hopen0]. split; [lia|].
    destruct Hpost as [[_ ->]|(res & w1 & Hproc & _ & ->)]; [exact Hopen0|].
    destruct (Nat.eqb_spec r r0) as [->|]; [|exact Hopen0].
    cbn. destruct (run_updates_ok text r0 w0 res w1 Hproc) as [[-> _]|[-> _]];
      [exact Hopen0|reflexivity].
  - unfold step. rewrite (proj2 (handle_session_world id w)).
    destruct (getSession_touches id w) as (o & w1 & -> & (Hn & _) & Ht & _).
    apply Htouched; assumption.
  - unfold step. rewrite fire_timer_world.
    destruct (timers w !! n) as [id|]; [|auto].
    rewrite sweep_run. cbn [sessions with_timers].
    destruct (sessions w !! id); [|cbn; auto].
    destruct (decide _); cbn; auto.
Qed.

Lemma run_browser events : forall w r,
  consistent w -> (r < next_ref w)%nat ->
  browserState (context (heap w r)) = "open" ->
  browserState (context (heap (run events w) r)) = "open".
Proof.
  induction events as [|e rest IH]; intros w r Hc Hr Hopen; [exact Hopen|].
  destruct (step_browser e w r Hc Hr Hopen) as [Hr' Hopen'].
  change (run (e :: rest) w) with (run rest (step e w)).
  apply IH; [apply step_consistent, Hc|exact Hr'|exact Hopen'].
Qed.

(** X12.  The context of every stored session has no completed actions,
    the code never records any, and its browser is either closed with no
    current url or open at a truthy url.  A browser that is open stays
    open: whatever events follow, for as long as the identifier names the
    same session object, the browser state of the session is open. *)
Theorem stored_contexts_are_coherent w id s :
  reachable w -> stored w id = Some s ->
  context_ok (context s) /\
  (browserState (context s) = "open" ->
   forall events s',
     sessions (run events w) !! id = sessions w !! id ->
     stored (run events w) id = Some s' ->
     browserState (context s') = "open").
Proof.
  intros Hw Hs. split; [exact (stored_contexts_invariant w id s Hw Hs)|].
  intros Hopen events s' Hsame. unfold stored in *. rewrite Hsame.
  destruct (sessions w !! id) as [r|] eqn:Hid; [|discriminate].
  cbn in Hs |- *. injection Hs as <-. intros [= <-].
  pose proof (reachable_consistent w Hw) as Hc.
  apply run_browser; [exact Hc|apply (Hc id r Hid)|exact Hopen].
Qed.

End ContextProperties.

(* ===================================================================== *)
(** * The claims on whole runs at concrete inputs                         *)
(* ===================================================================== *)



(** C7 at a round of two calls, the first of which times out. *)
Lemma tool_failures_are_absorbed_witness :
  @model_reply Cases.flaky (model_calls initial_world) = Ok Cases.two_calls /\
  tool_uses Cases.two_calls <> [] /\
  exists l' w',
    @round Cases.flaky Cases.first_round initial_world = (Ok l', w') /\
    l_messages l' = l_messages Cases.first_round
      ++ [{| role := assistant; content := ReplyBlocks Cases.two_calls |};
          {| role := user;
             content := ToolResults
               [error_entry "toolu_1" (Error "Request timeout after 45 seconds" None);
                @result_entry Cases.flaky "toolu_2" (JObj [("content", JArr [])])] |}].
Proof.
  assert (H1 : @model_reply Cases.flaky (model_calls initial_world) = Ok Cases.two_calls)
    by reflexivity.
  assert (H2 : tool_uses Cases.two_calls <> []) by discriminate.
  split; [exact H1|]. split; [exact H2|].
  destruct (@tool_failures_are_absorbed Cases.flaky Cases.first_round initial_world
              Cases.two_calls H1 H2) as (l' & w' & results & Hrun & Hm & Hcalls & _).
  exists l', w'. split; [exact Hrun|]. rewrite Hm.
  cbn [tool_uses List.filter is_tool_use Cases.two_calls calls_answered] in Hcalls.
  destruct Hcalls as (more & k & -> & _ & more' & k' & -> & _ & -> & _).
  reflexivity.
Defined.

(** C6, as the code has it, at a prompt that continues a session while
    the model service is down. *)
Lemma failed_prompt_keeps_session_contents_witness :
  let w := @step Cases.down (Http PostSessionCreate) initial_world in
  let out := @handle Cases.down (PostPrompt (Demo.continuing "s0" "again")) w in
  consistent w /\
  out = (Ok (Failure 500 "Internal server error"), out.2) /\
  sessions w !! "s0" = Some 0%nat /\
  sessions out.2 = sessions w /\ timers out.2 = timers w /\
  heap out.2 0%nat
  = set_lastActivity (@clock Cases.down (clock_reads w)) (heap w 0%nat).
Proof.
  intros w out.
  assert (Hc : consistent w)
    by (apply (@step_consistent Cases.down), consistent_initial).
  assert (Hout : out = (Ok (Failure 500 "Internal server error"), out.2))
    by (vm_compute; reflexivity).
  split; [exact Hc|]. split; [exact Hout|]. split; [reflexivity|].
  destruct (@failed_prompt_keeps_session_contents Cases.down
              (Demo.continuing "s0" "again") w 500 "Internal server error" out.2 Hc Hout)
    as [Hsame|[(id & r & Hid & Hr & Hs & Ht & _ & Hh)|(_ & _ & Hn & _)]].
  - exfalso. apply (f_equal clock_reads) in Hsame. vm_compute in Hsame. discriminate Hsame.
  - injection Hid as <-. assert (r = 0%nat) as -> by (vm_compute in Hr; congruence).
    split; [exact Hs|]. split; [exact Ht|]. exact (Hh 0%nat).
  - exfalso. vm_compute in Hn. discriminate Hn.
Defined.

(** C4, as the code has it, at a session that took one prompt of two
    rounds and one call. *)
Lemma steps_count_model_rounds_witness :
  let events := [Http (PostPrompt (Demo.body "navigate to example.com"))] in
  let w := @run Cases.navigating events initial_world in
  sessions w !! "s0" = Some 0%nat /\
  @folded_rounds Cases.navigating 0%nat events initial_world = 2%nat /\
  length (tool_calls w) = 1%nat /\
  totalSteps (heap w 0%nat) = 2%nat.
Proof.
  intros events w.
  assert (Hid : sessions w !! "s0" = Some 0%nat) by reflexivity.
  assert (Hrounds : @folded_rounds Cases.navigating 0%nat events initial_world = 2%nat)
    by (vm_compute; reflexivity).
  split; [exact Hid|]. split; [exact Hrounds|]. split; [reflexivity|].
  destruct (@steps_count_model_rounds Cases.navigating) as (Hsteps & _ & _).
  destruct (Hsteps events "s0" 0%nat Hid) as [_ Htotal].
  rewrite <- Hrounds. exact Htotal.
Defined.

(** C5, as the code has it, at a prompt answered with a click on a
    selector. *)
Lemma locator_trail_of_a_prompt_witness :
  let out := @handle Cases.flaky (PostPrompt (Demo.body "submit the form")) initial_world in
  consistent initial_world /\
  exists p r,
    out = (Ok (Prompted p), out.2) /\
    map locator (locators (result p)) = [Some (JStr "#submit")] /\
    sessions out.2 !! pr_sessionId p = Some r /\
    locatorHistory (heap out.2 r) = locators (result p).
Proof.
  intros out. split; [exact consistent_initial|].
  assert (H : exists p, out = (Ok (Prompted p), out.2) /\
                        map locator (locators (result p)) = [Some (JStr "#submit")])
    by (vm_compute; eexists; split; reflexivity).
  destruct H as (p & Hout & Hloc).
  pose proof (@locator_trail_of_a_prompt Cases.flaky (Demo.body "submit the form")
                initial_world (Prompted p) out.2 consistent_initial Hout) as Htrail.
  cbn beta iota in Htrail.
  destruct Htrail as (r & from & per_call & Hr & Hhist & _).
  exists p, r. split; [exact Hout|]. split; [exact Hloc|]. split; [exact Hr|].
  rewrite Hhist. destruct (decide (r < next_ref initial_world)%nat) as [Hlt|_];
    [cbn in Hlt; lia|reflexivity].
Defined.

(** X12 at the session of a prompt answered with a navigate call, which
    is then fetched and prompted again. *)
Lemma stored_contexts_are_coherent_witness :
  let events := [Http (GetSession "s0");
                 Http (PostPrompt (Demo.continuing "s0" "and now?"))] in
  @reachable Cases.navigating Samples.visited /\
  exists s s',
    stored Samples.visited "s0" = Some s /\ browserState (context s) = "open" /\
    context_ok (context s) /\
    stored (@run Cases.navigating events Samples.visited) "s0" = Some s' /\
    length (messages s') = 6%nat /\ browserState (context s') = "open".
Proof.
  intros events.
  assert (Hw : @reachable Cases.navigating Samples.visited)
    by (apply reachable_step, reachable_initial).
  split; [exact Hw|].
  exists (heap Samples.visited 0%nat),
         (heap (@run Cases.navigating events Samples.visited) 0%nat).
  destruct (@stored_contexts_are_coherent Cases.navigating Samples.visited "s0" _ Hw eq_refl)
    as [Hok Hstays].
  assert (Hsame : sessions (@run Cases.navigating events Samples.visited) !! "s0"
                  = sessions Samples.visited !! "s0") by (vm_compute; reflexivity).
  assert (Hlater : stored (@run Cases.navigating events Samples.visited) "s0"
                   = Some (heap (@run Cases.navigating events Samples.visited) 0%nat))
    by (unfold stored; rewrite Hsame; reflexivity).
  split; [reflexivity|]. split; [reflexivity|]. split; [exact Hok|].
  split; [exact Hlater|]. split; [vm_compute; reflexivity|].
  exact (Hstays eq_refl events _ Hsame Hlater).
Defined.
